(** * Tiled inference pipeline of the optical-profilometry defect detector

    A shallow embedding of the numeric core of [app.js]: normalization
    ranges, crop extraction, grid reassembly, difference computation and
    percentile thresholding, together with the re-entrancy guard of
    [runInference].

    The file has three parts: the arithmetic of JavaScript numbers, the
    embedding of the source functions (module [Minimal] for the [App] front
    end, module [Demo] for the [ModelInferenceApp] front end), and the
    theorems.  Modules [Gallery], [Cloud], [Canvas] and [Datasets] embed
    the thumbnail of the gallery, the point cloud and the canvases of the
    [ModelInferenceApp] front end, and the choice of the two datasets of a
    file; their properties close the file. *)

From Stdlib Require Import ZArith Lia Bool.
From Stdlib Require Import Floats.SpecFloat.
From stdpp Require Import base option list list_numbers sorting strings.

Local Open Scope Z_scope.

(** ** JavaScript numbers

    A JavaScript number is an IEEE 754 binary64 value.  Every finite
    binary64 value is an integer multiple of [2^-1074], so a finite number
    is kept as that integer: [Fin k] stands for [k * 2^-1074].  The two
    zeros are identified ([Fin 0]): the pipeline never divides by a value
    that can be a negative zero and never inspects the sign of a zero, so
    no function below tells them apart.  All NaNs are one value. *)

Inductive number : Type :=
| NaN : number
| PosInf : number
| NegInf : number
| Fin (k : Z) : number.

(** [U] is the integer that stands for 1.0. *)
Definition U : Z := 2 ^ 1074.

(** Nearest integer to [n / d] for [d > 0], ties to the even one. *)
Definition rne (n d : Z) : Z :=
  let q := n / d in
  let r := n mod d in
  match (2 * r ?= d) with
  | Lt => q
  | Gt => q + 1
  | Eq => if Z.even q then q else q + 1
  end.

(** A binary format: [prec] significant bits, the smallest positive value
    [2^shift0] (in units of [2^-1074]) and overflow from [2^maxbits]. *)
Record format : Type := { prec : Z; shift0 : Z; maxbits : Z }.

Definition binary64 : format := {| prec := 53; shift0 := 0; maxbits := 2098 |}.
Definition binary32 : format := {| prec := 24; shift0 := 925; maxbits := 1202 |}.

(** Round the non-negative rational [n / d] (in units of [2^-1074]) to the
    format: the spacing of representable values around it is [2^s]. *)
Definition round_mag (f : format) (n d : Z) : Z :=
  let L := Z.log2 (n / d) + 1 in
  let s := Z.max (shift0 f) (L - prec f) in
  rne n (d * 2 ^ s) * 2 ^ s.

Definition round (f : format) (n d : Z) : number :=
  if 0 <=? n then
    let k := round_mag f n d in
    if k <? 2 ^ maxbits f then Fin k else PosInf
  else
    let k := round_mag f (- n) d in
    if k <? 2 ^ maxbits f then Fin (- k) else NegInf.

Definition fneg (a : number) : number :=
  match a with
  | NaN => NaN
  | PosInf => NegInf
  | NegInf => PosInf
  | Fin x => Fin (- x)
  end.

(** [a + b] *)
Definition fadd (a b : number) : number :=
  match a, b with
  | NaN, _ | _, NaN => NaN
  | PosInf, NegInf | NegInf, PosInf => NaN
  | PosInf, _ | _, PosInf => PosInf
  | NegInf, _ | _, NegInf => NegInf
  | Fin x, Fin y => round binary64 (x + y) 1
  end.

(** [a - b] *)
Definition fsub (a b : number) : number := fadd a (fneg b).

(** An infinity times (or divided by) a finite value of sign [x]. *)
Definition sign_mul (x : Z) (a : number) : number :=
  match x ?= 0 with
  | Eq => NaN
  | Gt => a
  | Lt => fneg a
  end.

(** [a * b] *)
Definition fmul (a b : number) : number :=
  match a, b with
  | NaN, _ | _, NaN => NaN
  | Fin x, Fin y => round binary64 (x * y) U
  | Fin x, inf => sign_mul x inf
  | inf, Fin y => sign_mul y inf
  | PosInf, PosInf | NegInf, NegInf => PosInf
  | PosInf, NegInf | NegInf, PosInf => NegInf
  end.

(** [a / b]; a zero divisor counts as [+0]. *)
Definition fdiv (a b : number) : number :=
  match a, b with
  | NaN, _ | _, NaN => NaN
  | Fin x, Fin y =>
      match y ?= 0 with
      | Gt => round binary64 (x * U) y
      | Lt => round binary64 (- (x * U)) (- y)
      | Eq => sign_mul x PosInf
      end
  | Fin _, _ => Fin 0
  | inf, Fin y => if 0 <=? y then inf else fneg inf
  | _, _ => NaN
  end.

(** [a < b], [a <= b], [a > b], [a >= b], [a === b] *)
Definition flt (a b : number) : bool :=
  match a, b with
  | NaN, _ | _, NaN => false
  | Fin x, Fin y => x <? y
  | _, NegInf => false
  | NegInf, _ => true
  | PosInf, _ => false
  | _, PosInf => true
  end.

Definition fle (a b : number) : bool :=
  match a, b with
  | NaN, _ | _, NaN => false
  | Fin x, Fin y => x <=? y
  | NegInf, _ => true
  | _, PosInf => true
  | _, _ => false
  end.

Definition fgt (a b : number) : bool := flt b a.
Definition fge (a b : number) : bool := fle b a.

Definition feq (a b : number) : bool :=
  match a, b with
  | Fin x, Fin y => x =? y
  | PosInf, PosInf | NegInf, NegInf => true
  | _, _ => false
  end.

(** The global [isFinite] and [isNaN]. *)
Definition isFinite (a : number) : bool :=
  match a with Fin _ => true | _ => false end.

Definition isNaN (a : number) : bool :=
  match a with NaN => true | _ => false end.

(** [Math.abs], [Math.floor], [Math.min] and [Math.max] (two arguments). *)
Definition Math_abs (a : number) : number :=
  match a with
  | NaN => NaN
  | PosInf | NegInf => PosInf
  | Fin x => Fin (Z.abs x)
  end.

Definition Math_floor (a : number) : number :=
  match a with
  | Fin x => Fin (x / U * U)
  | _ => a
  end.

Definition Math_min (a b : number) : number :=
  match a, b with
  | NaN, _ | _, NaN => NaN
  | _, _ => if flt b a then b else a
  end.

Definition Math_max (a b : number) : number :=
  match a, b with
  | NaN, _ | _, NaN => NaN
  | _, _ => if flt a b then b else a
  end.

(** A decimal literal [n / d] of the source text, and an integer (an array
    length, a loop counter) used as a number. *)
Definition literal (n d : Z) : number := round binary64 (n * U) d.
Definition of_Z (n : Z) : number := round binary64 (n * U) 1.

(** The conversion applied on every store into a [Float32Array]. *)
Definition fround (a : number) : number :=
  match a with
  | Fin x => round binary32 x 1
  | _ => a
  end.

(** The array index a number denotes as a property key, if any. *)
Definition index_of (a : number) : option nat :=
  match a with
  | Fin x => if (0 <=? x) && (x mod U =? 0) then Some (Z.to_nat (x / U)) else None
  | _ => None
  end.

(** *** Agreement with the Standard Library's IEEE 754 specification *)

Definition of_SF (x : spec_float) : number :=
  match x with
  | S754_zero _ => Fin 0
  | S754_infinity false => PosInf
  | S754_infinity true => NegInf
  | S754_nan => NaN
  | S754_finite s m e =>
      let v := Z.pos m * 2 ^ (e + 1074) in
      Fin (if s then - v else v)
  end.

Definition number_same (a b : number) : bool :=
  match a, b with
  | NaN, NaN | PosInf, PosInf | NegInf, NegInf => true
  | Fin x, Fin y => x =? y
  | _, _ => false
  end.

(** The binary64 value nearest to [m * 2^e]. *)
Definition SF (m e : Z) : spec_float := binary_normalize 53 1024 m e false.

(** Sample operand pairs: a tie at the 53-bit boundary, overflow,
    subnormals and underflow, the two calibration constants, an inexact
    quotient, mixed magnitudes, and every combination of a zero, an
    infinity or NaN with a zero, a finite value, an infinity or NaN.  The
    zeros are positive: a division by a negative zero is the one operation
    whose result the model does not represent. *)
Definition SF_pairs : list (spec_float * spec_float) :=
  [ (SF (-9007199254740993) 0, SF 1 0);
    (SF 9007199254740991 971, SF 9007199254740991 971);
    (SF 3 (-1074), SF 3 (-1074));
    (SF 50481640625 (-20), SF 164982578125 (-23));
    (SF 1 0, SF 3 0);
    (SF 3 (-1074), SF 9007199254740991 971);
    (SF 9007199254740991 971, SF (-5) (-1074)) ]
  ++ flat_map (fun s => flat_map (fun x => [(s, x); (x, s)])
                 [S754_zero false; SF (-29) 0; S754_infinity false;
                  S754_infinity true; S754_nan])
       [S754_zero false; S754_infinity false; S754_infinity true; S754_nan].

Definition agrees (f : number -> number -> number)
    (g : spec_float -> spec_float -> spec_float) : bool :=
  forallb (fun '(a, b) => number_same (f (of_SF a) (of_SF b)) (of_SF (g a b)))
    SF_pairs.

Definition agrees_test (f : number -> number -> bool)
    (g : spec_float -> spec_float -> bool) : bool :=
  forallb (fun '(a, b) => Bool.eqb (f (of_SF a) (of_SF b)) (g a b)) SF_pairs.

(** ** Arrays, typed arrays and loops *)

(** The contents of a [Float32Array].  A typed array held in a field that
    is replaced and written in place ([lastReconstructed],
    [differenceData]) lives in the heap and the field holds a reference to
    it; the heap only grows, [new Float32Array] appends to it. *)
Abbreviation Float32Array := (list number) (only parsing).
Abbreviation ref := nat (only parsing).
Abbreviation heap := (list (list number)) (only parsing).

(** [new Float32Array(n)]: [n] zeros, for [0 <= n]; the [RangeError] of
    a negative length is not modelled. *)
Definition new_Float32Array (n : Z) : Float32Array :=
  replicate (Z.to_nat n) (Fin 0).

Definition alloc (a : Float32Array) (h : heap) : ref * heap :=
  (length h, h ++ [a]).

Definition deref (h : heap) (r : ref) : Float32Array :=
  default [] (h !! r).

(** [a[i]] as a number: an index out of range reads [undefined], which is
    [NaN] in arithmetic and comparisons and not finite for [isFinite]. *)
Definition read (a : list number) (i : Z) : number :=
  if i <? 0 then NaN else default NaN (a !! Z.to_nat i).

(** [a[i] = v] on a [Float32Array]: the value is converted to float32; a
    store out of range is ignored. *)
Definition write (a : Float32Array) (i : Z) (v : number) : Float32Array :=
  if i <? 0 then a else <[Z.to_nat i := fround v]> a.

(** [r[i] = v] through a reference. *)
Definition store (r : ref) (i : Z) (v : number) (h : heap) : heap :=
  alter (fun a => write a i v) r h.

(** [a[x]] where the key [x] is a computed number. *)
Definition read_at (a : list number) (x : number) : number :=
  match index_of x with
  | Some i => default NaN (a !! i)
  | None => NaN
  end.

(** [for (let i = lo; i < hi; i++) body] *)
Definition for_range {S : Type} (lo hi : Z) (body : Z -> S -> S) (s : S) : S :=
  foldl (fun s i => body i s) s (seqZ lo (hi - lo)).

(** A loop body that may [return r] out of the enclosing function. *)
Inductive flow (S R : Type) : Type :=
| Next (s : S)
| Return (r : R) (s : S).
Arguments Next {S R} s.
Arguments Return {S R} r s.

Definition for_return {S R : Type} (lo hi : Z) (body : Z -> S -> flow S R)
    (s : S) : flow S R :=
  foldl (fun acc i =>
           match acc with
           | Next s => body i s
           | Return r s => Return r s
           end) (Next s) (seqZ lo (hi - lo)).

(** [l.sort(cmp)]: a stable insertion sort driven by the sign of
    [cmp x y]; [x] goes before the first [y] with [cmp x y < 0].  For a
    consistent comparator every sorting algorithm gives this result. *)
Fixpoint sort_insert (cmp : number -> number -> number) (x : number)
    (l : list number) : list number :=
  match l with
  | [] => [x]
  | y :: l' =>
      if flt (cmp x y) (Fin 0) then x :: y :: l'
      else y :: sort_insert cmp x l'
  end.

Definition Array_sort (cmp : number -> number -> number) (l : list number)
    : list number :=
  foldl (fun acc x => sort_insert cmp x acc) [] l.

(** [Uint8ClampedArray] conversion of a pixel value. *)
Definition toUint8Clamp (a : number) : Z :=
  match a with
  | NaN | NegInf => 0
  | PosInf => 255
  | Fin x => Z.max 0 (Z.min 255 (rne x U))
  end.

(** [data[i] = v] on the bytes of an [ImageData]. *)
Definition set_byte (i : Z) (v : Z) (data : list Z) : list Z :=
  if i <? 0 then data else <[Z.to_nat i := v]> data.

(** The two calibration constants of the affine normalization. *)
Definition MEAN : number := literal 50481640625 1000000.
Definition STD : number := literal 164982578125 10000000.

(** ** The [App] front end ([class ImageProcessor], [class App]) *)

Module Minimal.

Record ImageProcessor : Type := mkImageProcessor {
  rawIntensityData : option Float32Array;
  rawSurfaceData : option Float32Array;
  width : Z;
  height : Z;
  lastReconstructed : option ref;
  intensityMin : number;
  intensityMax : number;
  surfaceMin : number;
  surfaceMax : number
}.

Definition set_lastReconstructed (r : option ref) (p : ImageProcessor) :=
  mkImageProcessor (rawIntensityData p) (rawSurfaceData p) (width p) (height p)
    r (intensityMin p) (intensityMax p) (surfaceMin p) (surfaceMax p).
Definition set_intensityMin (v : number) (p : ImageProcessor) :=
  mkImageProcessor (rawIntensityData p) (rawSurfaceData p) (width p) (height p)
    (lastReconstructed p) v (intensityMax p) (surfaceMin p) (surfaceMax p).
Definition set_intensityMax (v : number) (p : ImageProcessor) :=
  mkImageProcessor (rawIntensityData p) (rawSurfaceData p) (width p) (height p)
    (lastReconstructed p) (intensityMin p) v (surfaceMin p) (surfaceMax p).
Definition set_surfaceMin (v : number) (p : ImageProcessor) :=
  mkImageProcessor (rawIntensityData p) (rawSurfaceData p) (width p) (height p)
    (lastReconstructed p) (intensityMin p) (intensityMax p) v (surfaceMax p).
Definition set_surfaceMax (v : number) (p : ImageProcessor) :=
  mkImageProcessor (rawIntensityData p) (rawSurfaceData p) (width p) (height p)
    (lastReconstructed p) (intensityMin p) (intensityMax p) (surfaceMin p) v.

(** [if (v < min) min = v; if (v > max) max = v;] for one finite sample. *)
Definition scan_intensity (iv : number) (p : ImageProcessor) : ImageProcessor :=
  if isFinite iv then
    let p := if flt iv (intensityMin p) then set_intensityMin iv p else p in
    if fgt iv (intensityMax p) then set_intensityMax iv p else p
  else p.

Definition scan_surface (sv : number) (p : ImageProcessor) : ImageProcessor :=
  if isFinite sv then
    let p := if flt sv (surfaceMin p) then set_surfaceMin sv p else p in
    if fgt sv (surfaceMax p) then set_surfaceMax sv p else p
  else p.

(** The two closing lines of [calculateNormalization]. *)
Definition widen (p : ImageProcessor) : ImageProcessor :=
  let p :=
    if feq (intensityMax p) (intensityMin p)
    then set_intensityMax (fadd (intensityMin p) (of_Z 1)) p else p in
  if feq (surfaceMax p) (surfaceMin p)
  then set_surfaceMax (fadd (surfaceMin p) (of_Z 1)) p else p.

(** [calculateNormalization()].  [None] is the [TypeError] of reading a
    buffer that is still [null]. *)
Definition calculateNormalization (p : ImageProcessor) : option ImageProcessor :=
  let p := set_intensityMin PosInf p in
  let p := set_intensityMax NegInf p in
  let p := set_surfaceMin PosInf p in
  let p := set_surfaceMax NegInf p in
  match rawIntensityData p with
  | None => None
  | Some intensity =>
      let n := Z.of_nat (length intensity) in
      match rawSurfaceData p with
      | None => if n =? 0 then Some (widen p) else None
      | Some surface =>
          let p :=
            for_range 0 n (fun i p =>
              let iv := read intensity i in
              let sv := read surface i in
              scan_surface sv (scan_intensity iv p)) p in
          Some (widen p)
      end
  end.

(** [processCrop(gridX, gridY)]; [None] is the [TypeError] of indexing a
    buffer that is [null].  The index is computed on integers: for the
    grid coordinates 0 .. 3 that [runInference] passes, every
    intermediate value of the source's double arithmetic is an integer
    below 2^53 and the two agree ([crop_index_exact]). *)
Definition processCrop (p : ImageProcessor) (gridX gridY : Z)
    : option Float32Array :=
  match rawIntensityData p with
  | None => None
  | Some intensity =>
      let cropSize := 256 in
      let result := new_Float32Array (cropSize * cropSize) in
      let startX := gridX * cropSize in
      let startY := gridY * cropSize in
      Some
        (for_range 0 cropSize (fun y result =>
           for_range 0 cropSize (fun x result =>
             let val := read intensity ((startY + y) * 1024 + startX + x) in
             write result (y * cropSize + x) (fdiv (fsub val MEAN) STD))
             result)
           result)
  end.

(** The two inner loops of [combineOutputs], placing one output. *)
Definition place_output (r : ref) (output : list number) (gridX gridY : Z)
    (h : heap) : heap :=
  let startX := gridX * 256 in
  let startY := gridY * 256 in
  for_range 0 256 (fun y h =>
    for_range 0 256 (fun x h =>
      if (startX + x <? 1024) && (startY + y <? 1024) then
        let fullIdx := (startY + y) * 1024 + startX + x in
        store r fullIdx (fadd (fmul (read output (y * 256 + x)) STD) MEAN) h
      else h)
      h)
    h.

(** [combineOutputs(outputs)] *)
Definition combineOutputs (outputs : list (list number))
    (hp : heap * ImageProcessor) : bool * (heap * ImageProcessor) :=
  let '(h, p) := hp in
  if negb (Z.of_nat (length outputs) =? 16) then (false, (h, p)) else
  let '(r, h) := alloc (new_Float32Array (width p * height p)) h in
  let p := set_lastReconstructed (Some r) p in
  let loops :=
    for_return 0 4 (fun gridY h =>
      for_return 0 4 (fun gridX h =>
        let output := default [] (outputs !! Z.to_nat (gridY * 4 + gridX)) in
        if negb (Z.of_nat (length output) =? 65536) then Return false h
        else Next (place_output r output gridX gridY h))
        h)
      h in
  match loops with
  | Return b h => (b, (h, p))
  | Next h => (true, (h, p))
  end.

(** [displayIntensity(canvas)]: the RGBA bytes put on the canvas. *)
Definition displayIntensity (p : ImageProcessor) : option (list Z) :=
  match rawIntensityData p with
  | None => None
  | Some intensity =>
      let imageData := replicate (Z.to_nat (1024 * 1024 * 4)) 0 in
      let range := fsub (intensityMax p) (intensityMin p) in
      Some
        (for_range 0 (1024 * 1024) (fun i data =>
           let val := read intensity i in
           let normalized :=
             if isFinite val
             then Math_max (Fin 0)
                    (Math_min (of_Z 1) (fdiv (fsub val (intensityMin p)) range))
             else Fin 0 in
           let gray := toUint8Clamp (Math_floor (fmul normalized (of_Z 255))) in
           let idx := i * 4 in
           set_byte (idx + 3) 255
             (set_byte idx gray (set_byte (idx + 1) gray (set_byte (idx + 2) gray data))))
           imageData)
  end.

(** The inference backend: [model.inference(tile)], [None] when the call
    throws or its promise is rejected. *)
Record Model : Type := { inference : list number -> option (list number) }.

(** The fields of [App] that the pipeline reads or writes; rendering
    objects are reduced to what the pipeline tests or sets. *)
Record App : Type := mkApp {
  imageProcessor : ImageProcessor;
  model : option Model;
  isRunning : bool;
  imageLoaded : bool;
  currentPercentile : number;
  differenceData : option ref;
  points : bool;                        (* [this.points] is set *)
  pointsMaterial : option (number * Z); (* uniforms [threshold], [hasHighlight] *)
  intensityCanvas : list Z;             (* pixels of [elements.intensityCanvas] *)
  runBtn_disabled : bool;
  progressDiv_shown : bool;
  progress : Z * Z;
  percentileControls_shown : bool
}.

Definition set_imageProcessor (p : ImageProcessor) (a : App) :=
  mkApp p (model a) (isRunning a) (imageLoaded a) (currentPercentile a)
    (differenceData a) (points a) (pointsMaterial a) (intensityCanvas a)
    (runBtn_disabled a) (progressDiv_shown a) (progress a)
    (percentileControls_shown a).
Definition set_isRunning (b : bool) (a : App) :=
  mkApp (imageProcessor a) (model a) b (imageLoaded a) (currentPercentile a)
    (differenceData a) (points a) (pointsMaterial a) (intensityCanvas a)
    (runBtn_disabled a) (progressDiv_shown a) (progress a)
    (percentileControls_shown a).
Definition set_differenceData (d : option ref) (a : App) :=
  mkApp (imageProcessor a) (model a) (isRunning a) (imageLoaded a)
    (currentPercentile a) d (points a) (pointsMaterial a) (intensityCanvas a)
    (runBtn_disabled a) (progressDiv_shown a) (progress a)
    (percentileControls_shown a).
Definition set_pointsMaterial (m : option (number * Z)) (a : App) :=
  mkApp (imageProcessor a) (model a) (isRunning a) (imageLoaded a)
    (currentPercentile a) (differenceData a) (points a) m (intensityCanvas a)
    (runBtn_disabled a) (progressDiv_shown a) (progress a)
    (percentileControls_shown a).
Definition set_intensityCanvas (c : list Z) (a : App) :=
  mkApp (imageProcessor a) (model a) (isRunning a) (imageLoaded a)
    (currentPercentile a) (differenceData a) (points a) (pointsMaterial a) c
    (runBtn_disabled a) (progressDiv_shown a) (progress a)
    (percentileControls_shown a).
Definition set_runBtn_disabled (b : bool) (a : App) :=
  mkApp (imageProcessor a) (model a) (isRunning a) (imageLoaded a)
    (currentPercentile a) (differenceData a) (points a) (pointsMaterial a)
    (intensityCanvas a) b (progressDiv_shown a) (progress a)
    (percentileControls_shown a).
Definition set_progressDiv_shown (b : bool) (a : App) :=
  mkApp (imageProcessor a) (model a) (isRunning a) (imageLoaded a)
    (currentPercentile a) (differenceData a) (points a) (pointsMaterial a)
    (intensityCanvas a) (runBtn_disabled a) b (progress a)
    (percentileControls_shown a).
Definition set_percentileControls_shown (b : bool) (a : App) :=
  mkApp (imageProcessor a) (model a) (isRunning a) (imageLoaded a)
    (currentPercentile a) (differenceData a) (points a) (pointsMaterial a)
    (intensityCanvas a) (runBtn_disabled a) (progressDiv_shown a) (progress a) b.

(** [updateProgress(current, total)] *)
Definition updateProgress (current total : Z) (a : App) : App :=
  mkApp (imageProcessor a) (model a) (isRunning a) (imageLoaded a)
    (currentPercentile a) (differenceData a) (points a) (pointsMaterial a)
    (intensityCanvas a) (runBtn_disabled a) (progressDiv_shown a)
    (current, total) (percentileControls_shown a).

(** How a call ends: normally, or with an exception that propagates. *)
Inductive completion : Type := Normal | Thrown.

(** [createDifferenceData()].  Reading [intensityData.length] throws when
    no scan is loaded; [reconstructedData[i]] throws when there is no
    reconstruction, and is only evaluated for a finite [intensityData[i]]. *)
Definition createDifferenceData (ha : heap * App) : completion * (heap * App) :=
  let '(h, a) := ha in
  let reconstructedData := lastReconstructed (imageProcessor a) in
  match rawIntensityData (imageProcessor a) with
  | None => (Thrown, (h, a))
  | Some intensityData =>
      let n := Z.of_nat (length intensityData) in
      let '(d, h) := alloc (new_Float32Array n) h in
      let a := set_differenceData (Some d) a in
      let loop :=
        for_return 0 n (fun i h =>
          if isFinite (read intensityData i) then
            match reconstructedData with
            | None => Return Thrown h
            | Some r =>
                if isFinite (read (deref h r) i) then
                  Next (store d i
                          (Math_abs (fsub (read intensityData i) (read (deref h r) i)))
                          h)
                else Next (store d i (Fin 0) h)
            end
          else Next (store d i (Fin 0) h))
          h in
      match loop with
      | Next h => (Normal, (h, a))
      | Return c h => (c, (h, a))
      end
  end.

(** The predicate of [differenceData.filter(d => isFinite(d) && d > 0)]. *)
Definition validDiff (d : number) : bool := isFinite d && fgt d (Fin 0).

(** The threshold computed by [updateHighlighting] (the four statements
    between its guard and its two calls), for the contents of
    [differenceData] and [currentPercentile]; [None] is the early
    [return] on an empty [validDiffs]. *)
Definition percentileThreshold (differenceData : Float32Array)
    (currentPercentile : number) : option number :=
  let validDiffs := List.filter validDiff differenceData in
  if Z.of_nat (length validDiffs) =? 0 then None else
  let validDiffs := Array_sort (fun a b => fsub a b) validDiffs in
  let n := of_Z (Z.of_nat (length validDiffs)) in
  let thresholdIdx := Math_floor (fmul (fdiv currentPercentile (of_Z 100)) n) in
  Some (read_at validDiffs (Math_min thresholdIdx (fsub n (of_Z 1)))).

(** [updatePointCloud(threshold)]: sets the shader uniforms (the texture
    that shares [differenceData] with the GPU is not modelled). *)
Definition updatePointCloud (threshold : number) (a : App) : App :=
  match pointsMaterial a with
  | None => a
  | Some _ => set_pointsMaterial (Some (threshold, 1)) a
  end.

(** The test of [updateIntensityOverlay] that marks pixel [i]. *)
Definition highlighted (differenceData : Float32Array) (threshold : number)
    (i : Z) : bool :=
  isFinite (read differenceData i) && fge (read differenceData i) threshold.

(** [updateIntensityOverlay(threshold)] *)
Definition updateIntensityOverlay (threshold : number) (ha : heap * App)
    : completion * (heap * App) :=
  let '(h, a) := ha in
  match displayIntensity (imageProcessor a) with
  | None => (Thrown, (h, a))
  | Some pixels =>
      let a := set_intensityCanvas pixels a in
      match differenceData a with
      | None => (Thrown, (h, a))
      | Some d =>
          let diffs := deref h d in
          let data :=
            for_range 0 (Z.of_nat (length diffs)) (fun i data =>
              if highlighted diffs threshold i then
                let idx := i * 4 in
                let data := set_byte idx (Z.min 255 (default 0 (data !! Z.to_nat idx) + 100)) data in
                let data := set_byte (idx + 1) (Z.max 0 (default 0 (data !! Z.to_nat (idx + 1)) - 50)) data in
                set_byte (idx + 2) (Z.max 0 (default 0 (data !! Z.to_nat (idx + 2)) - 50)) data
              else data)
              pixels in
          (Normal, (h, set_intensityCanvas data a))
      end
  end.

(** [updateHighlighting()] *)
Definition updateHighlighting (ha : heap * App) : completion * (heap * App) :=
  let '(h, a) := ha in
  match differenceData a with
  | None => (Normal, (h, a))
  | Some d =>
      if negb (points a) then (Normal, (h, a)) else
      match percentileThreshold (deref h d) (currentPercentile a) with
      | None => (Normal, (h, a))
      | Some threshold =>
          updateIntensityOverlay threshold (h, updatePointCloud threshold a)
      end
  end.

(** One iteration of the grid loop of [runInference].  [Return tt] is an
    exception thrown by [processCrop] or by the backend, which leaves the
    loop for the [catch] clause. *)
Definition grid_cell (m : Model) (gridY gridX : Z)
    (st : App * list (list number)) : flow (App * list (list number)) unit :=
  let '(a, outputs) := st in
  let cropIndex := gridY * 4 + gridX + 1 in
  let a := updateProgress cropIndex 16 a in
  match processCrop (imageProcessor a) gridX gridY with
  | None => Return tt (a, outputs)
  | Some cropData =>
      match inference m cropData with
      | None => Return tt (a, outputs)
      | Some output => Next (a, outputs ++ [output])
      end
  end.

(** The two nested loops of [runInference], starting with no outputs. *)
Definition grid_loop (m : Model) (a : App) : flow (App * list (list number)) unit :=
  for_return 0 4 (fun gridY st => for_return 0 4 (grid_cell m gridY) st) (a, []).


(** [!x] for an object reference. *)
Definition is_null {A : Type} (o : option A) : bool :=
  match o with None => true | Some _ => false end.

(** The three statements of [runInference] before its loop. *)
Definition run_begin (a : App) : App :=
  set_progressDiv_shown true (set_runBtn_disabled true (set_isRunning true a)).

(** [runInference()], run to completion.  Other event handlers that the
    browser may run at an [await] are not interleaved, except that a
    second [runInference] started meanwhile sees [isRunning] set.  The
    timer that hides the progress bar a second later is not modelled. *)
Definition runInference (ha : heap * App) : heap * App :=
  let '(h, a) := ha in
  if isRunning a || is_null (model a) || negb (imageLoaded a) then (h, a) else
  match model a with
  | None => (h, a)
  | Some m =>
      let a := run_begin a in
      let '(h, a) :=
        match grid_loop m a with
        | Return _ (a, _) => (h, a)
        | Next (a, outputs) =>
            let '(ok, (h, p)) := combineOutputs outputs (h, imageProcessor a) in
            let a := set_imageProcessor p a in
            if ok then
              match createDifferenceData (h, a) with
              | (Thrown, ha) => ha
              | (Normal, (h, a)) =>
                  let a := set_percentileControls_shown true a in
                  snd (updateHighlighting (h, a))
              end
            else (h, a)
        end in
      let a := set_isRunning false a in
      let a := set_runBtn_disabled false a in
      (h, a)
  end.

End Minimal.

(** ** The [ModelInferenceApp] front end

    The second copy of the pipeline: [class ImageProcessor] with its
    canvases and [class ModelInferenceApp].  Only the functions that the
    theorems compare with [Minimal] are embedded; drawing on canvases is
    left out. *)

Module Demo.

Record ImageProcessor : Type := mkImageProcessor {
  rawIntensityData : option Float32Array;
  rawSurfaceData : option Float32Array;
  width : Z;
  height : Z;
  lastReconstructed : option ref;
  intensityMin : number;
  intensityMax : number;
  surfaceMin : number;
  surfaceMax : number
}.

Definition set_lastReconstructed (r : option ref) (p : ImageProcessor) :=
  mkImageProcessor (rawIntensityData p) (rawSurfaceData p) (width p) (height p)
    r (intensityMin p) (intensityMax p) (surfaceMin p) (surfaceMax p).
Definition set_intensityMin (v : number) (p : ImageProcessor) :=
  mkImageProcessor (rawIntensityData p) (rawSurfaceData p) (width p) (height p)
    (lastReconstructed p) v (intensityMax p) (surfaceMin p) (surfaceMax p).
Definition set_intensityMax (v : number) (p : ImageProcessor) :=
  mkImageProcessor (rawIntensityData p) (rawSurfaceData p) (width p) (height p)
    (lastReconstructed p) (intensityMin p) v (surfaceMin p) (surfaceMax p).
Definition set_surfaceMin (v : number) (p : ImageProcessor) :=
  mkImageProcessor (rawIntensityData p) (rawSurfaceData p) (width p) (height p)
    (lastReconstructed p) (intensityMin p) (intensityMax p) v (surfaceMax p).
Definition set_surfaceMax (v : number) (p : ImageProcessor) :=
  mkImageProcessor (rawIntensityData p) (rawSurfaceData p) (width p) (height p)
    (lastReconstructed p) (intensityMin p) (intensityMax p) (surfaceMin p) v.

(** The test [!isNaN(v) && isFinite(v)] used throughout this copy. *)
Definition usable (v : number) : bool := negb (isNaN v) && isFinite v.

(** [calculateNormalizationParams()] *)
Definition calculateNormalizationParams (p : ImageProcessor)
    : option ImageProcessor :=
  match rawIntensityData p with
  | None => None
  | Some intensity =>
      let p := set_intensityMin PosInf p in
      let p := set_intensityMax NegInf p in
      let p :=
        for_range 0 (Z.of_nat (length intensity)) (fun i p =>
          if usable (read intensity i) then
            let p := if flt (read intensity i) (intensityMin p)
                     then set_intensityMin (read intensity i) p else p in
            if fgt (read intensity i) (intensityMax p)
            then set_intensityMax (read intensity i) p else p
          else p) p in
      let p := set_surfaceMin PosInf p in
      let p := set_surfaceMax NegInf p in
      match rawSurfaceData p with
      | None => None
      | Some surface =>
          let p :=
            for_range 0 (Z.of_nat (length surface)) (fun i p =>
              if usable (read surface i) then
                let p := if flt (read surface i) (surfaceMin p)
                         then set_surfaceMin (read surface i) p else p in
                if fgt (read surface i) (surfaceMax p)
                then set_surfaceMax (read surface i) p else p
              else p) p in
          let p :=
            if feq (intensityMax p) (intensityMin p)
            then set_intensityMax (fadd (intensityMin p) (of_Z 1)) p else p in
          Some
            (if feq (surfaceMax p) (surfaceMin p)
             then set_surfaceMax (fadd (surfaceMin p) (of_Z 1)) p else p)
      end
  end.

(** [processCrop(gridX, gridY)]; [None] is the [Error] thrown without
    intensity data.  The index is computed on integers, as in
    [Minimal.processCrop]: exact for the grid coordinates 0 .. 3. *)
Definition processCrop (p : ImageProcessor) (gridX gridY : Z)
    : option Float32Array :=
  match rawIntensityData p with
  | None => None
  | Some intensity =>
      let cropSize := 256 in
      let result := new_Float32Array (cropSize * cropSize) in
      let startX := gridX * cropSize in
      let startY := gridY * cropSize in
      Some
        (for_range 0 cropSize (fun y result =>
           for_range 0 cropSize (fun x result =>
             let origX := startX + x in
             let origY := startY + y in
             let origIndex := origY * 1024 + origX in
             let val := read intensity origIndex in
             let normalized := if usable val then val else Fin 0 in
             write result (y * cropSize + x) (fdiv (fsub normalized MEAN) STD))
             result)
           result)
  end.

(** What [combineOutputs] leaves in [infoDiv]. *)
Inductive info : Type :=
| WrongCount (got : Z)      (* Error: Expected 16 outputs, got ... *)
| WrongLength (got : Z)     (* Error: Expected 65536 values per output, got ... *)
| Processed (min max : number).

Definition place_output (r : ref) (output : list number) (gridX gridY : Z)
    (h : heap) : heap :=
  let startX := gridX * 256 in
  let startY := gridY * 256 in
  for_range 0 256 (fun cropY h =>
    for_range 0 256 (fun cropX h =>
      let fullX := startX + cropX in
      let fullY := startY + cropY in
      if (fullX <? 1024) && (fullY <? 1024) then
        let fullIndex := fullY * 1024 + fullX in
        let cropOutputIndex := cropY * 256 + cropX in
        let cc := fadd (fmul (read output cropOutputIndex) STD) MEAN in
        store r fullIndex cc h
      else h)
      h)
    h.

(** [combineOutputs(outputs, infoDiv)], without the drawing of the
    result; the third component is the text left in [infoDiv].  For an
    empty reconstruction ([width * height = 0]) the source throws at
    [min.toFixed] on [undefined]; that path is not modelled. *)
Definition combineOutputs (outputs : list (list number))
    (hp : heap * ImageProcessor) : bool * (heap * ImageProcessor) * info :=
  let '(h, p) := hp in
  if negb (Z.of_nat (length outputs) =? 16)
  then (false, (h, p), WrongCount (Z.of_nat (length outputs))) else
  let '(r, h) := alloc (new_Float32Array (width p * height p)) h in
  let p := set_lastReconstructed (Some r) p in
  let loops :=
    for_return 0 4 (fun gridY h =>
      for_return 0 4 (fun gridX h =>
        let cropIndex := gridY * 4 + gridX in
        let output := default [] (outputs !! Z.to_nat cropIndex) in
        if negb (Z.of_nat (length output) =? 65536)
        then Return (WrongLength (Z.of_nat (length output))) h
        else Next (place_output r output gridX gridY h))
        h)
      h in
  match loops with
  | Return msg h => (false, (h, p), msg)
  | Next h =>
      let recon := deref h r in
      let '(min, max) :=
        for_range 0 (Z.of_nat (length recon)) (fun i '(min, max) =>
          let min := if flt (read recon i) min then read recon i else min in
          let max := if fgt (read recon i) max then read recon i else max in
          (min, max)) (read recon 0, read recon 0) in
      (true, (h, p), Processed min max)
  end.

(** The threshold computed by [updatePercentileHighlighting]. *)
Definition percentileThreshold (differenceData : Float32Array)
    (currentPercentile : number) : option number :=
  let validDifferences := List.filter usable differenceData in
  if Z.of_nat (length validDifferences) =? 0 then None else
  let validDifferences := Array_sort (fun a b => fsub a b) validDifferences in
  let n := of_Z (Z.of_nat (length validDifferences)) in
  let thresholdIndex := Math_floor (fmul (fdiv currentPercentile (of_Z 100)) n) in
  Some (read_at validDifferences (Math_min thresholdIndex (fsub n (of_Z 1)))).

(** What [createDifferenceImage] reports in [diffInfo] when it gives up. *)
Inductive diff_error : Type := MissingData | SizeMismatch | NoValidDifferences.

(** [createDifferenceImage()], without the drawing of the image: the new
    heap and the reference stored in [differenceData], if any, and the
    error reported. *)
Definition createDifferenceImage (h : heap) (p : ImageProcessor)
    : heap * option ref * option diff_error :=
  match rawIntensityData p, lastReconstructed p with
  | Some intensityData, Some r =>
      if negb (Z.of_nat (length intensityData) =? Z.of_nat (length (deref h r)))
      then (h, None, Some SizeMismatch) else
      let n := Z.of_nat (length intensityData) in
      let '(d, h) := alloc (new_Float32Array n) h in
      let '(h, validDifferences) :=
        for_range 0 n (fun i '(h, validDifferences) =>
          if usable (read intensityData i) && usable (read (deref h r) i) then
            (store d i (Math_abs (fsub (read intensityData i) (read (deref h r) i))) h,
             validDifferences + 1)
          else (store d i (Fin 0) h, validDifferences))
          (h, 0) in
      if validDifferences =? 0 then (h, Some d, Some NoValidDifferences)
      else (h, Some d, None)
  | _, _ => (h, None, Some MissingData)
  end.

End Demo.

(** ** Further parts of the front ends *)

Module Gallery.

(** [generateThumbnail(processor)]: the bytes of the 128 x 128 image that
    is drawn; their encoding as a data URL is not modelled.  [None] is the
    [TypeError] of indexing a buffer that is [null]. *)
Definition generateThumbnail (processor : Minimal.ImageProcessor) : option (list Z) :=
  match Minimal.rawIntensityData processor with
  | None => None
  | Some intensityData =>
      let size := 128 in
      let width := of_Z (Minimal.width processor) in
      let height := of_Z (Minimal.height processor) in
      let range :=
        fsub (Minimal.intensityMax processor) (Minimal.intensityMin processor) in
      let imageData := replicate (Z.to_nat (size * size * 4)) 0 in
      Some
        (for_range 0 size (fun y data =>
           for_range 0 size (fun x data =>
             let srcX := Math_floor (fmul (fdiv (of_Z x) (of_Z size)) width) in
             let srcY := Math_floor (fmul (fdiv (of_Z y) (of_Z size)) height) in
             let srcIdx := fadd (fmul srcY width) srcX in
             let val := read_at intensityData srcIdx in
             let normalized :=
               if isFinite val
               then Math_max (Fin 0)
                      (Math_min (of_Z 1)
                         (fdiv (fsub val (Minimal.intensityMin processor)) range))
               else Fin 0 in
             let gray := toUint8Clamp (Math_floor (fmul normalized (of_Z 255))) in
             let idx := (y * size + x) * 4 in
             set_byte (idx + 3) 255
               (set_byte idx gray (set_byte (idx + 1) gray (set_byte (idx + 2) gray data))))
             data)
           imageData)
  end.

End Gallery.

(** ** The point cloud of the [ModelInferenceApp] front end *)
Module Cloud.

(** The fields of [ModelInferenceApp] that the point cloud reads or
    writes.  [points] holds the two attribute arrays of
    [this.points.geometry], [position] and [color]. *)
Record App : Type := mkApp {
  imageProcessor : Demo.ImageProcessor;
  points : option (Float32Array * Float32Array);
  differenceData : option Float32Array;
  diffMin : option number;
  diffMax : option number
}.

Definition set_points (v : option (Float32Array * Float32Array)) (a : App) :=
  mkApp (imageProcessor a) v (differenceData a) (diffMin a) (diffMax a).

Definition set_diffMin (v : option number) (a : App) :=
  mkApp (imageProcessor a) (points a) (differenceData a) v (diffMax a).

Definition set_diffMax (v : option number) (a : App) :=
  mkApp (imageProcessor a) (points a) (differenceData a) (diffMin a) v.

(** [!x] for a field that holds [null] or a number. *)
Definition falsy (x : option number) : bool :=
  match x with
  | None => true
  | Some NaN => true
  | Some (Fin k) => k =? 0
  | Some _ => false
  end.

(** [new Float32Array(array)] and [new THREE.Float32BufferAttribute(array, 3)] *)
Definition Float32Array_from (l : list number) : Float32Array := map fround l.

(** [createSurfaceVisualization()] *)
Definition createSurfaceVisualization (a : App) : App :=
  let a := match points a with Some _ => set_points None a | None => a end in
  let width := Demo.width (imageProcessor a) in
  let height := Demo.height (imageProcessor a) in
  match Demo.rawSurfaceData (imageProcessor a) with
  | None => a
  | Some surfaceBuffer =>
      let surfaceMin := Demo.surfaceMin (imageProcessor a) in
      let surfaceMax := Demo.surfaceMax (imageProcessor a) in
      let surfaceRange := fsub surfaceMax surfaceMin in
      if fle surfaceRange (Fin 0) then a else
      let '(positions, colors) :=
        for_range 0 height (fun y acc =>
          for_range 0 width (fun x '(positions, colors) =>
            let i := y * width + x in
            let z := read surfaceBuffer i in
            if Demo.usable z then
              let scaledX := fmul (fsub (of_Z x) (fdiv (of_Z width) (of_Z 2))) (literal 1 10) in
              let scaledY := fmul (fsub (of_Z y) (fdiv (of_Z height) (of_Z 2))) (literal 1 10) in
              let scaledZ := fmul (fdiv (fsub z surfaceMin) surfaceRange) (of_Z 20) in
              (positions ++ [scaledX; scaledZ; scaledY],
               colors ++ [literal 1 2; literal 1 2; literal 1 2])
            else (positions, colors))
            acc)
          ([], []) in
      if Z.of_nat (length positions) =? 0 then a else
      set_points (Some (Float32Array_from positions, Float32Array_from colors)) a
  end.

(** [updatePointCloudHighlighting(threshold)]; [None] is the [TypeError]
    of indexing a surface buffer that is [null].  The local [diffRange]
    is computed and never used. *)
Definition updatePointCloudHighlighting (threshold : number) (a : App) : option App :=
  match points a, differenceData a with
  | Some (positionArray, colorArray0), Some differenceData =>
      let a :=
        if falsy (diffMin a) || falsy (diffMax a) then
          let a := set_diffMax (Some NegInf) (set_diffMin (Some PosInf) a) in
          for_range 0 (Z.of_nat (length differenceData)) (fun i a =>
            let d := read differenceData i in
            if Demo.usable d then
              let a := if flt d (default NaN (diffMin a))
                       then set_diffMin (Some d) a else a in
              if fgt d (default NaN (diffMax a)) then set_diffMax (Some d) a else a
            else a) a
        else a in
      let width := Demo.width (imageProcessor a) in
      let height := Demo.height (imageProcessor a) in
      match Demo.rawSurfaceData (imageProcessor a) with
      | None => if (0 <? height) && (0 <? width) then None else Some a
      | Some surfaceBuffer =>
          let colors :=
            for_range 0 height (fun y colors =>
              for_range 0 width (fun x colors =>
                let diffIndex := y * width + x in
                let diff := read differenceData diffIndex in
                let z := read surfaceBuffer diffIndex in
                if Demo.usable z then
                  if fge diff threshold
                  then colors ++ [of_Z 1; of_Z 0; of_Z 0]
                  else colors ++ [literal 1 2; literal 1 2; literal 1 2]
                else colors)
                colors)
              [] in
          if 0 <? Z.of_nat (length colors) then
            let colorArray := Float32Array_from colors in
            if Z.of_nat (length colorArray) =? Z.of_nat (length colorArray0)
            then Some (set_points (Some (positionArray, colorArray)) a)
            else Some a
          else Some a
      end
  | _, _ => Some a
  end.

End Cloud.

(** ** The canvases of the [ModelInferenceApp] front end *)
Module Canvas.

(** [displayDataOnCanvas(data, canvas, type)]: the bytes put on the
    canvas; [surface] is the outcome of [type === 'surface'].  [None] is
    the [TypeError] of indexing [data] when it is [null]. *)
Definition displayDataOnCanvas (p : Demo.ImageProcessor)
    (data : option Float32Array) (surface : bool) : option (list Z) :=
  match data with
  | None => None
  | Some data =>
      let imageData := replicate (Z.to_nat (1024 * 1024 * 4)) 0 in
      let min := if surface then Demo.surfaceMin p else Demo.intensityMin p in
      let max := if surface then Demo.surfaceMax p else Demo.intensityMax p in
      let range := fsub max min in
      Some
        (for_range 0 1024 (fun y image =>
           for_range 0 1024 (fun x image =>
             let val := read data (y * 1024 + x) in
             let normalized :=
               if Demo.usable val
               then Math_max (Fin 0) (Math_min (of_Z 1) (fdiv (fsub val min) range))
               else Fin 0 in
             let gray := toUint8Clamp (Math_floor (fmul normalized (of_Z 255))) in
             let idx := (y * 1024 + x) * 4 in
             set_byte (idx + 3) 255
               (set_byte (idx + 2) gray (set_byte (idx + 1) gray (set_byte idx gray image))))
             image)
           imageData)
  end.

(** What [displayDifferenceImage] does to the difference canvas. *)
Inductive difference_image : Type :=
| Untouched                         (* no difference data: returns at once *)
| NoValidData                       (* Error: No valid difference data *)
| Drawn (image : list Z) (min max : number).

(** [a || b] for two numbers. *)
Definition or_else (a b : number) : number :=
  match a with
  | NaN => b
  | Fin k => if k =? 0 then b else a
  | _ => a
  end.

(** [displayDifferenceImage()] *)
Definition displayDifferenceImage (differenceData : option Float32Array)
    : difference_image :=
  match differenceData with
  | None => Untouched
  | Some differenceData =>
      let imageData := replicate (Z.to_nat (1024 * 1024 * 4)) 0 in
      let '(min, max) :=
        for_range 0 (Z.of_nat (length differenceData)) (fun i '(min, max) =>
          if Demo.usable (read differenceData i) then
            let min := if flt (read differenceData i) min
                       then read differenceData i else min in
            let max := if fgt (read differenceData i) max
                       then read differenceData i else max in
            (min, max)
          else (min, max)) (PosInf, NegInf) in
      if feq min PosInf || feq max NegInf then NoValidData else
      let range := or_else (fsub max min) (of_Z 1) in
      Drawn
        (for_range 0 1024 (fun y image =>
           for_range 0 1024 (fun x image =>
             let origIndex := y * 1024 + x in
             let normalized :=
               if origIndex <? Z.of_nat (length differenceData) then
                 let val := read differenceData origIndex in
                 if Demo.usable val then fdiv (fsub val min) range else Fin 0
               else Fin 0 in
             let intensity := toUint8Clamp (Math_floor (fmul normalized (of_Z 255))) in
             let idx := (y * 1024 + x) * 4 in
             set_byte (idx + 3) 255
               (set_byte (idx + 2) 0 (set_byte (idx + 1) 0 (set_byte idx intensity image))))
             image)
           imageData)
        min max
  end.

End Canvas.

(** ** Choosing the two datasets of a file *)
Module Datasets.

(** [c.toLowerCase()] for one character: names are taken to be ASCII. *)
Definition lower (c : Ascii.ascii) : Ascii.ascii :=
  let n := Ascii.nat_of_ascii c in
  if (65 <=? n)%nat && (n <=? 90)%nat then Ascii.ascii_of_nat (n + 32) else c.

(** [s.toLowerCase()] *)
Fixpoint toLowerCase (s : string) : string :=
  match s with
  | EmptyString => EmptyString
  | String c s => String (lower c) (toLowerCase s)
  end.

(** [s.includes(needle)] *)
Fixpoint includes (s needle : string) : bool :=
  String.prefix needle s ||
  match s with
  | EmptyString => false
  | String _ s' => includes s' needle
  end.

(** An entry of [allDatasets]. *)
Record Dataset : Type := mkDataset {
  data : Float32Array;
  width : Z;
  height : Z;
  name : string;
  fullPath : string
}.

(** The end of [loadDATXFile], from the search for the two datasets on;
    [entries] is [Object.entries(this.allDatasets)].  [None] is the
    [Error] thrown when there are not enough datasets ([loadDATXFile]
    then returns [false]) or the [TypeError] of the normalization. *)
Definition load_selected (entries : list (string * Dataset))
    (p : Minimal.ImageProcessor) : option Minimal.ImageProcessor :=
  let '(surface, intensity) :=
    foldl (fun '(surface, intensity) '(path, dataset) =>
             let surface :=
               if includes (toLowerCase path) "surface" then Some dataset else surface in
             let intensity :=
               if includes (toLowerCase path) "intensity" then Some dataset else intensity in
             (surface, intensity))
      (None, None) entries in
  let chosen :=
    match surface, intensity with
    | Some surface, Some intensity => Some (surface, intensity)
    | _, _ =>
        let datasets := map snd entries in
        if (2 <=? length datasets)%nat then
          match datasets with
          | d0 :: d1 :: _ => Some (d0, d1)
          | _ => None
          end
        else None
    end in
  match chosen with
  | None => None
  | Some (surface, intensity) =>
      Minimal.calculateNormalization
        (Minimal.mkImageProcessor (Some (data intensity)) (Some (data surface))
           (width surface) (height surface) (Minimal.lastReconstructed p)
           (Minimal.intensityMin p) (Minimal.intensityMax p)
           (Minimal.surfaceMin p) (Minimal.surfaceMax p))
  end.

End Datasets.

(** ** Vocabulary of the theorems

    Definitions used to state the properties: none of them is part of the
    program. *)

Module M := Minimal.
Module D := Demo.

(** [a <= b] as a proposition. *)
Definition leN (a b : number) : Prop := fle a b = true.

(** [Math.floor((p / 100) * n)], the local [thresholdIdx] of
    [updateHighlighting]. *)
Definition thresholdIdx (p : number) (n : Z) : number :=
  Math_floor (fmul (fdiv p (of_Z 100)) (of_Z n)).

(** The cell of the grid that owns pixel [i], and its position in the
    order in which [combineOutputs] writes. *)
Definition cell_gridY (i : Z) : Z := i / 262144.
Definition cell_gridX (i : Z) : Z := (i mod 1024) / 256.
Definition cell_y (i : Z) : Z := (i / 1024) mod 256.
Definition cell_x (i : Z) : Z := i mod 256.
Definition rank (i : Z) : Z :=
  ((cell_gridY i * 4 + cell_gridX i) * 256 + cell_y i) * 256 + cell_x i.

(** The index expression shared by [processCrop] and [combineOutputs]:
    [(startY + y) * 1024 + startX + x] with [startX = gridX * 256] and
    [startY = gridY * 256]. *)
Definition fullIdx (gridX gridY x y : Z) : Z :=
  (gridY * 256 + y) * 1024 + gridX * 256 + x.

(** The ranges of the four loop counters. *)
Definition in_grid (gridX gridY x y : Z) : Prop :=
  0 <= gridX < 4 /\ 0 <= gridY < 4 /\ 0 <= x < 256 /\ 0 <= y < 256.

(** The two affine transforms, in double arithmetic. *)
Definition normalize (v : number) : number := fdiv (fsub v MEAN) STD.
Definition denormalize (v : number) : number := fadd (fmul v STD) MEAN.

(** The value [combineOutputs] stores at pixel [i]. *)
Definition recon_cell (outputs : list (list number)) (i : Z) : number :=
  let output := default [] (outputs !! Z.to_nat (cell_gridY i * 4 + cell_gridX i)) in
  fround (denormalize (read output (cell_y i * 256 + cell_x i))).

(** The buffer after the first [t] stores of [combineOutputs]. *)
Definition written (outputs : list (list number)) (t : Z) (b : Float32Array) : Prop :=
  forall i, 0 <= i -> (Z.to_nat i < length b)%nat ->
    b !! Z.to_nat i =
    Some (if (i <? 1048576) && (rank i <? t) then recon_cell outputs i else Fin 0).

(** What [Demo.processCrop] feeds to the affine transform. *)
Definition replace_nonfinite (v : number) : number :=
  if D.usable v then v else Fin 0.

(** The entry of the difference buffer for the samples [ai] and [bi]. *)
Definition difference_at (ai bi : number) : number :=
  if isFinite ai && isFinite bi then fround (Math_abs (fsub ai bi)) else Fin 0.

(** The finite entries of a buffer, in order. *)
Definition finite_entries (buf : list number) : list number := List.filter isFinite buf.

(** [mn] and [mx] are the least and the greatest finite entry of [buf],
    or the two sentinels when it has none. *)
Definition scanned (buf : list number) (mn mx : number) : Prop :=
  match finite_entries buf with
  | [] => mn = PosInf /\ mx = NegInf
  | _ => mn ∈ finite_entries buf /\ mx ∈ finite_entries buf /\
         Forall (fun v => fle mn v = true /\ fle v mx = true) (finite_entries buf)
  end.

(** One sample's effect on a running (min, max) pair. *)
Definition scan_step (v : number) (r : number * number) : number * number :=
  if isFinite v then
    (if flt v (fst r) then v else fst r, if fgt v (snd r) then v else snd r)
  else r.

(** [if (max === min) max = min + 1] *)
Definition widen_max (mn mx : number) : number :=
  if feq mx mn then fadd mn (of_Z 1) else mx.

(** The fields that hold the scan and the reconstruction. *)
Definition same_scan (p q : M.ImageProcessor) : Prop :=
  M.rawIntensityData q = M.rawIntensityData p /\
  M.rawSurfaceData q = M.rawSurfaceData p /\
  M.width q = M.width p /\ M.height q = M.height p /\
  M.lastReconstructed q = M.lastReconstructed p.

Definition Demo_same_scan (p q : D.ImageProcessor) : Prop :=
  D.rawIntensityData q = D.rawIntensityData p /\
  D.rawSurfaceData q = D.rawSurfaceData p /\
  D.width q = D.width p /\ D.height q = D.height p /\
  D.lastReconstructed q = D.lastReconstructed p.

(** The identity backend: [infer(t) = t]. *)
Definition identity_model : M.Model := {| M.inference := fun tile => Some tile |}.

(** A sample after extraction into a tile and reassembly: the affine
    transform and its inverse in double arithmetic, each result stored
    as float32. *)
Definition roundtrip (v : number) : number :=
  fround (denormalize (fround (normalize v))).

(** The order statistic both front ends take from the filtered values. *)
Definition percentile_pick (valid : list number) (p : number) : option number :=
  if Z.of_nat (length valid) =? 0 then None else
  let sorted := Array_sort (fun a b => fsub a b) valid in
  let n := of_Z (Z.of_nat (length sorted)) in
  Some (read_at sorted (Math_min (Math_floor (fmul (fdiv p (of_Z 100)) n)) (fsub n (of_Z 1)))).

(** [t] is the nearest-rank order statistic of [valid] at percentile
    [p]: the element at index [min (I, n - 1)] of the ascending
    arrangement, [I] being [Math.floor((p / 100) * n)] in double
    arithmetic. *)
Definition nearest_rank (valid : list number) (p : number) (t : number) : Prop :=
  exists sorted I,
    sorted ≡ₚ valid /\ StronglySorted leN sorted /\
    thresholdIdx p (Z.of_nat (length valid)) = Fin (I * U) /\
    0 <= I <= Z.of_nat (length valid) /\
    sorted !! Z.to_nat (Z.min I (Z.of_nat (length valid) - 1)) = Some t.

(** [mn], [mx] is the range the normalization calculation returns for
    [buf]: the sentinels when [buf] has no finite entry; otherwise [mn] is
    its least finite entry and [mx] its greatest one, replaced by
    [mn + 1] when the two are equal, which differs from [mn] as long as
    [|mn| < 2^53]. *)
Definition normalization_range (buf : list number) (mn mx : number) : Prop :=
  (finite_entries buf = [] -> mn = PosInf /\ mx = NegInf) /\
  (finite_entries buf <> [] ->
     exists greatest,
       mn ∈ finite_entries buf /\ greatest ∈ finite_entries buf /\
       Forall (fun v => fle mn v = true /\ fle v greatest = true) (finite_entries buf) /\
       mx = (if feq greatest mn then fadd mn (of_Z 1) else greatest) /\
       forall k, mn = Fin k -> - (2 ^ 53 * U) < k < 2 ^ 53 * U -> feq mx mn = false).

(** A processor as its constructor leaves it, with the given scan. *)
Definition loaded_processor (intensity surface : list number) (w h : Z)
    (last : option nat) : M.ImageProcessor :=
  M.mkImageProcessor (Some intensity) (Some surface) w h last
    (Fin 0) (of_Z 1) (Fin 0) (of_Z 1).

Definition Demo_loaded_processor (intensity surface : list number) (w h : Z)
    (last : option nat) : D.ImageProcessor :=
  D.mkImageProcessor (Some intensity) (Some surface) w h last
    (Fin 0) (of_Z 1) (Fin 0) (of_Z 1).

(** An application around a processor, with a model, idle or running. *)
Definition sample_app (p : M.ImageProcessor) (running : bool) : M.App :=
  M.mkApp p (Some identity_model) running true (of_Z 95) None false None []
    false false (0, 0) false.

(** A 1024 x 1024 buffer holding [v] everywhere. *)
Definition constant_scan (v : number) : list number :=
  replicate (Z.to_nat 1048576) v.

(** The failing input of the shape check: a previous reconstruction is
    held, and the first of the 16 outputs is one element short. *)
Definition previous_heap : list (list number) := [constant_scan (of_Z 50000)].
Definition processor_with_reconstruction : M.ImageProcessor :=
  loaded_processor (constant_scan (of_Z 50000)) (constant_scan (Fin 0)) 1024 1024 (Some 0%nat).
Definition short_first_output : list (list number) :=
  replicate (Z.to_nat 65535) (Fin 0) :: replicate 15 (replicate (Z.to_nat 65536) (Fin 0)).

(** A loaded scan without a reconstruction. *)
Definition scan_50000 : M.ImageProcessor :=
  loaded_processor (constant_scan (of_Z 50000)) (constant_scan (Fin 0)) 1024 1024 None.

(** ** Vocabulary of the further properties *)

(** The grey level [displayIntensity] gives a sample [v] for the range
    from [mn] to [mx]. *)
Definition gray_level (mn mx v : number) : Z :=
  let normalized :=
    if isFinite v
    then Math_max (Fin 0) (Math_min (of_Z 1) (fdiv (fsub v mn) (fsub mx mn)))
    else Fin 0 in
  toUint8Clamp (Math_floor (fmul normalized (of_Z 255))).

(** The four bytes of pixel [i] in the data of an image. *)
Definition pixel (data : list Z) (i : Z) : option (Z * Z * Z * Z) :=
  match data !! Z.to_nat (4 * i), data !! Z.to_nat (4 * i + 1),
        data !! Z.to_nat (4 * i + 2), data !! Z.to_nat (4 * i + 3) with
  | Some r, Some g, Some b, Some a => Some (r, g, b, a)
  | _, _, _, _ => None
  end.

(** The grey level of the ratio [q = (v - min) / range]. *)
Definition gray_of_ratio (q : number) : Z :=
  toUint8Clamp (Math_floor (fmul (Math_max (Fin 0) (Math_min (of_Z 1) q)) (of_Z 255))).

(** The scan and its normalization range: every field of the processor
    but [lastReconstructed]. *)
Definition same_data (p q : M.ImageProcessor) : Prop :=
  M.rawIntensityData q = M.rawIntensityData p /\
  M.rawSurfaceData q = M.rawSurfaceData p /\
  M.width q = M.width p /\ M.height q = M.height p /\
  M.intensityMin q = M.intensityMin p /\ M.intensityMax q = M.intensityMax p /\
  M.surfaceMin q = M.surfaceMin p /\ M.surfaceMax q = M.surfaceMax p.

(** What the grid loop of [runInference] leaves after [t] cells: the
    outputs of the cells so far, or the first cell that failed. *)
Definition grid_state (m : M.Model) (a : M.App) (t : Z)
    (fl : flow (M.App * list (list number)) unit) : Prop :=
  match fl with
  | Next (a', outputs) =>
      a' = (if t =? 0 then a else M.updateProgress t 16 a) /\
      Z.of_nat (length outputs) = t /\
      forall gridX gridY, 0 <= gridX < 4 -> 0 <= gridY -> gridY * 4 + gridX < t ->
        exists tile out,
          M.processCrop (M.imageProcessor a) gridX gridY = Some tile /\
          M.inference m tile = Some out /\
          outputs !! Z.to_nat (gridY * 4 + gridX) = Some out
  | Return _ (a', outputs) =>
      exists gridX gridY,
        0 <= gridX < 4 /\ 0 <= gridY /\ gridY * 4 + gridX < t /\
        a' = M.updateProgress (gridY * 4 + gridX + 1) 16 a /\
        (M.processCrop (M.imageProcessor a) gridX gridY = None \/
         exists tile, M.processCrop (M.imageProcessor a) gridX gridY = Some tile /\
                      M.inference m tile = None) /\
        forall gx gy, 0 <= gx < 4 -> 0 <= gy -> gy * 4 + gx < gridY * 4 + gridX ->
          exists tile out,
            M.processCrop (M.imageProcessor a) gx gy = Some tile /\
            M.inference m tile = Some out
  end.

(** The fields of the application other than the two that hold what is
    drawn: the shader uniforms and the pixels of the intensity canvas. *)
Definition same_but_display (a a' : M.App) : Prop :=
  M.imageProcessor a' = M.imageProcessor a /\ M.model a' = M.model a /\
  M.isRunning a' = M.isRunning a /\ M.imageLoaded a' = M.imageLoaded a /\
  M.currentPercentile a' = M.currentPercentile a /\
  M.differenceData a' = M.differenceData a /\ M.points a' = M.points a /\
  M.runBtn_disabled a' = M.runBtn_disabled a /\
  M.progressDiv_shown a' = M.progressDiv_shown a /\
  M.progress a' = M.progress a /\
  M.percentileControls_shown a' = M.percentileControls_shown a.

Module G := Gallery.

(** The flat indices of the samples that become points: those of the
    [width x height] window that hold a finite value, in scan order. *)
Definition plotted (surface : list number) (width height : Z) : list Z :=
  List.filter (fun i => D.usable (read surface i)) (seqZ 0 (height * width)).

(** The point drawn for the sample at flat index [i]. *)
Definition point_at (p : D.ImageProcessor) (surface : list number) (i : Z) : list number :=
  let x := i mod D.width p in
  let y := i / D.width p in
  [fmul (fsub (of_Z x) (fdiv (of_Z (D.width p)) (of_Z 2))) (literal 1 10);
   fmul (fdiv (fsub (read surface i) (D.surfaceMin p))
           (fsub (D.surfaceMax p) (D.surfaceMin p))) (of_Z 20);
   fmul (fsub (of_Z y) (fdiv (of_Z (D.height p)) (of_Z 2))) (literal 1 10)].

(** The colour [updatePointCloudHighlighting] gives the sample at [i]. *)
Definition color_at (diffs : list number) (threshold : number) (i : Z) : list number :=
  if fge (read diffs i) threshold then [of_Z 1; of_Z 0; of_Z 0]
  else [literal 1 2; literal 1 2; literal 1 2].

Module C := Cloud.

Module V := Canvas.

(** The red level [displayDifferenceImage] gives the difference [v]. *)
Definition red_level (mn mx v : number) : Z :=
  toUint8Clamp
    (Math_floor
       (fmul (if D.usable v then fdiv (fsub v mn) (V.or_else (fsub mx mn) (of_Z 1)) else Fin 0)
          (of_Z 255))).

Module DS := Datasets.

(** The last dataset whose path contains [needle], case-insensitively. *)
Definition last_named (needle : string) (entries : list (string * DS.Dataset))
    : option DS.Dataset :=
  snd <$> last (List.filter (fun e => DS.includes (DS.toLowerCase (fst e)) needle) entries).

(** The processor on which [loadDATXFile] runs [calculateNormalization]
    once it has chosen [surface] and [intensity]. *)
Definition with_datasets (surface intensity : DS.Dataset) (p : M.ImageProcessor)
    : M.ImageProcessor :=
  M.mkImageProcessor (Some (DS.data intensity)) (Some (DS.data surface))
    (DS.width surface) (DS.height surface) (M.lastReconstructed p)
    (M.intensityMin p) (M.intensityMax p) (M.surfaceMin p) (M.surfaceMax p).

(** The index expression of [processCrop] as the source evaluates it, in
    double arithmetic. *)
Definition crop_index (gridX gridY x y : Z) : number :=
  let startX := fmul (of_Z gridX) (of_Z 256) in
  let startY := fmul (of_Z gridY) (of_Z 256) in
  fadd (fadd (fmul (fadd startY (of_Z y)) (of_Z 1024)) startX) (of_Z x).

(** An application that holds the differences [0, 5, 2] of a small scan
    and a point cloud, at the percentile 95. *)
Definition highlighting_app : M.App :=
  M.mkApp
    (M.mkImageProcessor (Some [Fin (2 * U); NaN; Fin (10 * U); Fin 0])
       (Some [Fin 0; Fin U; NaN; Fin (2 * U)]) 2 2 None
       (Fin 0) (Fin (10 * U)) (Fin 0) (Fin (2 * U)))
    (Some identity_model) false true (Fin (95 * U)) (Some 0%nat) true None []
    false false (0, 0) true.

(** A backend whose every call throws. *)
Definition failing_model : M.Model := {| M.inference := fun _ => None |}.

(** A small scan: two samples and a gap, with the range 0 .. 10. *)
Definition small_scan : M.ImageProcessor :=
  M.mkImageProcessor (Some [Fin (2 * U); NaN; Fin (10 * U); Fin 0])
    (Some [Fin 0; Fin U; NaN; Fin (2 * U)]) 2 2 None
    (Fin 0) (Fin (10 * U)) (Fin 0) (Fin (2 * U)).

Definition Demo_small_scan : D.ImageProcessor :=
  D.mkImageProcessor (Some [Fin (2 * U); NaN; Fin (10 * U); Fin 0])
    (Some [Fin 0; Fin U; NaN; Fin (2 * U)]) 2 2 None
    (Fin 0) (Fin (10 * U)) (Fin 0) (Fin (2 * U)).

(** The point-cloud state around [Demo_small_scan], with differences. *)
Definition small_cloud : C.App :=
  C.mkApp Demo_small_scan None (Some [Fin (3 * U); Fin 0; Fin 0; Fin U]) None None.

(** Two files: one names its datasets, one holds an intensity image and
    an unnamed second image. *)
Definition named_entries : list (string * DS.Dataset) :=
  [("Measurement/Surface", DS.mkDataset [Fin 0; Fin U] 2 1 "Surface" "Measurement/Surface");
   ("Measurement/INTENSITY", DS.mkDataset [Fin (5 * U); NaN] 2 1 "INTENSITY" "Measurement/INTENSITY")].

Definition half_named_entries : list (string * DS.Dataset) :=
  [("Data/Intensity", DS.mkDataset [Fin (5 * U); NaN] 2 1 "Intensity" "Data/Intensity");
   ("Data/Height", DS.mkDataset [Fin 0; Fin U] 2 1 "Height" "Data/Height")].

(** * Properties *)

(** ** The arithmetic

    On the sample operand pairs the four operations and the comparisons
    give what the Standard Library's specification of binary64 gives. *)

Example arithmetic_agrees_with_SpecFloat :
  agrees fadd (SFadd 53 1024) && agrees fsub (SFsub 53 1024) &&
  agrees fmul (SFmul 53 1024) && agrees fdiv (SFdiv 53 1024) &&
  agrees_test flt SFltb && agrees_test fle SFleb && agrees_test feq SFeqb = true.
Proof. vm_compute. reflexivity. Qed.

(** ** Rounding to nearest, ties to even *)

Ltac ltb_cases :=
  repeat match goal with
         | |- context [(?a <? ?b)] => destruct (Z.ltb_spec a b)
         end.

Lemma rne_bounds n d : 0 < d ->
  (2 * rne n d - 1) * d <= 2 * n <= (2 * rne n d + 1) * d.
Proof.
  intros Hd. unfold rne.
  pose proof (Z.div_mod n d ltac:(lia)) as E.
  pose proof (Z.mod_pos_bound n d Hd) as B.
  destruct (Z.compare_spec (2 * (n mod d)) d); [destruct (Z.even (n / d))| |]; nia.
Qed.

Lemma rne_tie_even n d : 0 < d ->
  (2 * n = (2 * rne n d + 1) * d \/ 2 * n = (2 * rne n d - 1) * d) ->
  Z.even (rne n d) = true.
Proof.
  intros Hd. unfold rne.
  pose proof (Z.div_mod n d ltac:(lia)) as E.
  pose proof (Z.mod_pos_bound n d Hd) as B.
  destruct (Z.compare_spec (2 * (n mod d)) d) as [H|H|H].
  - destruct (Z.even (n / d)) eqn:Ev; intros [T|T]; try assumption; try nia.
    rewrite Z.even_add, Ev. reflexivity.
  - intros [T|T]; nia.
  - intros [T|T]; nia.
Qed.

Lemma rne_mono n1 n2 d : 0 < d -> n1 <= n2 -> rne n1 d <= rne n2 d.
Proof.
  intros Hd Hn.
  pose proof (rne_bounds n1 d Hd) as B1.
  pose proof (rne_bounds n2 d Hd) as B2.
  destruct (Z_le_gt_dec (rne n1 d) (rne n2 d)) as [|G]; [assumption|exfalso].
  assert (rne n1 d = rne n2 d + 1) as E by nia.
  assert (2 * n1 = (2 * rne n1 d - 1) * d) as T1 by nia.
  assert (2 * n2 = (2 * rne n2 d + 1) * d) as T2 by nia.
  pose proof (rne_tie_even n1 d Hd (or_intror T1)) as E1.
  pose proof (rne_tie_even n2 d Hd (or_introl T2)) as E2.
  rewrite E, Z.even_add, E2 in E1. discriminate.
Qed.

Lemma rne_exact m d : 0 < d -> rne (m * d) d = m.
Proof.
  intros Hd. unfold rne.
  rewrite Z.div_mul, Z.mod_mul by lia.
  change (2 * 0) with 0.
  destruct (Z.compare_spec 0 d); lia.
Qed.

Lemma rne_nonneg n d : 0 < d -> 0 <= n -> 0 <= rne n d.
Proof.
  intros Hd Hn. rewrite <- (rne_exact 0 d Hd). apply rne_mono; lia.
Qed.

Lemma pow2_pos s : 0 < 2 ^ s \/ 2 ^ s = 0.
Proof. destruct (Z_le_gt_dec 0 s); [left; apply Z.pow_pos_nonneg; lia | right; apply Z.pow_neg_r; lia]. Qed.

Lemma rne_pow2_point d P s e :
  0 < d -> 0 <= s -> 0 <= e -> P = 2 ^ e * 2 ^ s ->
  rne (P * d) (d * 2 ^ s) * 2 ^ s = P.
Proof.
  intros Hd Hs He ->.
  assert (0 < 2 ^ s) by (apply Z.pow_pos_nonneg; lia).
  replace (2 ^ e * 2 ^ s * d) with (2 ^ e * (d * 2 ^ s)) by ring.
  rewrite rne_exact by nia. reflexivity.
Qed.

Lemma log2_upper q : 0 <= q -> q < 2 ^ (Z.log2 q + 1).
Proof.
  intros Hq. destruct (Z.eq_dec q 0) as [->|Hn]; [reflexivity|].
  pose proof (Z.log2_spec q ltac:(lia)). replace (Z.log2 q + 1) with (Z.succ (Z.log2 q)) by lia. lia.
Qed.

Lemma round_mag_mono f n1 n2 d :
  1 <= prec f -> 0 <= shift0 f -> 0 < d -> 0 <= n1 <= n2 ->
  round_mag f n1 d <= round_mag f n2 d.
Proof.
  intros Hp Hs Hd [H0 Hn]. unfold round_mag.
  set (q1 := n1 / d). set (q2 := n2 / d).
  assert (0 <= q1) as Hq1 by (apply Z.div_pos; lia).
  assert (q1 <= q2) as Hq by (apply Z.div_le_mono; lia).
  pose proof (Z.log2_le_mono q1 q2 Hq) as HL.
  pose proof (Z.log2_nonneg q1) as HL1.
  set (s1 := Z.max (shift0 f) (Z.log2 q1 + 1 - prec f)).
  set (s2 := Z.max (shift0 f) (Z.log2 q2 + 1 - prec f)).
  assert (0 <= s1) by lia.
  assert (s1 <= s2) as Hs12 by lia.
  assert (0 < 2 ^ s1) by (apply Z.pow_pos_nonneg; lia).
  assert (0 < 2 ^ s2) by (apply Z.pow_pos_nonneg; lia).
  destruct (Z.eq_dec s1 s2) as [E|NE].
  - rewrite <- E. apply Z.mul_le_mono_nonneg_r; [lia|]. apply rne_mono; nia.
  - assert (s2 = Z.log2 q2 + 1 - prec f) as Es2 by lia.
    assert (Z.log2 q1 + 1 <= Z.log2 q2) as HLlt by lia.
    set (P := 2 ^ Z.log2 q2).
    assert (0 < q2) as Hq2pos.
    { destruct (Z.eq_dec q2 0) as [Z0|]; [|lia]. rewrite Z0 in HLlt. simpl in HLlt. lia. }
    assert (P <= q2) as HP2 by (apply Z.log2_spec; lia).
    assert (q1 < P) as HP1.
    { pose proof (log2_upper q1 Hq1).
      assert (2 ^ (Z.log2 q1 + 1) <= P) by (apply Z.pow_le_mono_r; lia). lia. }
    pose proof (Z.div_mod n1 d ltac:(lia)) as D1. fold q1 in D1.
    pose proof (Z.mod_pos_bound n1 d Hd) as B1.
    pose proof (Z.div_mod n2 d ltac:(lia)) as D2. fold q2 in D2.
    pose proof (Z.mod_pos_bound n2 d Hd) as B2.
    assert (n1 <= P * d) as Hn1 by nia.
    assert (P * d <= n2) as Hn2 by nia.
    assert (forall s, 0 <= s <= s2 -> rne (P * d) (d * 2 ^ s) * 2 ^ s = P) as HPt.
    { intros s Hs'. apply (rne_pow2_point d P s (Z.log2 q2 - s)); try lia.
      unfold P. rewrite <- Z.pow_add_r by lia. f_equal. lia. }
    transitivity P.
    + etransitivity; [|apply Z.eq_le_incl, (HPt s1); lia].
      apply Z.mul_le_mono_nonneg_r; [lia|]. apply rne_mono; nia.
    + etransitivity; [apply Z.eq_le_incl; symmetry; apply (HPt s2); lia|].
      apply Z.mul_le_mono_nonneg_r; [lia|]. apply rne_mono; nia.
Qed.

Lemma round_mag_nonneg f n d : 0 < d -> 0 <= n -> 0 <= round_mag f n d.
Proof.
  intros Hd Hn. unfold round_mag.
  set (s := Z.max _ _).
  destruct (pow2_pos s) as [Hs|Hs]; [|rewrite Hs; lia].
  apply Z.mul_nonneg_nonneg; [|lia]. apply rne_nonneg; nia.
Qed.

Lemma round_mono f n1 n2 d :
  1 <= prec f -> 0 <= shift0 f -> 0 < d -> n1 <= n2 ->
  fle (round f n1 d) (round f n2 d) = true.
Proof.
  intros Hp Hs Hd Hn. unfold round.
  destruct (Z.leb_spec 0 n1) as [P1|N1]; destruct (Z.leb_spec 0 n2) as [P2|N2]; try lia.
  - pose proof (round_mag_mono f n1 n2 d Hp Hs Hd ltac:(lia)).
    destruct (Z.ltb_spec (round_mag f n1 d) (2 ^ maxbits f));
    destruct (Z.ltb_spec (round_mag f n2 d) (2 ^ maxbits f)); simpl; try reflexivity; lia.
  - pose proof (round_mag_nonneg f (- n1) d Hd ltac:(lia)).
    pose proof (round_mag_nonneg f n2 d Hd ltac:(lia)).
    destruct (Z.ltb_spec (round_mag f (- n1) d) (2 ^ maxbits f));
    destruct (Z.ltb_spec (round_mag f n2 d) (2 ^ maxbits f)); simpl; try reflexivity; lia.
  - pose proof (round_mag_mono f (- n2) (- n1) d Hp Hs Hd ltac:(lia)).
    destruct (Z.ltb_spec (round_mag f (- n1) d) (2 ^ maxbits f));
    destruct (Z.ltb_spec (round_mag f (- n2) d) (2 ^ maxbits f)); simpl; try reflexivity; lia.
Qed.

(** ** The comparator-driven sort *)

Lemma sort_insert_perm cmp x l : sort_insert cmp x l ≡ₚ x :: l.
Proof.
  induction l as [|y l IH]; simpl; [done|].
  destruct (flt (cmp x y) (Fin 0)); [done|].
  rewrite IH. apply Permutation_swap.
Qed.

Lemma Array_sort_perm cmp l : Array_sort cmp l ≡ₚ l.
Proof.
  unfold Array_sort.
  assert (forall acc, foldl (fun acc x => sort_insert cmp x acc) acc l ≡ₚ l ++ acc) as H.
  { induction l as [|x l IH]; intros acc; simpl; [done|].
    rewrite IH, sort_insert_perm. by rewrite Permutation_middle. }
  rewrite H. by rewrite app_nil_r.
Qed.

Lemma binary64_good : 1 <= prec binary64 /\ 0 <= shift0 binary64.
Proof. simpl. lia. Qed.

Lemma round64_sign n : flt (round binary64 n 1) (Fin 0) = (n <? 0).
Proof.
  unfold round.
  destruct (Z.leb_spec 0 n) as [P|N].
  - pose proof (round_mag_nonneg binary64 n 1 eq_refl P).
    destruct (Z.ltb_spec (round_mag binary64 n 1) (2 ^ maxbits binary64)); simpl; lia.
  - pose proof (round_mag_mono binary64 1 (- n) 1 ltac:(simpl; lia) ltac:(simpl; lia) eq_refl ltac:(lia)) as H.
    change (round_mag binary64 1 1) with 1 in H.
    destruct (Z.ltb_spec (round_mag binary64 (- n) 1) (2 ^ maxbits binary64)); simpl; lia.
Qed.

Lemma fsub_sign x y : flt (fsub (Fin x) (Fin y)) (Fin 0) = (x <? y).
Proof.
  unfold fsub, fadd, fneg. rewrite round64_sign.
  destruct (Z.ltb_spec (x + - y) 0), (Z.ltb_spec x y); lia.
Qed.

Lemma leN_Fin x y : leN (Fin x) (Fin y) <-> x <= y.
Proof. unfold leN. simpl. apply Z.leb_le. Qed.

Lemma leN_trans a b c : leN a b -> leN b c -> leN a c.
Proof.
  unfold leN. destruct a, b, c; simpl; try congruence.
  rewrite !Z.leb_le. lia.
Qed.

Lemma leN_refl a : a <> NaN -> leN a a.
Proof. unfold leN. destruct a; simpl; try congruence. intros _. apply Z.leb_refl. Qed.

Lemma sort_insert_Forall (P : number -> Prop) cmp x l :
  P x -> Forall P l -> Forall P (sort_insert cmp x l).
Proof.
  intros Hx Hl. rewrite sort_insert_perm. by constructor.
Qed.

Lemma sort_insert_sorted x l :
  isFinite x = true -> Forall (fun y => isFinite y = true) l ->
  StronglySorted leN l ->
  StronglySorted leN (sort_insert (fun a b => fsub a b) x l).
Proof.
  intros Hx Hl Hs. induction Hs as [|y l Hs IH Hy]; simpl.
  - repeat constructor.
  - apply Forall_cons in Hl as [Fy Fl].
    destruct x as [| | |x]; try discriminate.
    destruct y as [| | |y]; try discriminate.
    rewrite fsub_sign. destruct (Z.ltb_spec x y) as [L|G].
    + constructor; [by constructor|].
      constructor; [apply leN_Fin; lia|].
      eapply Forall_impl; [exact Hy|]. intros z Hz.
      eapply leN_trans; [|exact Hz]. apply leN_Fin. lia.
    + constructor; [by apply IH|].
      apply sort_insert_Forall; [apply leN_Fin; lia|done].
Qed.

Lemma Array_sort_sorted l :
  Forall (fun y => isFinite y = true) l ->
  StronglySorted leN (Array_sort (fun a b => fsub a b) l).
Proof.
  unfold Array_sort. intros Hl.
  assert (forall acc, Forall (fun y => isFinite y = true) acc -> StronglySorted leN acc ->
            StronglySorted leN (foldl (fun acc x => sort_insert (fun a b => fsub a b) x acc) acc l)) as H.
  { induction Hl as [|x l Hx Hl IH]; intros acc Fa Sa; simpl; [done|].
    apply IH; [by apply sort_insert_Forall | by apply sort_insert_sorted]. }
  apply H; constructor.
Qed.

Lemma StronglySorted_lookup_le (R : relation number) (l : list number) i j a b :
  StronglySorted R l -> (i < j)%nat -> l !! i = Some a -> l !! j = Some b -> R a b.
Proof.
  intros Hs. revert i j. induction Hs as [|x l Hs IH Hx]; intros i j Hij Ha Hb; [done|].
  destruct i as [|i], j as [|j]; simpl in *; try lia.
  - injection Ha as ->. rewrite Forall_forall in Hx. apply Hx.
    by eapply list_elem_of_lookup_2.
  - eapply IH; [|done..]. lia.
Qed.

(** ** Integers as numbers *)

Lemma rne_scale n d c : 0 < d -> 0 < c -> rne (n * c) (d * c) = rne n d.
Proof.
  intros Hd Hc. unfold rne.
  rewrite Z.div_mul_cancel_r by lia.
  rewrite Z.mul_mod_distr_r by lia.
  replace (2 * (n mod d * c)) with (2 * (n mod d) * c) by ring.
  rewrite (Z.mul_comm _ c), (Z.mul_comm d c).
  rewrite <- Zmult_compare_compat_l by lia. reflexivity.
Qed.

Lemma round_mag_scale f n d c :
  0 < d -> 0 < c -> round_mag f (n * c) (d * c) = round_mag f n d.
Proof.
  intros Hd Hc. unfold round_mag.
  rewrite Z.div_mul_cancel_r by lia.
  set (s := Z.max _ _).
  destruct (pow2_pos s) as [Hs|Hs]; [|rewrite Hs; lia].
  replace (d * c * 2 ^ s) with (d * 2 ^ s * c) by ring.
  rewrite rne_scale by nia. reflexivity.
Qed.

Lemma round_scale f n d c :
  0 < d -> 0 < c -> round f (n * c) (d * c) = round f n d.
Proof.
  intros Hd Hc. unfold round.
  replace (- (n * c)) with (- n * c) by ring.
  rewrite !round_mag_scale by lia.
  destruct (Z.leb_spec 0 n), (Z.leb_spec 0 (n * c)); try nia; reflexivity.
Qed.

Lemma round_mag64_exact m e :
  0 <= m < 2 ^ 53 -> 0 <= e -> round_mag binary64 (m * 2 ^ e) 1 = m * 2 ^ e.
Proof.
  intros [H0 Hm] He. unfold round_mag. rewrite Z.div_1_r. simpl prec. simpl shift0.
  destruct (Z.eq_dec m 0) as [->|Hn].
  - reflexivity.
  - rewrite Z.log2_mul_pow2 by lia.
    assert (Z.log2 m < 53) by (apply Z.log2_lt_pow2; lia).
    pose proof (Z.log2_nonneg m).
    set (s := Z.max 0 (e + Z.log2 m + 1 - 53)).
    assert (0 <= s <= e) as Hs by lia.
    assert (0 < 2 ^ s) by (apply Z.pow_pos_nonneg; lia).
    replace (m * 2 ^ e) with (m * 2 ^ (e - s) * (1 * 2 ^ s)).
    + rewrite rne_exact by lia. ring.
    + replace e with ((e - s) + s) at 2 by lia.
      rewrite (Z.pow_add_r 2 (e - s) s) by lia. ring.
Qed.

Lemma of_Z_exact n : 0 <= n < 2 ^ 53 -> of_Z n = Fin (n * U).
Proof.
  intros Hn. unfold of_Z, round, U.
  rewrite round_mag64_exact by lia.
  assert (0 < 2 ^ 1074) by (apply Z.pow_pos_nonneg; lia).
  destruct (Z.leb_spec 0 (n * 2 ^ 1074)); [|nia].
  assert (n * 2 ^ 1074 < 2 ^ maxbits binary64) as Hlt.
  { simpl maxbits. change (2 ^ 2098) with (2 ^ 1024 * 2 ^ 1074).
    assert (2 ^ 53 <= 2 ^ 1024) by (apply Z.pow_le_mono_r; lia). nia. }
  destruct (Z.ltb_spec (n * 2 ^ 1074) (2 ^ maxbits binary64)); [reflexivity|lia].
Qed.

Lemma U_pos : 0 < U.
Proof. unfold U. apply Z.pow_pos_nonneg; lia. Qed.

Lemma fle_Fin_between a lo hi :
  fle (Fin lo) a = true -> fle a (Fin hi) = true -> exists y, a = Fin y /\ lo <= y <= hi.
Proof.
  destruct a as [| | |y]; simpl; try discriminate.
  rewrite !Z.leb_le. eauto.
Qed.

Lemma round64_zero d : 0 < d -> round binary64 0 d = Fin 0.
Proof.
  intros Hd. replace d with (1 * d) by lia. change 0 with (0 * d) at 1.
  rewrite round_scale by lia. reflexivity.
Qed.

Lemma round64_between lo hi n d :
  0 < d -> 0 <= lo < 2 ^ 53 -> 0 <= hi < 2 ^ 53 ->
  lo * U * d <= n <= hi * U * d ->
  exists y, round binary64 n d = Fin y /\ lo * U <= y <= hi * U.
Proof.
  intros Hd Hlo Hhi [H1 H2].
  apply fle_Fin_between.
  - rewrite <- (of_Z_exact lo) by lia. unfold of_Z.
    rewrite <- (round_scale binary64 (lo * U) 1 d) by lia.
    replace (1 * d) with d by lia.
    apply round_mono; try apply binary64_good; lia.
  - rewrite <- (of_Z_exact hi) by lia. unfold of_Z.
    rewrite <- (round_scale binary64 (hi * U) 1 d) by lia.
    replace (1 * d) with d by lia.
    apply round_mono; try apply binary64_good; lia.
Qed.

Lemma percent_fraction x :
  0 <= x <= 100 * U -> exists y, fdiv (Fin x) (of_Z 100) = Fin y /\ 0 <= y <= U.
Proof.
  intros Hx. pose proof U_pos.
  rewrite (of_Z_exact 100) by lia. unfold fdiv.
  destruct (Z.compare_spec (100 * U) 0); try lia.
  destruct (round64_between 0 1 (x * U) (100 * U)) as (y & E & B); try lia; [nia|].
  exists y. split; [done|lia].
Qed.

Lemma thresholdIdx_Fin x n :
  0 <= x <= 100 * U -> 0 <= n < 2 ^ 53 ->
  exists I, thresholdIdx (Fin x) n = Fin (I * U) /\ 0 <= I <= n.
Proof.
  intros Hx Hn. pose proof U_pos. unfold thresholdIdx.
  destruct (percent_fraction x Hx) as (y & -> & Hy).
  rewrite (of_Z_exact n) by lia. unfold fmul.
  destruct (round64_between 0 n (y * (n * U)) U) as (z & -> & B); try lia; [nia|].
  simpl. exists (z / U). split; [done|].
  split; [apply Z.div_pos; lia|].
  apply Z.div_le_upper_bound; lia.
Qed.

Lemma thresholdIdx_mono x1 x2 n :
  0 <= x1 <= x2 -> x2 <= 100 * U -> 0 <= n < 2 ^ 53 ->
  fle (thresholdIdx (Fin x1) n) (thresholdIdx (Fin x2) n) = true.
Proof.
  intros Hx H2 Hn. pose proof U_pos. unfold thresholdIdx.
  destruct (percent_fraction x1 ltac:(lia)) as (y1 & E1 & Hy1).
  destruct (percent_fraction x2 ltac:(lia)) as (y2 & E2 & Hy2).
  assert (y1 <= y2) as Hy.
  { apply leN_Fin. unfold leN. rewrite <- E1, <- E2.
    rewrite (of_Z_exact 100) by lia. unfold fdiv.
    destruct (Z.compare_spec (100 * U) 0); try lia.
    apply round_mono; try apply binary64_good; nia. }
  rewrite E1, E2. rewrite (of_Z_exact n) by lia. unfold fmul.
  destruct (round64_between 0 n (y1 * (n * U)) U) as (z1 & Z1 & B1); try lia; [nia|].
  destruct (round64_between 0 n (y2 * (n * U)) U) as (z2 & Z2 & B2); try lia; [nia|].
  assert (z1 <= z2) as Hz.
  { apply leN_Fin. unfold leN. rewrite <- Z1, <- Z2.
    apply round_mono; try apply binary64_good; nia. }
  rewrite Z1, Z2. simpl. apply Z.leb_le.
  apply Z.mul_le_mono_nonneg_r; [lia|]. apply Z.div_le_mono; lia.
Qed.

Lemma fsub_of_Z_one n : 1 <= n < 2 ^ 53 -> fsub (of_Z n) (of_Z 1) = Fin ((n - 1) * U).
Proof.
  intros Hn. rewrite (of_Z_exact n), (of_Z_exact 1) by lia.
  unfold fsub, fneg, fadd.
  replace (n * U + - (1 * U)) with ((n - 1) * U) by ring.
  apply (of_Z_exact (n - 1)). lia.
Qed.

Lemma Math_min_Fin a b : Math_min (Fin a) (Fin b) = Fin (Z.min a b).
Proof.
  unfold Math_min, flt. destruct (Z.ltb_spec b a); f_equal; lia.
Qed.

Lemma index_of_int k : 0 <= k -> index_of (Fin (k * U)) = Some (Z.to_nat k).
Proof.
  intros Hk. pose proof U_pos. unfold index_of.
  rewrite Z.mod_mul, Z.div_mul by lia.
  destruct (Z.leb_spec 0 (k * U)); [reflexivity|nia].
Qed.

Lemma filter_length_le {A} (f : A -> bool) l : (length (List.filter f l) <= length l)%nat.
Proof. induction l as [|x l IH]; simpl; [lia|]. destruct (f x); simpl; lia. Qed.

Lemma validDiff_spec d : M.validDiff d = true <-> exists x, d = Fin x /\ 0 < x.
Proof.
  unfold M.validDiff, fgt. destruct d as [| | |x]; simpl; split;
    try discriminate; try (intros (? & ? & ?); discriminate).
  - intros H. exists x. split; [done|]. by apply Z.ltb_lt.
  - intros (y & [= ->] & Hy). by apply Z.ltb_lt.
Qed.

(** ** Loops *)

Section Loops.
Context {St R : Type}.

Lemma for_range_empty lo hi (body : Z -> St -> St) s : hi <= lo -> for_range lo hi body s = s.
Proof. intros H. unfold for_range. rewrite seqZ_nil by lia. reflexivity. Qed.

Lemma for_range_last lo hi (body : Z -> St -> St) s :
  lo <= hi -> for_range lo (hi + 1) body s = body hi (for_range lo hi body s).
Proof.
  intros H. unfold for_range.
  replace (hi + 1 - lo) with ((hi - lo) + 1) by lia.
  rewrite (seqZ_app lo (hi - lo) 1) by lia. rewrite foldl_app.
  replace (lo + (hi - lo)) with hi by lia.
  rewrite (seqZ_cons hi 1) by lia. rewrite (seqZ_nil (Z.succ hi)) by lia. reflexivity.
Qed.

Lemma for_range_ind (P : Z -> St -> Prop) lo hi (body : Z -> St -> St) s :
  lo <= hi -> P lo s ->
  (forall i s, lo <= i < hi -> P i s -> P (i + 1) (body i s)) ->
  P hi (for_range lo hi body s).
Proof.
  intros Hle H0 Hstep.
  assert (forall n : nat, lo + Z.of_nat n <= hi ->
            P (lo + Z.of_nat n) (for_range lo (lo + Z.of_nat n) body s)) as H.
  { induction n as [|n IH]; intros Hn.
    - rewrite Z.add_0_r. rewrite for_range_empty by lia. exact H0.
    - replace (lo + Z.of_nat (S n)) with (lo + Z.of_nat n + 1) by lia.
      rewrite for_range_last by lia. apply Hstep; [lia|]. apply IH. lia. }
  specialize (H (Z.to_nat (hi - lo))).
  replace (lo + Z.of_nat (Z.to_nat (hi - lo))) with hi in H by lia.
  apply H. lia.
Qed.

Lemma for_return_empty lo hi (body : Z -> St -> flow St R) s :
  hi <= lo -> for_return lo hi body s = Next s.
Proof. intros H. unfold for_return. rewrite seqZ_nil by lia. reflexivity. Qed.

Lemma for_return_last lo hi (body : Z -> St -> flow St R) s :
  lo <= hi ->
  for_return lo (hi + 1) body s =
  match for_return lo hi body s with
  | Next s => body hi s
  | Return r s => Return r s
  end.
Proof.
  intros H. unfold for_return.
  replace (hi + 1 - lo) with ((hi - lo) + 1) by lia.
  rewrite (seqZ_app lo (hi - lo) 1) by lia. rewrite foldl_app.
  replace (lo + (hi - lo)) with hi by lia.
  rewrite (seqZ_cons hi 1) by lia. rewrite (seqZ_nil (Z.succ hi)) by lia. reflexivity.
Qed.

Lemma for_return_ind (P : Z -> flow St R -> Prop) lo hi (body : Z -> St -> flow St R) s :
  lo <= hi -> P lo (Next s) ->
  (forall i s, lo <= i < hi -> P i (Next s) -> P (i + 1) (body i s)) ->
  (forall i r s, lo <= i < hi -> P i (Return r s) -> P (i + 1) (Return r s)) ->
  P hi (for_return lo hi body s).
Proof.
  intros Hle H0 Hstep Hret.
  assert (forall n : nat, lo + Z.of_nat n <= hi ->
            P (lo + Z.of_nat n) (for_return lo (lo + Z.of_nat n) body s)) as H.
  { induction n as [|n IH]; intros Hn.
    - rewrite Z.add_0_r. rewrite for_return_empty by lia. exact H0.
    - replace (lo + Z.of_nat (S n)) with (lo + Z.of_nat n + 1) by lia.
      rewrite for_return_last by lia.
      specialize (IH ltac:(lia)).
      destruct (for_return lo (lo + Z.of_nat n) body s) as [s'|r s'].
      + apply Hstep; [lia|exact IH].
      + apply Hret; [lia|exact IH]. }
  specialize (H (Z.to_nat (hi - lo))).
  replace (lo + Z.of_nat (Z.to_nat (hi - lo))) with hi in H by lia.
  apply H. lia.
Qed.

End Loops.

(** ** Typed arrays *)

Lemma write_length a i v : length (write a i v) = length a.
Proof. unfold write. destruct (i <? 0); [done|]. apply length_insert. Qed.

Lemma write_lookup_eq a i v :
  0 <= i -> (Z.to_nat i < length a)%nat -> write a i v !! Z.to_nat i = Some (fround v).
Proof.
  intros Hi Hl. unfold write. destruct (Z.ltb_spec i 0); [lia|].
  by apply list_lookup_insert_eq.
Qed.

Lemma write_lookup_ne a i v (j : nat) :
  Z.of_nat j <> i -> write a i v !! j = a !! j.
Proof.
  intros Hne. unfold write. destruct (Z.ltb_spec i 0); [done|].
  apply list_lookup_insert_ne. lia.
Qed.

Lemma fill_rows (a : Float32Array) (W H : Z) (v : Z -> Z -> number) :
  0 <= W -> 0 <= H -> length a = Z.to_nat (H * W) ->
  let r := for_range 0 H (fun y a =>
             for_range 0 W (fun x a => write a (y * W + x) (v y x)) a) a in
  length r = length a /\
  forall y x, 0 <= y < H -> 0 <= x < W ->
    r !! Z.to_nat (y * W + x) = Some (fround (v y x)).
Proof.
  intros HW HH Hlen r.
  set (Inv := fun (t : Z) (b : Float32Array) =>
    length b = length a /\
    forall y x, 0 <= y < H -> 0 <= x < W -> y * W + x < t ->
      b !! Z.to_nat (y * W + x) = Some (fround (v y x))).
  assert (Inv (H * W) r) as [HL HI].
  { unfold r.
    apply (for_range_ind (fun y b => Inv (y * W) b)); [lia| |].
    - split; [done|]. intros; nia.
    - intros y b Hy Hb.
      replace ((y + 1) * W) with (y * W + W) by ring.
      apply (for_range_ind (fun x b => Inv (y * W + x) b)); [lia| |].
      + by rewrite Z.add_0_r.
      + intros x b' Hx [HL' HI']. split.
        * by rewrite write_length.
        * intros y' x' Hy' Hx' Hlt.
          destruct (Z.eq_dec (y' * W + x') (y * W + x)) as [E|NE].
          -- assert (y' = y) as -> by (destruct (Z.lt_trichotomy y' y) as [|[|]]; nia).
             assert (x' = x) as -> by lia.
             apply write_lookup_eq; [nia|]. rewrite HL', Hlen.
             apply Z2Nat.inj_lt; nia.
          -- rewrite write_lookup_ne by nia. apply HI'; [done..|]. lia. }
  split; [done|]. intros y x Hy Hx. apply HI; [done..|]. nia.
Qed.

(** ** The grid *)

Lemma cell_of_fullIdx gridX gridY x y :
  in_grid gridX gridY x y ->
  let i := fullIdx gridX gridY x y in
  0 <= i < 1048576 /\
  cell_gridX i = gridX /\ cell_gridY i = gridY /\ cell_x i = x /\ cell_y i = y.
Proof.
  unfold in_grid, fullIdx, cell_gridX, cell_gridY, cell_x, cell_y.
  intros (? & ? & ? & ?). cbv zeta.
  repeat split; try lia; Z.div_mod_to_equations; lia.
Qed.

Lemma fullIdx_of_cell i :
  0 <= i < 1048576 ->
  in_grid (cell_gridX i) (cell_gridY i) (cell_x i) (cell_y i) /\
  fullIdx (cell_gridX i) (cell_gridY i) (cell_x i) (cell_y i) = i.
Proof.
  unfold in_grid, fullIdx, cell_gridX, cell_gridY, cell_x, cell_y.
  intros Hi. repeat split; Z.div_mod_to_equations; lia.
Qed.

Lemma rank_fullIdx gridX gridY x y :
  in_grid gridX gridY x y ->
  rank (fullIdx gridX gridY x y) = ((gridY * 4 + gridX) * 256 + y) * 256 + x.
Proof.
  intros H. destruct (cell_of_fullIdx _ _ _ _ H) as (_ & E1 & E2 & E3 & E4).
  unfold rank. rewrite E1, E2, E3, E4. reflexivity.
Qed.

Lemma rank_inj i gridX gridY x y :
  0 <= i < 1048576 -> in_grid gridX gridY x y ->
  rank i = ((gridY * 4 + gridX) * 256 + y) * 256 + x ->
  i = fullIdx gridX gridY x y.
Proof.
  intros Hi Hg Hr.
  destruct (fullIdx_of_cell i Hi) as [Hc <-].
  unfold rank in Hr. unfold in_grid in *.
  assert (cell_x i = x /\ cell_y i = y /\ cell_gridX i = gridX /\ cell_gridY i = gridY)
    as (-> & -> & -> & ->) by lia.
  reflexivity.
Qed.

(** ** Reassembly *)

Lemma store_last h0 b i v :
  store (length h0) i v (h0 ++ [b]) = h0 ++ [write b i v].
Proof.
  unfold store. rewrite alter_app_r_alt by lia.
  rewrite Nat.sub_diag. reflexivity.
Qed.

Lemma write_lookup a i v (j : nat) :
  (j < length a)%nat ->
  write a i v !! j = if decide (Z.of_nat j = i) then Some (fround v) else a !! j.
Proof.
  intros Hj. case_decide as E.
  - subst i. pose proof (write_lookup_eq a (Z.of_nat j) v ltac:(lia)) as H.
    rewrite Nat2Z.id in H. by apply H.
  - by apply write_lookup_ne.
Qed.

Lemma place_output_spec outputs h0 b gridX gridY :
  0 <= gridX < 4 -> 0 <= gridY < 4 ->
  written outputs ((gridY * 4 + gridX) * 65536) b ->
  exists b',
    M.place_output (length h0) (default [] (outputs !! Z.to_nat (gridY * 4 + gridX)))
      gridX gridY (h0 ++ [b]) = h0 ++ [b'] /\
    length b' = length b /\
    written outputs ((gridY * 4 + gridX + 1) * 65536) b'.
Proof.
  intros HX HY Hw. unfold M.place_output.
  set (output := default [] (outputs !! Z.to_nat (gridY * 4 + gridX))).
  set (T0 := (gridY * 4 + gridX) * 65536).
  set (Inv := fun (t : Z) (h : heap) =>
    exists b', h = h0 ++ [b'] /\ length b' = length b /\ written outputs (T0 + t) b').
  cut (Inv 65536 (for_range 0 256 (fun y h =>
         for_range 0 256 (fun x h =>
           if (gridX * 256 + x <? 1024) && (gridY * 256 + y <? 1024)
           then store (length h0) ((gridY * 256 + y) * 1024 + gridX * 256 + x)
                  (fadd (fmul (read output (y * 256 + x)) STD) MEAN) h
           else h) h) (h0 ++ [b]))).
  { intros (b' & E & L & W). exists b'. repeat split; try done.
    replace ((gridY * 4 + gridX + 1) * 65536) with (T0 + 65536) by (unfold T0; ring).
    exact W. }
  apply (for_range_ind (fun y h => Inv (y * 256) h)); [lia| |].
  - exists b. repeat split; try done. by rewrite Z.add_0_r.
  - intros y h Hy Hh.
    replace ((y + 1) * 256) with (y * 256 + 256) by ring.
    apply (for_range_ind (fun x h => Inv (y * 256 + x) h)); [lia| |].
    + by rewrite Z.add_0_r.
    + intros x h' Hx (b' & -> & L & W).
      destruct (Z.ltb_spec (gridX * 256 + x) 1024); [|lia].
      destruct (Z.ltb_spec (gridY * 256 + y) 1024); [|lia].
      simpl andb. cbv iota. rewrite store_last.
      eexists. split; [reflexivity|]. split; [by rewrite write_length|].
      intros i Hi Hlt. rewrite write_length in Hlt.
      rewrite write_lookup by done. rewrite Z2Nat.id by lia.
      assert (in_grid gridX gridY x y) as Hg by (unfold in_grid; lia).
      pose proof (rank_fullIdx _ _ _ _ Hg) as Hr.
      destruct (cell_of_fullIdx _ _ _ _ Hg) as (Hb & E1 & E2 & E3 & E4).
      fold (fullIdx gridX gridY x y).
      case_decide as E.
      * subst i. rewrite Hr. unfold T0.
        ltb_cases; try lia.
        simpl. unfold recon_cell, denormalize. rewrite E1, E2, E3, E4. reflexivity.
      * rewrite (W i Hi Hlt).
        destruct (Z.ltb_spec i 1048576) as [Hin|]; [|reflexivity]. simpl.
        assert (rank i <> ((gridY * 4 + gridX) * 256 + y) * 256 + x) as Hne.
        { intros Hc. apply E. by apply rank_inj. }
        unfold T0. ltb_cases; try reflexivity; lia.
Qed.

Lemma written_zero outputs n : written outputs 0 (new_Float32Array n).
Proof.
  intros i Hi Hlt. unfold new_Float32Array in *.
  rewrite length_replicate in Hlt. rewrite lookup_replicate_2 by done.
  assert (0 <= rank i).
  { unfold rank, cell_gridY, cell_gridX, cell_y, cell_x. Z.div_mod_to_equations. lia. }
  destruct (Z.ltb_spec (rank i) 0); [lia|]. by rewrite andb_false_r.
Qed.

Lemma combineOutputs_wrong_count outputs h p :
  Z.of_nat (length outputs) <> 16 ->
  M.combineOutputs outputs (h, p) = (false, (h, p)).
Proof.
  intros H. unfold M.combineOutputs.
  destruct (Z.eqb_spec (Z.of_nat (length outputs)) 16); [lia|reflexivity].
Qed.

Lemma combineOutputs_ok outputs h p :
  Z.of_nat (length outputs) = 16 ->
  Forall (fun out => Z.of_nat (length out) = 65536) outputs ->
  exists b,
    M.combineOutputs outputs (h, p) =
      (true, (h ++ [b], M.set_lastReconstructed (Some (length h)) p)) /\
    length b = Z.to_nat (M.width p * M.height p) /\
    written outputs 1048576 b.
Proof.
  intros Hn Hall. unfold M.combineOutputs.
  destruct (Z.eqb_spec (Z.of_nat (length outputs)) 16); [|lia]. simpl negb. cbv iota.
  unfold alloc. cbv zeta beta iota.
  set (N := M.width p * M.height p).
  set (P := fun (t : Z) (fl : flow (list (list number)) bool) =>
    exists b, fl = Next (h ++ [b]) /\ length b = Z.to_nat N /\ written outputs (t * 65536) b).
  match goal with
  | |- context [match ?L with Next _ => _ | Return _ _ => _ end] =>
      assert (P 16 L) as (b & -> & HL & HW)
  end.
  { apply (for_return_ind (fun gridY fl => P (gridY * 4) fl)); [lia| | |].
    - exists (new_Float32Array N). repeat split.
      + unfold new_Float32Array. by rewrite length_replicate.
      + apply written_zero.
    - intros gridY h' HY (b & [= ->] & HL & HW).
      replace ((gridY + 1) * 4) with (gridY * 4 + 4) by ring.
      apply (for_return_ind (fun gridX fl => P (gridY * 4 + gridX) fl)); [lia| | |].
      + rewrite Z.add_0_r. by exists b.
      + intros gridX h' HX (b' & [= ->] & HL' & HW').
        assert (Z.of_nat (length (default [] (outputs !! Z.to_nat (gridY * 4 + gridX)))) = 65536) as Hlen.
        { destruct (lookup_lt_is_Some_2 outputs (Z.to_nat (gridY * 4 + gridX)) ltac:(lia)) as [o Ho].
          rewrite Ho. simpl. rewrite Forall_forall in Hall. apply Hall.
          by eapply list_elem_of_lookup_2. }
        rewrite Hlen. simpl negb. cbv iota.
        destruct (place_output_spec outputs h b' gridX gridY HX HY HW') as (b'' & -> & L'' & W'').
        exists b''. repeat split; [congruence|].
        replace ((gridY * 4 + (gridX + 1)) * 65536) with ((gridY * 4 + gridX + 1) * 65536) by ring.
        exact W''.
      + intros gridX r s _ (b' & [=] & _).
    - intros gridY r s _ (b' & [=] & _). }
  exists b. repeat split; done.
Qed.

Lemma place_output_shape output gridX gridY h0 b :
  exists b', M.place_output (length h0) output gridX gridY (h0 ++ [b]) = h0 ++ [b'] /\
             length b' = length b.
Proof.
  unfold M.place_output.
  set (Inv := fun (h : list (list number)) => exists b', h = h0 ++ [b'] /\ length b' = length b).
  apply (for_range_ind (fun _ h => Inv h)); [lia| |].
  - by exists b.
  - intros y h _ Hh.
    apply (for_range_ind (fun _ h => Inv h)); [lia|done|].
    intros x h' _ (b' & -> & L).
    destruct (_ && _); [|by exists b'].
    rewrite store_last. eexists. split; [reflexivity|]. by rewrite write_length.
Qed.

Lemma combineOutputs_wrong_length outputs h p :
  Z.of_nat (length outputs) = 16 ->
  ~ Forall (fun out => Z.of_nat (length out) = 65536) outputs ->
  exists b,
    M.combineOutputs outputs (h, p) =
      (false, (h ++ [b], M.set_lastReconstructed (Some (length h)) p)) /\
    length b = Z.to_nat (M.width p * M.height p).
Proof.
  intros Hn Hbad. unfold M.combineOutputs.
  destruct (Z.eqb_spec (Z.of_nat (length outputs)) 16); [|lia]. simpl negb. cbv iota.
  unfold alloc. cbv zeta beta iota.
  set (N := M.width p * M.height p).
  set (shape := fun (h' : list (list number)) =>
    exists b, h' = h ++ [b] /\ length b = Z.to_nat N).
  set (P := fun (t : Z) (fl : flow (list (list number)) bool) =>
    match fl with
    | Next h' => shape h' /\
        forall k, 0 <= k < t ->
          Z.of_nat (length (default [] (outputs !! Z.to_nat k))) = 65536
    | Return r h' => r = false /\ shape h'
    end).
  match goal with
  | |- context [match ?L with Next _ => _ | Return _ _ => _ end] =>
      assert (P 16 L) as HP
  end.
  { apply (for_return_ind (fun gridY fl => P (gridY * 4) fl)); [lia| | |].
    - split; [|intros; lia]. exists (new_Float32Array N). split; [done|].
      unfold new_Float32Array. by rewrite length_replicate.
    - intros gridY h' HY [Hs Hk].
      replace ((gridY + 1) * 4) with (gridY * 4 + 4) by ring.
      apply (for_return_ind (fun gridX fl => P (gridY * 4 + gridX) fl)); [lia| | |].
      + by rewrite Z.add_0_r.
      + intros gridX h'' HX [(b & -> & L) Hk'].
        destruct (Z.eqb_spec (Z.of_nat (length (default [] (outputs !! Z.to_nat (gridY * 4 + gridX))))) 65536) as [E|NE];
          simpl negb; cbv iota.
        * destruct (place_output_shape (default [] (outputs !! Z.to_nat (gridY * 4 + gridX))) gridX gridY h b)
            as (b' & -> & L').
          split; [exists b'; split; [done|congruence]|].
          intros k Hk2. destruct (Z.eq_dec k (gridY * 4 + gridX)) as [->|]; [done|].
          apply Hk'. lia.
        * split; [done|]. by exists b.
      + intros gridX r s _ HR. exact HR.
    - intros gridY r s _ HR. exact HR. }
  destruct (for_return 0 4 _ _) as [h'|r h']; simpl in HP.
  - exfalso. destruct HP as [_ Hk]. apply Hbad. apply Forall_lookup_2.
    intros k out Ho. specialize (Hk (Z.of_nat k)).
    rewrite Nat2Z.id, Ho in Hk. apply Hk.
    apply lookup_lt_Some in Ho. lia.
  - destruct HP as [-> (b & -> & L)]. by exists b.
Qed.

Lemma combineOutputs_first_wrong outputs h p :
  Z.of_nat (length outputs) = 16 ->
  Z.of_nat (length (default [] (outputs !! 0%nat))) <> 65536 ->
  M.combineOutputs outputs (h, p) =
    (false, (h ++ [new_Float32Array (M.width p * M.height p)],
             M.set_lastReconstructed (Some (length h)) p)).
Proof.
  intros Hn Hbad. unfold M.combineOutputs.
  destruct (Z.eqb_spec (Z.of_nat (length outputs)) 16); [|lia]. simpl negb. cbv iota.
  unfold alloc. cbv zeta beta iota.
  unfold for_return. change (seqZ 0 (4 - 0)) with [0; 1; 2; 3]. simpl foldl.
  change (Z.to_nat (0 * 4 + 0)) with 0%nat.
  destruct (Z.eqb_spec (Z.of_nat (length (default [] (outputs !! 0%nat)))) 65536); [lia|].
  reflexivity.
Qed.

Lemma Demo_combineOutputs_first_wrong outputs h p :
  Z.of_nat (length outputs) = 16 ->
  Z.of_nat (length (default [] (outputs !! 0%nat))) <> 65536 ->
  D.combineOutputs outputs (h, p) =
    (false, (h ++ [new_Float32Array (D.width p * D.height p)],
             D.set_lastReconstructed (Some (length h)) p),
     D.WrongLength (Z.of_nat (length (default [] (outputs !! 0%nat))))).
Proof.
  intros Hn Hbad. unfold D.combineOutputs.
  destruct (Z.eqb_spec (Z.of_nat (length outputs)) 16); [|lia]. simpl negb. cbv iota.
  unfold alloc. cbv zeta beta iota.
  unfold for_return. change (seqZ 0 (4 - 0)) with [0; 1; 2; 3]. simpl foldl.
  change (Z.to_nat (0 * 4 + 0)) with 0%nat.
  destruct (Z.eqb_spec (Z.of_nat (length (default [] (outputs !! 0%nat)))) 65536); [lia|].
  reflexivity.
Qed.

(** ** Crop extraction *)

Lemma processCrop_spec p intensity gridX gridY :
  M.rawIntensityData p = Some intensity ->
  exists tile,
    M.processCrop p gridX gridY = Some tile /\
    Z.of_nat (length tile) = 65536 /\
    forall x y, 0 <= x < 256 -> 0 <= y < 256 ->
      tile !! Z.to_nat (y * 256 + x) =
      Some (fround (normalize (read intensity (fullIdx gridX gridY x y)))).
Proof.
  intros Hraw. unfold M.processCrop. rewrite Hraw. cbv zeta.
  eexists. split; [reflexivity|].
  pose proof (fill_rows (new_Float32Array (256 * 256)) 256 256
    (fun y x => normalize (read intensity (fullIdx gridX gridY x y)))
    ltac:(lia) ltac:(lia)) as H.
  unfold new_Float32Array in H at 1. rewrite length_replicate in H.
  specialize (H eq_refl). cbv zeta in H. destruct H as [HL HC].
  unfold normalize, fullIdx in *.
  split.
  - rewrite HL. unfold new_Float32Array. rewrite length_replicate. lia.
  - intros x y Hx Hy. exact (HC y x Hy Hx).
Qed.

Lemma Demo_processCrop_spec p intensity gridX gridY :
  D.rawIntensityData p = Some intensity ->
  exists tile,
    D.processCrop p gridX gridY = Some tile /\
    Z.of_nat (length tile) = 65536 /\
    forall x y, 0 <= x < 256 -> 0 <= y < 256 ->
      tile !! Z.to_nat (y * 256 + x) =
      Some (fround (normalize (replace_nonfinite (read intensity (fullIdx gridX gridY x y))))).
Proof.
  intros Hraw. unfold D.processCrop. rewrite Hraw. cbv zeta.
  eexists. split; [reflexivity|].
  pose proof (fill_rows (new_Float32Array (256 * 256)) 256 256
    (fun y x => normalize (replace_nonfinite
       (read intensity ((gridY * 256 + y) * 1024 + (gridX * 256 + x)))))
    ltac:(lia) ltac:(lia)) as H.
  unfold new_Float32Array in H at 1. rewrite length_replicate in H.
  specialize (H eq_refl). cbv zeta in H. destruct H as [HL HC].
  unfold normalize, replace_nonfinite in *.
  split.
  - rewrite HL. unfold new_Float32Array. rewrite length_replicate. lia.
  - intros x y Hx Hy. rewrite (HC y x Hy Hx). unfold fullIdx.
    by rewrite Z.add_assoc.
Qed.

Lemma MEAN_value : MEAN = Fin (3230825 * 2 ^ 1068).
Proof. vm_compute. reflexivity. Qed.

Lemma STD_value : STD = Fin (2111777 * 2 ^ 1067).
Proof. vm_compute. reflexivity. Qed.

Lemma normalize_nonfinite v : isFinite v = false -> fround (normalize v) = v.
Proof.
  intros H. unfold normalize. rewrite MEAN_value, STD_value.
  destruct v; try discriminate; reflexivity.
Qed.

(** ** The difference buffer *)

Lemma fround_zero : fround (Fin 0) = Fin 0.
Proof. reflexivity. Qed.

Lemma read_lookup (a : list number) (i : nat) v :
  a !! i = Some v -> read a (Z.of_nat i) = v.
Proof.
  intros H. unfold read. destruct (Z.ltb_spec (Z.of_nat i) 0); [lia|].
  rewrite Nat2Z.id, H. reflexivity.
Qed.

Lemma deref_app_l h0 b r : (r < length h0)%nat -> deref (h0 ++ [b]) r = deref h0 r.
Proof. intros H. unfold deref. by rewrite lookup_app_l. Qed.

Lemma createDifferenceData_spec h a intensity r recon :
  M.rawIntensityData (M.imageProcessor a) = Some intensity ->
  M.lastReconstructed (M.imageProcessor a) = Some r ->
  h !! r = Some recon ->
  exists diff,
    M.createDifferenceData (h, a) =
      (M.Normal, (h ++ [diff], M.set_differenceData (Some (length h)) a)) /\
    length diff = length intensity /\
    forall i : nat, (i < length intensity)%nat ->
      diff !! i = Some (difference_at (read intensity (Z.of_nat i)) (read recon (Z.of_nat i))).
Proof.
  intros Hraw Hlast Hr. unfold M.createDifferenceData.
  rewrite Hraw, Hlast. unfold alloc. cbv zeta beta iota.
  set (n := Z.of_nat (length intensity)).
  assert (r < length h)%nat as Hrl by (by eapply lookup_lt_Some).
  set (P := fun (t : Z) (fl : flow (list (list number)) M.completion) =>
    exists b, fl = Next (h ++ [b]) /\ length b = length intensity /\
      forall i : nat, Z.of_nat i < t ->
        b !! i = Some (difference_at (read intensity (Z.of_nat i)) (read recon (Z.of_nat i)))).
  match goal with
  | |- context [match ?L with Next _ => _ | Return _ _ => _ end] =>
      assert (P n L) as (b & -> & HL & HW)
  end.
  { apply (for_return_ind P); [lia| | |].
    - exists (new_Float32Array n). repeat split.
      + unfold new_Float32Array, n. rewrite length_replicate. lia.
      + intros; lia.
    - intros i h' Hi (b & [= ->] & HL & HW).
      rewrite deref_app_l by done.
      assert (deref h r = recon) as -> by (unfold deref; by rewrite Hr).
      assert (forall v, exists b', store (length h) i v (h ++ [b]) = h ++ [b'] /\
                 length b' = length intensity /\
                 forall j : nat, Z.of_nat j < i + 1 ->
                   b' !! j = Some (if decide (Z.of_nat j = i) then fround v
                                   else difference_at (read intensity (Z.of_nat j)) (read recon (Z.of_nat j))))
        as Hstore.
      { intros v. rewrite store_last. eexists. split; [reflexivity|].
        split; [by rewrite write_length|].
        intros j Hj. rewrite write_lookup by lia.
        case_decide; [done|]. apply HW. lia. }
      destruct (isFinite (read intensity i)) eqn:Fi; [destruct (isFinite (read recon i)) eqn:Fr|].
      + destruct (Hstore (Math_abs (fsub (read intensity i) (read recon i)))) as (b' & -> & L' & W').
        exists b'. repeat split; [done|]. intros j Hj. rewrite W' by done.
        case_decide as E; [|done]. subst i. unfold difference_at. by rewrite Fi, Fr.
      + destruct (Hstore (Fin 0)) as (b' & -> & L' & W').
        exists b'. repeat split; [done|]. intros j Hj. rewrite W' by done.
        case_decide as E; [|done]. subst i. unfold difference_at. by rewrite Fi, Fr.
      + destruct (Hstore (Fin 0)) as (b' & -> & L' & W').
        exists b'. repeat split; [done|]. intros j Hj. rewrite W' by done.
        case_decide as E; [|done]. subst i. unfold difference_at. by rewrite Fi.
    - intros i r' s _ (b & [=] & _). }
  exists b. repeat split; [done|]. intros i Hi. apply HW. lia.
Qed.

Lemma round_mag_pos_or_inf f n :
  0 <= n -> round f n 1 = PosInf \/ exists k, round f n 1 = Fin k /\ 0 <= k.
Proof.
  intros Hn. unfold round. destruct (Z.leb_spec 0 n); [|lia].
  pose proof (round_mag_nonneg f n 1 eq_refl Hn).
  destruct (_ <? _); eauto.
Qed.

Lemma difference_at_nonneg ai bi : fle (Fin 0) (difference_at ai bi) = true.
Proof.
  unfold difference_at.
  destruct ai as [| | |x]; try reflexivity.
  destruct bi as [| | |y]; try reflexivity.
  simpl andb. cbv iota.
  unfold fsub, fneg, fadd.
  assert (exists w, Math_abs (round binary64 (x + - y) 1) = w /\
                    (w = PosInf \/ exists k, w = Fin k /\ 0 <= k)) as (w & -> & Hw).
  { eexists. split; [reflexivity|]. unfold round.
    destruct (_ <=? _); destruct (_ <? _); simpl; eauto; right; eexists; split; try reflexivity; lia. }
  destruct Hw as [->|(k & -> & Hk)]; [reflexivity|].
  simpl fround.
  destruct (round_mag_pos_or_inf binary32 k Hk) as [->|(k' & -> & Hk')]; [reflexivity|].
  simpl. by apply Z.leb_le.
Qed.

(** ** Normalization ranges *)

Lemma finite_entries_snoc buf v :
  finite_entries (buf ++ [v]) = finite_entries buf ++ (if isFinite v then [v] else []).
Proof. unfold finite_entries. rewrite List.filter_app. simpl. by destruct (isFinite v). Qed.

Lemma finite_entries_finite buf v : v ∈ finite_entries buf -> exists x, v = Fin x.
Proof.
  intros H. apply list_elem_of_In, filter_In in H as [_ H].
  destruct v; try discriminate. eauto.
Qed.

Lemma scanned_snoc buf v mn mx :
  scanned buf mn mx ->
  scanned (buf ++ [v]) (fst (scan_step v (mn, mx))) (snd (scan_step v (mn, mx))).
Proof.
  unfold scanned, scan_step. rewrite finite_entries_snoc.
  destruct (isFinite v) eqn:Fv; simpl fst; simpl snd.
  2:{ by rewrite app_nil_r. }
  destruct v as [| | |x]; try discriminate.
  destruct (finite_entries buf) as [|w ws] eqn:E.
  - intros [-> ->]. simpl. repeat split; try apply list_elem_of_here.
    repeat constructor; simpl; apply Z.leb_refl.
  - intros (Hmn & Hmx & Hall).
    destruct (finite_entries_finite buf mn ltac:(by rewrite E)) as [a ->].
    destruct (finite_entries_finite buf mx ltac:(by rewrite E)) as [b ->].
    unfold fgt. simpl flt.
    assert (a <= b) as Hab.
    { rewrite Forall_forall in Hall. destruct (Hall _ Hmn) as [_ H]. by apply Z.leb_le. }
    change (match (w :: ws) ++ [Fin x] with [] => _ | _ :: _ => ?P end) with P.
    split; [|split].
    + apply elem_of_app. destruct (Z.ltb_spec x a); [right; apply list_elem_of_singleton|left]; done.
    + apply elem_of_app. destruct (Z.ltb_spec b x); [right; apply list_elem_of_singleton|left]; done.
    + apply Forall_app. split.
      * eapply Forall_impl; [exact Hall|]. intros u [H1 H2].
        destruct u as [| | |u]; try discriminate. simpl in *.
        apply Z.leb_le in H1, H2.
        destruct (Z.ltb_spec x a), (Z.ltb_spec b x); simpl; split; apply Z.leb_le; lia.
      * repeat constructor;
        destruct (Z.ltb_spec x a), (Z.ltb_spec b x); simpl; apply Z.leb_le; lia.
Qed.

Lemma take_snoc_read (l : list number) (i : nat) :
  finite_entries (take (S i) l) = finite_entries (take i l ++ [read l (Z.of_nat i)]).
Proof.
  destruct (l !! i) as [v|] eqn:E.
  - rewrite (take_S_r l i v E). by rewrite (read_lookup l i v E).
  - rewrite !take_ge by (apply lookup_ge_None in E; lia).
    rewrite finite_entries_snoc. unfold read.
    destruct (Z.ltb_spec (Z.of_nat i) 0); [lia|]. rewrite Nat2Z.id, E. simpl.
    by rewrite app_nil_r.
Qed.

Lemma scanned_take_step (l : list number) (i : nat) mn mx :
  scanned (take i l) mn mx ->
  scanned (take (S i) l)
    (fst (scan_step (read l (Z.of_nat i)) (mn, mx)))
    (snd (scan_step (read l (Z.of_nat i)) (mn, mx))).
Proof.
  intros H. apply scanned_snoc with (v := read l (Z.of_nat i)) in H.
  unfold scanned in *. by rewrite take_snoc_read.
Qed.

Lemma scanned_take_step_Z (l : list number) (i : Z) mn mx :
  0 <= i ->
  scanned (take (Z.to_nat i) l) mn mx ->
  scanned (take (S (Z.to_nat i)) l)
    (fst (scan_step (read l i) (mn, mx)))
    (snd (scan_step (read l i) (mn, mx))).
Proof.
  intros Hi H. pose proof (scanned_take_step l (Z.to_nat i) mn mx H) as H'.
  by rewrite Z2Nat.id in H' by lia.
Qed.

Lemma scan_intensity_fields v p :
  (M.intensityMin (M.scan_intensity v p), M.intensityMax (M.scan_intensity v p)) =
    scan_step v (M.intensityMin p, M.intensityMax p) /\
  M.surfaceMin (M.scan_intensity v p) = M.surfaceMin p /\
  M.surfaceMax (M.scan_intensity v p) = M.surfaceMax p /\
  same_scan p (M.scan_intensity v p).
Proof.
  unfold M.scan_intensity, scan_step, same_scan.
  destruct (isFinite v); [|done]. simpl.
  destruct (flt v (M.intensityMin p)); simpl;
  destruct (fgt v (M.intensityMax p)); simpl; done.
Qed.

Lemma scan_surface_fields v p :
  (M.surfaceMin (M.scan_surface v p), M.surfaceMax (M.scan_surface v p)) =
    scan_step v (M.surfaceMin p, M.surfaceMax p) /\
  M.intensityMin (M.scan_surface v p) = M.intensityMin p /\
  M.intensityMax (M.scan_surface v p) = M.intensityMax p /\
  same_scan p (M.scan_surface v p).
Proof.
  unfold M.scan_surface, scan_step, same_scan.
  destruct (isFinite v); [|done]. simpl.
  destruct (flt v (M.surfaceMin p)); simpl;
  destruct (fgt v (M.surfaceMax p)); simpl; done.
Qed.

Lemma scanned_nil : scanned [] PosInf NegInf.
Proof. by unfold scanned. Qed.

Lemma calculateNormalization_spec p intensity surface :
  M.rawIntensityData p = Some intensity ->
  M.rawSurfaceData p = Some surface ->
  exists p' imax smax,
    M.calculateNormalization p = Some p' /\
    same_scan p p' /\
    scanned intensity (M.intensityMin p') imax /\
    M.intensityMax p' = widen_max (M.intensityMin p') imax /\
    scanned (take (length intensity) surface) (M.surfaceMin p') smax /\
    M.surfaceMax p' = widen_max (M.surfaceMin p') smax.
Proof.
  intros HI HS. unfold M.calculateNormalization. simpl. rewrite HI, HS.
  set (p0 := M.set_surfaceMax _ _).
  set (Inv := fun (i : Z) (q : M.ImageProcessor) =>
    same_scan p q /\
    scanned (take (Z.to_nat i) intensity) (M.intensityMin q) (M.intensityMax q) /\
    scanned (take (Z.to_nat i) surface) (M.surfaceMin q) (M.surfaceMax q)).
  match goal with
  | |- context [M.widen ?L] => assert (Inv (Z.of_nat (length intensity)) L) as (HF & Hi & Hs)
  end.
  { apply (for_range_ind Inv); [lia| |].
    - repeat split; apply scanned_nil.
    - intros i q Hi (HF & Hsi & Hss).
      destruct (scan_intensity_fields (read intensity i) q) as (E1 & E2 & E3 & F1).
      destruct (scan_surface_fields (read surface i) (M.scan_intensity (read intensity i) q))
        as (E4 & E5 & E6 & F2).
      unfold Inv. replace (Z.to_nat (i + 1)) with (S (Z.to_nat i)) by lia.
      split; [|split].
      + unfold same_scan in *. intuition congruence.
      + rewrite E5, E6.
        pose proof (f_equal fst E1) as Ea. pose proof (f_equal snd E1) as Eb.
        simpl in Ea, Eb. rewrite Ea, Eb.
        apply scanned_take_step_Z; [lia|done].
      + pose proof (f_equal fst E4) as Ea. pose proof (f_equal snd E4) as Eb.
        simpl in Ea, Eb. rewrite Ea, Eb, E2, E3.
        apply scanned_take_step_Z; [lia|done]. }
  match goal with | |- context [M.widen ?L] => set (q := L) in * end.
  rewrite Nat2Z.id in Hi, Hs. rewrite take_ge in Hi by lia.
  exists (M.widen q), (M.intensityMax q), (M.surfaceMax q).
  unfold M.widen, widen_max, same_scan in *.
  destruct (feq (M.intensityMax q) (M.intensityMin q)) eqn:E1; simpl;
  destruct (feq (M.surfaceMax q) (M.surfaceMin q)) eqn:E2; simpl;
    rewrite ?E1, ?E2; intuition.
Qed.

Lemma round64_int j :
  - 2 ^ 53 <= j <= 2 ^ 53 -> round binary64 (j * U) 1 = Fin (j * U).
Proof.
  intros Hj. pose proof U_pos.
  assert (forall m, 0 <= m <= 2 ^ 53 -> round_mag binary64 (m * U) 1 = m * U /\
                                         m * U < 2 ^ maxbits binary64) as Hm.
  { intros m Hm. split.
    - destruct (Z.eq_dec m (2 ^ 53)) as [->|].
      + change (2 ^ 53 * U) with (2 ^ 52 * 2 ^ 1075).
        apply round_mag64_exact; lia.
      + unfold U. apply round_mag64_exact; lia.
    - simpl maxbits. change (2 ^ 2098) with (2 ^ 1024 * U).
      assert (2 ^ 53 < 2 ^ 1024) by (apply Z.pow_lt_mono_r; lia). nia. }
  unfold round. destruct (Z.leb_spec 0 (j * U)).
  - destruct (Hm j ltac:(nia)) as [-> Hlt].
    destruct (Z.ltb_spec (j * U) (2 ^ maxbits binary64)); [done|lia].
  - replace (- (j * U)) with (- j * U) by ring.
    destruct (Hm (- j) ltac:(nia)) as [-> Hlt].
    destruct (Z.ltb_spec (- j * U) (2 ^ maxbits binary64)); [|lia].
    f_equal. ring.
Qed.

Lemma fadd_one_differs k :
  - (2 ^ 53 * U) < k < 2 ^ 53 * U -> feq (fadd (Fin k) (of_Z 1)) (Fin k) = false.
Proof.
  intros Hk. pose proof U_pos.
  rewrite (of_Z_exact 1) by lia. unfold fadd.
  set (j := k / U + 1).
  pose proof (Z.div_mod k U ltac:(lia)) as Hd.
  pose proof (Z.mod_pos_bound k U ltac:(lia)) as Hb.
  assert (k < j * U <= k + 1 * U) as Hj by (unfold j; nia).
  assert (- 2 ^ 53 <= j <= 2 ^ 53) as Hjb by (unfold j; nia).
  pose proof (round_mono binary64 (j * U) (k + 1 * U) 1
                ltac:(simpl; lia) ltac:(simpl; lia) ltac:(lia) ltac:(lia)) as Hm.
  rewrite round64_int in Hm by lia.
  destruct (round binary64 (k + 1 * U) 1) as [| | |y]; simpl in *; try done.
  apply Z.leb_le in Hm. apply Z.eqb_neq. lia.
Qed.

Lemma widen_max_differs k mx :
  - (2 ^ 53 * U) < k < 2 ^ 53 * U ->
  feq (widen_max (Fin k) mx) (Fin k) = false.
Proof.
  intros Hk. unfold widen_max. destruct (feq mx (Fin k)) eqn:E.
  - by apply fadd_one_differs.
  - exact E.
Qed.

Lemma usable_isFinite v : D.usable v = isFinite v.
Proof. by destruct v. Qed.

Lemma Demo_calculateNormalizationParams_spec p intensity surface :
  D.rawIntensityData p = Some intensity ->
  D.rawSurfaceData p = Some surface ->
  exists p' imax smax,
    D.calculateNormalizationParams p = Some p' /\
    Demo_same_scan p p' /\
    scanned intensity (D.intensityMin p') imax /\
    D.intensityMax p' = widen_max (D.intensityMin p') imax /\
    scanned surface (D.surfaceMin p') smax /\
    D.surfaceMax p' = widen_max (D.surfaceMin p') smax.
Proof.
  intros HI HS. unfold D.calculateNormalizationParams. rewrite HI. cbv zeta.
  set (Inv1 := fun (i : Z) (q : D.ImageProcessor) =>
    Demo_same_scan p q /\
    scanned (take (Z.to_nat i) intensity) (D.intensityMin q) (D.intensityMax q)).
  match goal with
  | |- context [D.set_surfaceMin PosInf ?L] =>
      assert (Inv1 (Z.of_nat (length intensity)) L) as (HF & Hi); [|set (q1 := L) in *]
  end.
  { apply (for_range_ind Inv1); [lia| |].
    - split; [done|]. apply scanned_nil.
    - intros i q Hi (HF & Hsi). unfold Inv1.
      replace (Z.to_nat (i + 1)) with (S (Z.to_nat i)) by lia.
      pose proof (scanned_take_step_Z intensity i _ _ ltac:(lia) Hsi) as Hstep.
      unfold scan_step in Hstep. rewrite usable_isFinite.
      unfold fgt in *. simpl fst in Hstep. simpl snd in Hstep.
      destruct (isFinite (read intensity i)); [|done].
      destruct (flt (read intensity i) (D.intensityMin q)); simpl;
      destruct (flt (D.intensityMax q) (read intensity i));
        unfold Demo_same_scan in *; simpl in *; (split; [exact HF | exact Hstep]). }
  rewrite Nat2Z.id in Hi. rewrite take_ge in Hi by lia.
  replace (D.rawSurfaceData (D.set_surfaceMax NegInf (D.set_surfaceMin PosInf q1)))
    with (Some surface) by (simpl; destruct HF as (_ & -> & _); done).
  set (Inv2 := fun (i : Z) (q : D.ImageProcessor) =>
    Demo_same_scan p q /\
    D.intensityMin q = D.intensityMin q1 /\ D.intensityMax q = D.intensityMax q1 /\
    scanned (take (Z.to_nat i) surface) (D.surfaceMin q) (D.surfaceMax q)).
  match goal with
  | |- context [feq (D.intensityMax ?L) _] =>
      assert (Inv2 (Z.of_nat (length surface)) L) as (HF2 & E1 & E2 & Hs); [|set (q2 := L) in *]
  end.
  { apply (for_range_ind Inv2); [lia| |].
    - split; [done|]. split; [done|]. split; [done|]. apply scanned_nil.
    - intros i q Hi' (HF' & E1 & E2 & Hss). unfold Inv2.
      replace (Z.to_nat (i + 1)) with (S (Z.to_nat i)) by lia.
      pose proof (scanned_take_step_Z surface i _ _ ltac:(lia) Hss) as Hstep.
      unfold scan_step in Hstep. rewrite usable_isFinite.
      unfold fgt in *. simpl fst in Hstep. simpl snd in Hstep.
      destruct (isFinite (read surface i)); [|done].
      destruct (flt (read surface i) (D.surfaceMin q)); simpl;
      destruct (flt (D.surfaceMax q) (read surface i));
        unfold Demo_same_scan in *; simpl in *; (split; [exact HF' | done]). }
  rewrite Nat2Z.id in Hs. rewrite take_ge in Hs by lia.
  rewrite <- E1, <- E2 in Hi.
  eexists _, (D.intensityMax q2), (D.surfaceMax q2). split; [reflexivity|].
  unfold widen_max, Demo_same_scan in *.
  destruct (feq (D.intensityMax q2) (D.intensityMin q2)) eqn:F1; simpl;
  destruct (feq (D.surfaceMax q2) (D.surfaceMin q2)) eqn:F2; simpl;
    rewrite ?F1, ?F2; intuition.
Qed.

Lemma Demo_createDifferenceImage_spec h p intensity r recon :
  D.rawIntensityData p = Some intensity ->
  D.lastReconstructed p = Some r ->
  h !! r = Some recon ->
  length recon = length intensity ->
  exists diff err,
    D.createDifferenceImage h p = (h ++ [diff], Some (length h), err) /\
    length diff = length intensity /\
    forall i : nat, (i < length intensity)%nat ->
      diff !! i = Some (difference_at (read intensity (Z.of_nat i)) (read recon (Z.of_nat i))).
Proof.
  intros Hraw Hlast Hr Hlen. unfold D.createDifferenceImage.
  rewrite Hraw, Hlast.
  assert (deref h r = recon) as Hd by (unfold deref; by rewrite Hr).
  rewrite Hd, Hlen, Z.eqb_refl. simpl negb. cbv iota.
  unfold alloc. cbv zeta beta iota.
  assert (r < length h)%nat as Hrl by (by eapply lookup_lt_Some).
  set (n := Z.of_nat (length intensity)).
  set (P := fun (t : Z) (st : list (list number) * Z) =>
    exists b, fst st = h ++ [b] /\ length b = length intensity /\
      forall i : nat, Z.of_nat i < t ->
        b !! i = Some (difference_at (read intensity (Z.of_nat i)) (read recon (Z.of_nat i)))).
  match goal with
  | |- context [let '(_, _) := ?L in _] => assert (P n L) as HP; [|destruct L as [h' c]]
  end.
  { apply (for_range_ind P); [lia| |].
    - exists (new_Float32Array n). repeat split.
      + unfold new_Float32Array, n. rewrite length_replicate. lia.
      + intros; lia.
    - intros i [h' c] Hi (b & Hh & HL & HW). simpl in Hh. subst h'.
      rewrite deref_app_l by done. rewrite Hd.
      rewrite !usable_isFinite.
      assert (forall v, exists b', store (length h) i v (h ++ [b]) = h ++ [b'] /\
                 length b' = length intensity /\
                 forall j : nat, Z.of_nat j < i + 1 ->
                   b' !! j = Some (if decide (Z.of_nat j = i) then fround v
                                   else difference_at (read intensity (Z.of_nat j)) (read recon (Z.of_nat j))))
        as Hstore.
      { intros v. rewrite store_last. eexists. split; [reflexivity|].
        split; [by rewrite write_length|].
        intros j Hj. rewrite write_lookup by lia.
        case_decide; [done|]. apply HW. lia. }
      destruct (isFinite (read intensity i) && isFinite (read recon i)) eqn:F.
      + destruct (Hstore (Math_abs (fsub (read intensity i) (read recon i)))) as (b' & E & L' & W').
        exists b'. simpl. split; [done|]. split; [done|]. intros j Hj. rewrite W' by done.
        case_decide as E'; [|done]. subst i. unfold difference_at. by rewrite F.
      + destruct (Hstore (Fin 0)) as (b' & E & L' & W').
        exists b'. simpl. split; [done|]. split; [done|]. intros j Hj. rewrite W' by done.
        case_decide as E'; [|done]. subst i. unfold difference_at. by rewrite F. }
  destruct HP as (b & Hh & HL & HW). simpl in Hh. subst h'.
  exists b. destruct (c =? 0); eexists; (split; [reflexivity|]);
    (split; [done|]); intros i Hi; apply HW; lia.
Qed.

(** ** The grid loop and the round trip *)

Lemma grid_loop_outputs m a :
  (forall gridX gridY, exists tile out,
      M.processCrop (M.imageProcessor a) gridX gridY = Some tile /\
      M.inference m tile = Some out) ->
  exists a' outputs,
    M.grid_loop m a = Next (a', outputs) /\
    M.imageProcessor a' = M.imageProcessor a /\
    M.isRunning a' = M.isRunning a /\
    Z.of_nat (length outputs) = 16 /\
    forall gridX gridY, 0 <= gridX < 4 -> 0 <= gridY < 4 ->
      exists tile,
        M.processCrop (M.imageProcessor a) gridX gridY = Some tile /\
        M.inference m tile = outputs !! Z.to_nat (gridY * 4 + gridX).
Proof.
  intros Hall. unfold M.grid_loop.
  set (P := fun (t : Z) (fl : flow (M.App * list (list number)) unit) =>
    exists a' outputs, fl = Next (a', outputs) /\
      M.imageProcessor a' = M.imageProcessor a /\
      M.isRunning a' = M.isRunning a /\
      Z.of_nat (length outputs) = t /\
      forall gridX gridY, 0 <= gridX < 4 -> 0 <= gridY -> gridY * 4 + gridX < t ->
        exists tile,
          M.processCrop (M.imageProcessor a) gridX gridY = Some tile /\
          M.inference m tile = outputs !! Z.to_nat (gridY * 4 + gridX)).
  cut (P 16 (for_return 0 4 (fun gridY st => for_return 0 4 (M.grid_cell m gridY) st) (a, []))).
  { intros (a' & outputs & E & H1 & H2 & H3 & H4). exists a', outputs.
    repeat split; try done. intros gx gy Hx Hy. apply H4; lia. }
  apply (for_return_ind (fun gridY fl => P (gridY * 4) fl)); [lia| | |].
  - exists a, []. repeat split; try done. intros; lia.
  - intros gridY st HY HP.
    replace ((gridY + 1) * 4) with (gridY * 4 + 4) by ring.
    apply (for_return_ind (fun gridX fl => P (gridY * 4 + gridX) fl)); [lia| | |].
    + by rewrite Z.add_0_r.
    + intros gridX [a1 outs] HX (a' & outputs & [= -> ->] & H1 & H2 & H3 & H4).
      unfold M.grid_cell. cbv zeta. simpl M.imageProcessor. rewrite H1.
      destruct (Hall gridX gridY) as (tile & out & Ht & Ho). rewrite Ht, Ho.
      eexists _, _. split; [reflexivity|]. simpl.
      split; [done|]. split; [done|]. split; [rewrite length_app; simpl; lia|].
      intros gx gy Hgx Hgy Hlt.
      destruct (Z.eq_dec (gy * 4 + gx) (gridY * 4 + gridX)) as [E|NE].
      * assert (gy = gridY /\ gx = gridX) as [-> ->] by lia.
        exists tile. split; [done|]. rewrite Ho.
        rewrite lookup_app_r by lia.
        replace (Z.to_nat (gridY * 4 + gridX) - length outputs)%nat with 0%nat by lia.
        reflexivity.
      * destruct (H4 gx gy Hgx Hgy ltac:(lia)) as (t' & E1 & E2).
        exists t'. split; [done|]. rewrite E2. rewrite lookup_app_l by lia. reflexivity.
    + intros gridX r s _ (a' & outputs & [=] & _).
  - intros gridY r s _ (a' & outputs & [=] & _).
Qed.

(** C2: for a 1024 x 1024 scan and the identity backend, the grid loop
    collects the 16 tiles of [processCrop] in row-major order,
    [combineOutputs] accepts them, and the reconstruction holds at every
    index the sample of the scan after the affine transform and its
    inverse, each in double arithmetic and stored as float32. *)
Theorem identity_backend_roundtrip h a intensity :
  M.rawIntensityData (M.imageProcessor a) = Some intensity ->
  Z.of_nat (length intensity) = 1048576 ->
  M.width (M.imageProcessor a) = 1024 ->
  M.height (M.imageProcessor a) = 1024 ->
  exists a' outputs reconstruction,
    M.grid_loop identity_model a = Next (a', outputs) /\
    M.imageProcessor a' = M.imageProcessor a /\
    (forall gridX gridY, 0 <= gridX < 4 -> 0 <= gridY < 4 ->
       outputs !! Z.to_nat (gridY * 4 + gridX) =
       M.processCrop (M.imageProcessor a) gridX gridY) /\
    M.combineOutputs outputs (h, M.imageProcessor a') =
      (true, (h ++ [reconstruction],
              M.set_lastReconstructed (Some (length h)) (M.imageProcessor a))) /\
    length reconstruction = length intensity /\
    forall (i : nat) v, intensity !! i = Some v ->
      reconstruction !! i = Some (roundtrip v).
Proof.
  intros Hraw Hlen Hw Hh.
  destruct (grid_loop_outputs identity_model a) as (a' & outputs & E & Hip & _ & Hn & Hout).
  { intros gx gy. destruct (processCrop_spec _ _ gx gy Hraw) as (t & Ht & _).
    exists t, t. by split. }
  assert (forall gridX gridY, 0 <= gridX < 4 -> 0 <= gridY < 4 ->
            outputs !! Z.to_nat (gridY * 4 + gridX) =
            M.processCrop (M.imageProcessor a) gridX gridY) as Htiles.
  { intros gx gy Hx Hy. destruct (Hout gx gy Hx Hy) as (t & E1 & E2).
    rewrite E1, <- E2. reflexivity. }
  assert (Forall (fun out => Z.of_nat (length out) = 65536) outputs) as Hall.
  { apply Forall_lookup_2. intros k out Hk.
    pose proof (lookup_lt_Some _ _ _ Hk) as Hlt.
    specialize (Htiles (Z.of_nat k mod 4) (Z.of_nat k / 4)
                  ltac:(Z.div_mod_to_equations; lia) ltac:(Z.div_mod_to_equations; lia)).
    replace (Z.to_nat (Z.of_nat k / 4 * 4 + Z.of_nat k mod 4)) with k in Htiles
      by (Z.div_mod_to_equations; lia).
    destruct (processCrop_spec _ _ (Z.of_nat k mod 4) (Z.of_nat k / 4) Hraw) as (t & Ht & HL & _).
    rewrite Ht, Hk in Htiles. by injection Htiles as ->. }
  destruct (combineOutputs_ok outputs h (M.imageProcessor a') Hn Hall) as (b & Ec & Lb & Wb).
  rewrite Hip in Ec, Lb. rewrite Hw, Hh in Lb.
  assert (length b = length intensity) as Hbl by lia.
  exists a', outputs, b.
  split; [exact E|]. split; [exact Hip|]. split; [exact Htiles|].
  split; [rewrite Hip; exact Ec|]. split; [exact Hbl|].
  { intros i v Hi.
    pose proof (lookup_lt_Some _ _ _ Hi) as Hlt.
    assert (0 <= Z.of_nat i < 1048576) as Hrange by lia.
    specialize (Wb (Z.of_nat i) ltac:(lia) ltac:(lia)).
    rewrite Nat2Z.id in Wb. rewrite Wb.
    destruct (Z.ltb_spec (Z.of_nat i) 1048576); [|lia].
    assert (0 <= rank (Z.of_nat i) < 1048576) as Hrk.
    { unfold rank, cell_gridY, cell_gridX, cell_y, cell_x. Z.div_mod_to_equations. lia. }
    destruct (Z.ltb_spec (rank (Z.of_nat i)) 1048576); [|lia]. simpl. f_equal.
    destruct (fullIdx_of_cell (Z.of_nat i) Hrange) as [(Hgx & Hgy & Hx & Hy) Hfull].
    unfold recon_cell, roundtrip. rewrite (Htiles _ _ Hgx Hgy).
    destruct (processCrop_spec _ _ (cell_gridX (Z.of_nat i)) (cell_gridY (Z.of_nat i)) Hraw)
      as (t & -> & _ & Hcell).
    simpl default. specialize (Hcell _ _ Hx Hy). rewrite Hfull in Hcell.
    rewrite (read_lookup intensity i v Hi) in Hcell.
    unfold read. destruct (Z.ltb_spec (cell_y (Z.of_nat i) * 256 + cell_x (Z.of_nat i)) 0); [lia|].
    rewrite Hcell. reflexivity. }
Qed.

(** C9: the 16 tiles partition the 1,048,576 pixel indices.  Every flat
    index [i] of a 1024 x 1024 scan is the index expression of exactly
    one combination [(gridX, gridY, x, y)] of the loop counters; that
    combination is the one at which [processCrop] reads [intensity[i]]
    and at which [combineOutputs] writes position [i]. *)
Theorem grid_partition i :
  0 <= i < 1048576 ->
  exists gridX gridY x y,
    in_grid gridX gridY x y /\ fullIdx gridX gridY x y = i /\
    (forall gridX' gridY' x' y',
       in_grid gridX' gridY' x' y' -> fullIdx gridX' gridY' x' y' = i ->
       gridX' = gridX /\ gridY' = gridY /\ x' = x /\ y' = y) /\
    (forall p intensity,
       M.rawIntensityData p = Some intensity ->
       exists tile,
         M.processCrop p gridX gridY = Some tile /\
         tile !! Z.to_nat (y * 256 + x) = Some (fround (normalize (read intensity i)))) /\
    (forall outputs h p,
       Z.of_nat (length outputs) = 16 ->
       Forall (fun out => Z.of_nat (length out) = 65536) outputs ->
       M.width p = 1024 -> M.height p = 1024 ->
       exists b,
         M.combineOutputs outputs (h, p) =
           (true, (h ++ [b], M.set_lastReconstructed (Some (length h)) p)) /\
         b !! Z.to_nat i =
           Some (fround (denormalize
                   (read (default [] (outputs !! Z.to_nat (gridY * 4 + gridX)))
                      (y * 256 + x))))).
Proof.
  intros Hi.
  destruct (fullIdx_of_cell i Hi) as [Hg Hfull].
  exists (cell_gridX i), (cell_gridY i), (cell_x i), (cell_y i).
  split; [exact Hg|]. split; [exact Hfull|]. split; [|split].
  - intros gx gy x y Hg' E.
    destruct (cell_of_fullIdx gx gy x y Hg') as (_ & E1 & E2 & E3 & E4).
    rewrite E in E1, E2, E3, E4. by rewrite E1, E2, E3, E4.
  - intros p intensity Hraw.
    destruct (processCrop_spec p intensity (cell_gridX i) (cell_gridY i) Hraw) as (t & Ht & _ & Hc).
    exists t. split; [exact Ht|].
    destruct Hg as (_ & _ & Hx & Hy). rewrite (Hc _ _ Hx Hy), Hfull. reflexivity.
  - intros outputs h p Hn Hall Hw Hh.
    destruct (combineOutputs_ok outputs h p Hn Hall) as (b & Ec & Lb & Wb).
    exists b. split; [exact Ec|]. rewrite Hw, Hh in Lb.
    rewrite (Wb i ltac:(lia) ltac:(lia)).
    assert (0 <= rank i < 1048576) as Hrk.
    { unfold rank, cell_gridY, cell_gridX, cell_y, cell_x. Z.div_mod_to_equations. lia. }
    destruct (Z.ltb_spec i 1048576); [|lia].
    destruct (Z.ltb_spec (rank i) 1048576); [|lia]. reflexivity.
Qed.

(** ** The re-entrancy guard *)

Lemma runInference_guard h a :
  M.isRunning a = true \/ M.model a = None \/ M.imageLoaded a = false ->
  M.runInference (h, a) = (h, a).
Proof.
  intros H. unfold M.runInference.
  destruct H as [-> | [-> | ->]].
  - reflexivity.
  - simpl. by rewrite orb_true_r.
  - simpl. by rewrite orb_true_r.
Qed.

(** C8: [runInference] called while a run is in flight, without a model
    or without a loaded scan returns at once, without an exception, and
    leaves the whole state as it was: the heap with the reconstruction
    and difference buffers, and every field of the application. *)
Theorem runInference_rejected h a :
  M.isRunning a = true \/ M.model a = None \/ M.imageLoaded a = false ->
  M.runInference (h, a) = (h, a).
Proof. apply runInference_guard. Qed.





(** ** The percentile threshold *)

Lemma percentileThreshold_pick diffs p :
  M.percentileThreshold diffs p = percentile_pick (List.filter M.validDiff diffs) p.
Proof. reflexivity. Qed.

Lemma Demo_percentileThreshold_pick diffs p :
  D.percentileThreshold diffs p = percentile_pick (List.filter D.usable diffs) p.
Proof. reflexivity. Qed.

Lemma percentile_pick_value valid x :
  0 <= x <= 100 * U -> Z.of_nat (length valid) < 2 ^ 53 ->
  Forall (fun d => isFinite d = true) valid ->
  valid <> [] ->
  exists t, percentile_pick valid (Fin x) = Some t /\ nearest_rank valid (Fin x) t.
Proof.
  intros Hx Hlen Hfin Hne.
  assert (1 <= Z.of_nat (length valid)) as Hn1.
  { destruct valid; [done|]. simpl length. lia. }
  set (sorted := Array_sort (fun a b => fsub a b) valid).
  pose proof (Array_sort_perm (fun a b => fsub a b) valid) as Hperm. fold sorted in Hperm.
  pose proof (Permutation_length Hperm) as Hpl.
  set (n := Z.of_nat (length valid)) in *.
  assert (1 <= n < 2 ^ 53) as Hn by lia.
  destruct (thresholdIdx_Fin x n Hx ltac:(lia)) as (I & EI & BI).
  destruct (lookup_lt_is_Some_2 sorted (Z.to_nat (Z.min I (n - 1))) ltac:(lia)) as [t Ht].
  exists t. split.
  - unfold percentile_pick. fold n.
    destruct (Z.eqb_spec n 0) as [E0|_]; [lia|].
    fold sorted. cbv zeta. rewrite Hpl. fold n.
    fold (thresholdIdx (Fin x) n). rewrite EI.
    rewrite fsub_of_Z_one by lia. rewrite Math_min_Fin.
    rewrite Z.mul_min_distr_nonneg_r by (pose proof U_pos; lia).
    unfold read_at. rewrite index_of_int by lia. rewrite Ht. reflexivity.
  - exists sorted, I. split; [exact Hperm|]. split; [by apply Array_sort_sorted|].
    split; [exact EI|]. split; [exact BI|exact Ht].
Qed.

Lemma nearest_rank_elem valid p t : nearest_rank valid p t -> t ∈ valid.
Proof.
  intros (sorted & I & Hperm & _ & _ & _ & Ht).
  rewrite <- Hperm. by eapply list_elem_of_lookup_2.
Qed.

Lemma nearest_rank_mono valid x1 x2 t1 t2 :
  0 <= x1 <= x2 -> x2 <= 100 * U -> Z.of_nat (length valid) < 2 ^ 53 ->
  Forall (fun d => isFinite d = true) valid ->
  nearest_rank valid (Fin x1) t1 -> nearest_rank valid (Fin x2) t2 ->
  fle t1 t2 = true.
Proof.
  intros Hx Hx2 Hlen Hfin (s1 & I1 & P1 & S1 & E1 & B1 & L1) (s2 & I2 & P2 & S2 & E2 & B2 & L2).
  assert (s1 = s2) as ->.
  { apply (StronglySorted_unique_strong leN); [|exact S1|exact S2|].
    2:{ rewrite P1, P2. reflexivity. }
    intros a b Ha Hb Hab Hba.
    assert (a ∈ valid) as Ha' by (rewrite <- P1; exact Ha).
    assert (b ∈ valid) as Hb' by (rewrite <- P2; exact Hb).
    rewrite Forall_forall in Hfin.
    pose proof (Hfin a Ha') as Fa. pose proof (Hfin b Hb') as Fb.
    destruct a as [| | |a]; try discriminate Fa. destruct b as [| | |b]; try discriminate Fb.
    apply leN_Fin in Hab, Hba. f_equal. clear -Hab Hba. lia. }
  pose proof (thresholdIdx_mono x1 x2 (Z.of_nat (length valid)) Hx Hx2 ltac:(lia)) as Hm.
  rewrite E1, E2 in Hm. apply leN_Fin in Hm.
  assert (I1 <= I2) as HI by (apply (Z.mul_le_mono_pos_r _ _ U U_pos); exact Hm).
  set (n := Z.of_nat (length valid)) in *.
  destruct (Z.eq_dec (Z.min I1 (n - 1)) (Z.min I2 (n - 1))) as [E|NE].
  - rewrite E in L1. rewrite L1 in L2. injection L2 as ->.
    apply leN_refl. intros ->.
    assert (NaN ∈ valid) as Hin.
    { rewrite <- P2. eapply list_elem_of_lookup_2. exact L1. }
    rewrite Forall_forall in Hfin. specialize (Hfin _ Hin). discriminate Hfin.
  - eapply (StronglySorted_lookup_le leN s2); [exact S2| |exact L1|exact L2].
    clear -HI NE B1 B2. lia.
Qed.

Lemma filter_validDiff_elem diffs d :
  d ∈ List.filter M.validDiff diffs <-> d ∈ diffs /\ exists k, d = Fin k /\ 0 < k.
Proof.
  rewrite !list_elem_of_In, filter_In, validDiff_spec. reflexivity.
Qed.

Lemma filter_usable_elem diffs d :
  d ∈ List.filter D.usable diffs <-> d ∈ diffs /\ exists k, d = Fin k.
Proof.
  rewrite !list_elem_of_In, filter_In. split.
  - intros [H1 H2]. split; [exact H1|]. destruct d; try discriminate H2. eauto.
  - intros [H1 [k ->]]. split; [exact H1|reflexivity].
Qed.

Lemma validDiff_finite diffs :
  Forall (fun d => isFinite d = true) (List.filter M.validDiff diffs).
Proof.
  apply Forall_forall. intros d Hd. apply filter_validDiff_elem in Hd as [_ (k & -> & _)].
  reflexivity.
Qed.

Lemma usable_finite diffs :
  Forall (fun d => isFinite d = true) (List.filter D.usable diffs).
Proof.
  apply Forall_forall. intros d Hd. apply filter_usable_elem in Hd as [_ (k & ->)].
  reflexivity.
Qed.

Lemma filter_length_bound {A} (f : A -> bool) (l : list A) b :
  Z.of_nat (length l) < b -> Z.of_nat (length (List.filter f l)) < b.
Proof. intros H. pose proof (filter_length_le f l). lia. Qed.

Lemma updateHighlighting_short_circuit h a d :
  M.differenceData a = Some d ->
  M.percentileThreshold (deref h d) (M.currentPercentile a) = None ->
  M.updateHighlighting (h, a) = (M.Normal, (h, a)).
Proof.
  intros Hd Hn. unfold M.updateHighlighting. rewrite Hd.
  destruct (M.points a); simpl negb; cbv iota; [|reflexivity].
  rewrite Hn. reflexivity.
Qed.

(** C5, as amended: for a percentile [p] in [0, 100], [updateHighlighting]
    keeps the strictly positive finite differences, returns no threshold
    and leaves the highlighting untouched when there is none, and
    otherwise returns the element at index [min (I, n - 1)] of their
    ascending arrangement, where [I] is [Math.floor((p / 100) * n)] in
    double arithmetic.  [updatePercentileHighlighting] does the same over
    all finite differences, zeros included. *)
Theorem percentileThreshold_nearest_rank diffs x :
  0 <= x <= 100 * U -> Z.of_nat (length diffs) < 2 ^ 53 ->
  (forall d, d ∈ List.filter M.validDiff diffs <->
             d ∈ diffs /\ exists k, d = Fin k /\ 0 < k) /\
  (List.filter M.validDiff diffs = [] ->
     M.percentileThreshold diffs (Fin x) = None /\
     forall h a r, M.differenceData a = Some r -> deref h r = diffs ->
       M.currentPercentile a = Fin x ->
       M.updateHighlighting (h, a) = (M.Normal, (h, a))) /\
  (List.filter M.validDiff diffs <> [] ->
     exists t, M.percentileThreshold diffs (Fin x) = Some t /\
               nearest_rank (List.filter M.validDiff diffs) (Fin x) t) /\
  (forall d, d ∈ List.filter D.usable diffs <-> d ∈ diffs /\ exists k, d = Fin k) /\
  (List.filter D.usable diffs = [] -> D.percentileThreshold diffs (Fin x) = None) /\
  (List.filter D.usable diffs <> [] ->
     exists t, D.percentileThreshold diffs (Fin x) = Some t /\
               nearest_rank (List.filter D.usable diffs) (Fin x) t).
Proof.
  intros Hx Hlen.
  split; [apply filter_validDiff_elem|]. split; [|split; [|split; [|split]]].
  - intros He. assert (M.percentileThreshold diffs (Fin x) = None) as Hn.
    { rewrite percentileThreshold_pick, He. reflexivity. }
    split; [exact Hn|]. intros h a r Hr Hd Hp.
    apply (updateHighlighting_short_circuit h a r Hr). rewrite Hd, Hp. exact Hn.
  - intros Hne. rewrite percentileThreshold_pick.
    apply percentile_pick_value; [exact Hx| |apply validDiff_finite|exact Hne].
    by apply filter_length_bound.
  - apply filter_usable_elem.
  - intros He. rewrite Demo_percentileThreshold_pick, He. reflexivity.
  - intros Hne. rewrite Demo_percentileThreshold_pick.
    apply percentile_pick_value; [exact Hx| |apply usable_finite|exact Hne].
    by apply filter_length_bound.
Qed.

(** C6: for a difference buffer with some strictly positive finite value
    and percentiles [p1 < p2] in [0, 100], both thresholds exist and the
    threshold for [p1] is at most the threshold for [p2]. *)
Theorem percentileThreshold_monotone diffs x1 x2 :
  0 <= x1 -> x1 < x2 -> x2 <= 100 * U ->
  Z.of_nat (length diffs) < 2 ^ 53 ->
  List.filter M.validDiff diffs <> [] ->
  exists t1 t2,
    M.percentileThreshold diffs (Fin x1) = Some t1 /\
    M.percentileThreshold diffs (Fin x2) = Some t2 /\
    fle t1 t2 = true.
Proof.
  intros H0 H12 H100 Hlen Hne.
  pose proof (filter_length_bound M.validDiff diffs _ Hlen) as Hfl.
  destruct (percentile_pick_value (List.filter M.validDiff diffs) x1
              ltac:(lia) Hfl (validDiff_finite diffs) Hne) as (t1 & E1 & N1).
  destruct (percentile_pick_value (List.filter M.validDiff diffs) x2
              ltac:(lia) Hfl (validDiff_finite diffs) Hne) as (t2 & E2 & N2).
  exists t1, t2. rewrite !percentileThreshold_pick.
  split; [exact E1|]. split; [exact E2|].
  eapply (nearest_rank_mono _ x1 x2); [| |exact Hfl|apply validDiff_finite|exact N1|exact N2]; lia.
Qed.

Lemma scanned_normalization_range buf mn mx0 :
  scanned buf mn mx0 -> normalization_range buf mn (widen_max mn mx0).
Proof.
  unfold scanned, normalization_range. destruct (finite_entries buf) as [|w ws].
  - intros [-> ->]. split; [|intros H; by destruct H]. intros _. split; reflexivity.
  - intros (H1 & H2 & H3). split; [intros H; discriminate H|]. intros _.
    exists mx0. split; [exact H1|]. split; [exact H2|]. split; [exact H3|].
    split; [reflexivity|]. intros k -> Hk. by apply widen_max_differs.
Qed.

(** C3, as amended: for [gridX] and [gridY] in 0 .. 3, [processCrop] of
    the [App] front end returns a tile of 65536 elements with
    [tile[y*256 + x] = (intensity[(gridY*256 + y)*1024 + gridX*256 + x] - 50481.640625) / 16498.2578125]
    stored as float32, and a non-finite sample comes out unchanged;
    [processCrop] of the [ModelInferenceApp] front end computes the same
    from [0] in place of a non-finite sample. *)
Theorem processCrop_tile intensity gridX gridY x y :
  0 <= gridX < 4 -> 0 <= gridY < 4 ->
  0 <= x < 256 -> 0 <= y < 256 ->
  let v := read intensity (fullIdx gridX gridY x y) in
  (forall p, M.rawIntensityData p = Some intensity ->
     exists tile,
       M.processCrop p gridX gridY = Some tile /\
       Z.of_nat (length tile) = 65536 /\
       tile !! Z.to_nat (y * 256 + x) = Some (fround (fdiv (fsub v MEAN) STD)) /\
       (isFinite v = false -> tile !! Z.to_nat (y * 256 + x) = Some v)) /\
  (forall p, D.rawIntensityData p = Some intensity ->
     exists tile,
       D.processCrop p gridX gridY = Some tile /\
       Z.of_nat (length tile) = 65536 /\
       tile !! Z.to_nat (y * 256 + x) =
         Some (fround (fdiv (fsub (if isFinite v then v else Fin 0) MEAN) STD))).
Proof.
  intros _ _ Hx Hy v. split.
  - intros p Hraw.
    destruct (processCrop_spec p intensity gridX gridY Hraw) as (t & Ht & HL & Hc).
    exists t. split; [exact Ht|]. split; [exact HL|].
    specialize (Hc x y Hx Hy). fold v in Hc. split; [exact Hc|].
    intros Hnf. rewrite Hc. f_equal. by apply normalize_nonfinite.
  - intros p Hraw.
    destruct (Demo_processCrop_spec p intensity gridX gridY Hraw) as (t & Ht & HL & Hc).
    exists t. split; [exact Ht|]. split; [exact HL|].
    specialize (Hc x y Hx Hy). fold v in Hc. rewrite Hc.
    unfold replace_nonfinite. rewrite usable_isFinite. reflexivity.
Qed.

(** C7: for an intensity buffer and a reconstruction of equal length,
    entry [i] of the difference buffer is [|a[i] - b[i]|] (stored as
    float32) when both samples are finite and [0] otherwise, and it is
    not negative; in both front ends. *)
Theorem difference_entries h intensity r recon (i : nat) ai bi :
  h !! r = Some recon -> length recon = length intensity ->
  intensity !! i = Some ai -> recon !! i = Some bi ->
  let d := if isFinite ai && isFinite bi then fround (Math_abs (fsub ai bi)) else Fin 0 in
  fle (Fin 0) d = true /\
  (forall a,
     M.rawIntensityData (M.imageProcessor a) = Some intensity ->
     M.lastReconstructed (M.imageProcessor a) = Some r ->
     exists diff,
       M.createDifferenceData (h, a) =
         (M.Normal, (h ++ [diff], M.set_differenceData (Some (length h)) a)) /\
       length diff = length intensity /\ diff !! i = Some d) /\
  (forall p,
     D.rawIntensityData p = Some intensity -> D.lastReconstructed p = Some r ->
     exists diff err,
       D.createDifferenceImage h p = (h ++ [diff], Some (length h), err) /\
       length diff = length intensity /\ diff !! i = Some d).
Proof.
  intros Hr Hlen Hi Hb d.
  pose proof (lookup_lt_Some _ _ _ Hi) as Hlt.
  assert (d = difference_at (read intensity (Z.of_nat i)) (read recon (Z.of_nat i))) as Ed.
  { rewrite (read_lookup _ _ _ Hi), (read_lookup _ _ _ Hb). reflexivity. }
  split; [rewrite Ed; apply difference_at_nonneg|]. split.
  - intros a Hraw Hlast.
    destruct (createDifferenceData_spec h a intensity r recon Hraw Hlast Hr) as (diff & E & L & W).
    exists diff. split; [exact E|]. split; [exact L|]. rewrite Ed. by apply W.
  - intros p Hraw Hlast.
    destruct (Demo_createDifferenceImage_spec h p intensity r recon Hraw Hlast Hr Hlen)
      as (diff & err & E & L & W).
    exists diff, err. split; [exact E|]. split; [exact L|]. rewrite Ed. by apply W.
Qed.

(** C1, at the failing input: with 16 outputs of which the first has
    65535 elements, [combineOutputs] returns [false] but
    [lastReconstructed] no longer refers to the previous reconstruction:
    it refers to a new buffer of zeros. *)
Theorem combineOutputs_replaces_reconstruction_on_short_output :
  M.combineOutputs short_first_output (previous_heap, processor_with_reconstruction) =
    (false, (previous_heap ++ [new_Float32Array 1048576],
             M.set_lastReconstructed (Some 1%nat) processor_with_reconstruction)) /\
  M.lastReconstructed processor_with_reconstruction = Some 0%nat /\
  deref previous_heap 0 !! 0%nat = Some (of_Z 50000) /\
  deref (previous_heap ++ [new_Float32Array 1048576]) 1 !! 0%nat = Some (Fin 0).
Proof.
  split; [|split; [reflexivity|split]].
  - apply (combineOutputs_first_wrong short_first_output previous_heap
             processor_with_reconstruction).
    + unfold short_first_output. cbn [length]. rewrite length_replicate. reflexivity.
    + change (default [] (short_first_output !! 0%nat))
        with (replicate (Z.to_nat 65535) (Fin 0)).
      rewrite length_replicate. lia.
  - change (deref previous_heap 0) with (constant_scan (of_Z 50000)).
    apply lookup_replicate_2. lia.
  - change (deref (previous_heap ++ [new_Float32Array 1048576]) 1)
      with (new_Float32Array 1048576).
    apply lookup_replicate_2. lia.
Qed.

(** ** Inputs at which the two front ends or the arithmetic depart *)

(** Against C3 as stated: in the [ModelInferenceApp] front end a NaN
    sample gives the tile value of [0], not NaN. *)
Lemma Demo_processCrop_zeroes_nonfinite :
  exists tile,
    D.processCrop (Demo_loaded_processor (constant_scan NaN) (constant_scan (Fin 0))
                     1024 1024 None) 0 0 = Some tile /\
    tile !! 0%nat = Some (fround (fdiv (fsub (Fin 0) MEAN) STD)) /\
    fround (fdiv (fsub (Fin 0) MEAN) STD) <> fround (fdiv (fsub NaN MEAN) STD).
Proof.
  destruct (Demo_processCrop_spec
              (Demo_loaded_processor (constant_scan NaN) (constant_scan (Fin 0)) 1024 1024 None)
              (constant_scan NaN) 0 0 eq_refl) as (t & Ht & _ & Hc).
  exists t. split; [exact Ht|]. split.
  - specialize (Hc 0 0 ltac:(lia) ltac:(lia)).
    change (Z.to_nat (0 * 256 + 0)) with 0%nat in Hc. rewrite Hc.
    change (fullIdx 0 0 0 0) with 0.
    assert (read (constant_scan NaN) 0 = NaN) as ->.
    { unfold read, constant_scan. change (0 <? 0) with false. cbv iota.
      change (Z.to_nat 0) with 0%nat. rewrite lookup_replicate_2 by lia. reflexivity. }
    reflexivity.
  - vm_compute. intros H. discriminate H.
Qed.

(** C4: both front ends widen a zero-width range by [max = min + 1] in
    double arithmetic ("Avoid division by zero"), but [2^53 + 1] rounds
    back to [2^53]: for the constant buffers [2^53, 2^53] (a value a
    [Float32Array] holds exactly) the ranges that
    [calculateNormalization] and [calculateNormalizationParams] store
    have [max = min], a width of zero. *)
Theorem calculateNormalization_zero_width_at_2_53 :
  let big := Fin (2 ^ 53 * U) in
  fadd big (of_Z 1) = big /\
  (exists p',
     M.calculateNormalization (loaded_processor [big; big] [big; big] 2 1 None) = Some p' /\
     M.intensityMin p' = big /\ M.intensityMax p' = big /\
     M.surfaceMin p' = big /\ M.surfaceMax p' = big /\
     fsub (M.intensityMax p') (M.intensityMin p') = Fin 0 /\
     fsub (M.surfaceMax p') (M.surfaceMin p') = Fin 0) /\
  (exists p',
     D.calculateNormalizationParams
       (Demo_loaded_processor [big; big] [big; big] 2 1 None) = Some p' /\
     D.intensityMin p' = big /\ D.intensityMax p' = big /\
     D.surfaceMin p' = big /\ D.surfaceMax p' = big /\
     fsub (D.intensityMax p') (D.intensityMin p') = Fin 0 /\
     fsub (D.surfaceMax p') (D.surfaceMin p') = Fin 0).
Proof.
  cbv zeta. split; [vm_compute; reflexivity|]. split.
  - eexists. split; [vm_compute; reflexivity|].
    split; [vm_compute; reflexivity|]. split; [vm_compute; reflexivity|].
    split; [vm_compute; reflexivity|]. split; [vm_compute; reflexivity|].
    split; vm_compute; reflexivity.
  - eexists. split; [vm_compute; reflexivity|].
    split; [vm_compute; reflexivity|]. split; [vm_compute; reflexivity|].
    split; [vm_compute; reflexivity|]. split; [vm_compute; reflexivity|].
    split; vm_compute; reflexivity.
Qed.

(** Against C5 as stated: [updatePercentileHighlighting] keeps the zeros,
    so its threshold for [0; 5] at percentile 0 is 0, where
    [updateHighlighting] gives 5. *)
Lemma Demo_threshold_can_be_zero :
  D.percentileThreshold [Fin 0; Fin (5 * U)] (Fin 0) = Some (Fin 0) /\
  M.percentileThreshold [Fin 0; Fin (5 * U)] (Fin 0) = Some (Fin (5 * U)).
Proof. split; vm_compute; reflexivity. Qed.

(** The index is computed in doubles: 0.29 * 100 is just below 29. *)
Example thresholdIdx_29_of_100 : thresholdIdx (Fin (29 * U)) 100 = Fin (28 * U).
Proof. vm_compute. reflexivity. Qed.

(** The round trip is exact for some samples and not for others. *)
Example roundtrip_50000 : roundtrip (Fin (50000 * U)) = Fin (50000 * U).
Proof. vm_compute. reflexivity. Qed.

Example roundtrip_inexact : roundtrip (fround (literal 1 10)) <> fround (literal 1 10).
Proof. vm_compute. intros H. discriminate H. Qed.

(** The two boundary percentiles on the differences 1, 2, 3, 4, 5. *)
Example nearest_rank_boundary :
  M.percentileThreshold (map (fun n => Fin (n * U)) [1; 2; 3; 4; 5]) (Fin 0) = Some (Fin (1 * U)) /\
  M.percentileThreshold (map (fun n => Fin (n * U)) [1; 2; 3; 4; 5]) (Fin (100 * U)) = Some (Fin (5 * U)).
Proof. split; vm_compute; reflexivity. Qed.

(** ** The theorems at concrete inputs *)

Lemma identity_backend_roundtrip_witness :
  exists a' outputs reconstruction,
    M.grid_loop identity_model (sample_app scan_50000 false) = Next (a', outputs) /\
    M.combineOutputs outputs ([], M.imageProcessor a') =
      (true, ([] ++ [reconstruction],
              M.set_lastReconstructed (Some 0%nat) scan_50000)) /\
    reconstruction !! 7%nat = Some (roundtrip (of_Z 50000)).
Proof.
  destruct (identity_backend_roundtrip [] (sample_app scan_50000 false)
              (constant_scan (of_Z 50000)))
    as (a' & outputs & rec & H1 & H2 & H3 & H4 & H5 & H6).
  - reflexivity.
  - unfold constant_scan. rewrite length_replicate. lia.
  - reflexivity.
  - reflexivity.
  - exists a', outputs, rec. split; [exact H1|]. split; [exact H4|].
    apply H6. unfold constant_scan. apply lookup_replicate_2. lia.
Defined.

Lemma processCrop_tile_witness :
  exists tile,
    M.processCrop (loaded_processor [Fin (5 * U)] [Fin 0] 1 1 None) 0 0 = Some tile /\
    tile !! 0%nat = Some (fround (fdiv (fsub (Fin (5 * U)) MEAN) STD)) /\
    tile !! 1%nat = Some NaN.
Proof.
  destruct (processCrop_tile [Fin (5 * U)] 0 0 0 0
              ltac:(lia) ltac:(lia) ltac:(lia) ltac:(lia)) as [H0 _].
  destruct (processCrop_tile [Fin (5 * U)] 0 0 1 0
              ltac:(lia) ltac:(lia) ltac:(lia) ltac:(lia)) as [H1 _].
  destruct (H0 (loaded_processor [Fin (5 * U)] [Fin 0] 1 1 None) eq_refl) as (t & Ht & _ & E0 & _).
  destruct (H1 (loaded_processor [Fin (5 * U)] [Fin 0] 1 1 None) eq_refl) as (t' & Ht' & _ & _ & E1).
  rewrite Ht in Ht'. injection Ht' as <-.
  exists t. split; [exact Ht|]. split; [exact E0|]. apply E1. reflexivity.
Defined.

Lemma percentileThreshold_nearest_rank_witness :
  exists t,
    M.percentileThreshold [Fin (3 * U); Fin 0; Fin (1 * U); NaN; Fin (2 * U)] (Fin (95 * U)) = Some t /\
    nearest_rank (List.filter M.validDiff [Fin (3 * U); Fin 0; Fin (1 * U); NaN; Fin (2 * U)])
      (Fin (95 * U)) t.
Proof.
  destruct (percentileThreshold_nearest_rank
              [Fin (3 * U); Fin 0; Fin (1 * U); NaN; Fin (2 * U)] (95 * U))
    as (_ & _ & H & _).
  - split; apply Z.leb_le; vm_compute; reflexivity.
  - vm_compute. reflexivity.
  - apply H. vm_compute. intros E. discriminate E.
Defined.

Lemma percentileThreshold_monotone_witness :
  exists t1 t2,
    M.percentileThreshold [Fin (3 * U); Fin (1 * U); Fin (2 * U)] (Fin (10 * U)) = Some t1 /\
    M.percentileThreshold [Fin (3 * U); Fin (1 * U); Fin (2 * U)] (Fin (90 * U)) = Some t2 /\
    fle t1 t2 = true.
Proof.
  apply (percentileThreshold_monotone [Fin (3 * U); Fin (1 * U); Fin (2 * U)] (10 * U) (90 * U)).
  - apply Z.leb_le. vm_compute. reflexivity.
  - vm_compute. reflexivity.
  - apply Z.leb_le. vm_compute. reflexivity.
  - vm_compute. reflexivity.
  - vm_compute. intros E. discriminate E.
Defined.

Lemma difference_entries_witness :
  fle (Fin 0) (fround (Math_abs (fsub (Fin (5 * U)) (Fin (3 * U))))) = true /\
  exists diff,
    M.createDifferenceData
      ([[Fin (3 * U)]], sample_app (loaded_processor [Fin (5 * U)] [Fin 0] 1 1 (Some 0%nat)) false) =
      (M.Normal,
       ([[Fin (3 * U)]] ++ [diff],
        M.set_differenceData (Some 1%nat)
          (sample_app (loaded_processor [Fin (5 * U)] [Fin 0] 1 1 (Some 0%nat)) false))) /\
    diff !! 0%nat = Some (fround (Math_abs (fsub (Fin (5 * U)) (Fin (3 * U))))).
Proof.
  destruct (difference_entries [[Fin (3 * U)]] [Fin (5 * U)] 0 [Fin (3 * U)] 0
              (Fin (5 * U)) (Fin (3 * U)) eq_refl eq_refl eq_refl eq_refl) as (H1 & H2 & _).
  split; [exact H1|].
  destruct (H2 (sample_app (loaded_processor [Fin (5 * U)] [Fin 0] 1 1 (Some 0%nat)) false)
              eq_refl eq_refl) as (diff & E & _ & D0).
  exists diff. split; [exact E|exact D0].
Defined.

Lemma runInference_rejected_witness :
  M.runInference ([], sample_app scan_50000 true) = ([], sample_app scan_50000 true).
Proof.
  apply (runInference_rejected [] (sample_app scan_50000 true)). left. reflexivity.
Defined.

Lemma grid_partition_witness :
  exists gridX gridY x y,
    in_grid gridX gridY x y /\ fullIdx gridX gridY x y = 300000 /\
    forall gridX' gridY' x' y',
      in_grid gridX' gridY' x' y' -> fullIdx gridX' gridY' x' y' = 300000 ->
      gridX' = gridX /\ gridY' = gridY /\ x' = x /\ y' = y.
Proof.
  destruct (grid_partition 300000 ltac:(lia)) as (gx & gy & x & y & H1 & H2 & H3 & _).
  exists gx, gy, x, y. split; [exact H1|]. split; [exact H2|exact H3].
Defined.

(** * Lemmas for the further properties *)

(** ** Bytes of an image *)

Lemma set_byte_length i v data : length (set_byte i v data) = length data.
Proof. unfold set_byte. destruct (i <? 0); [reflexivity|]. apply length_insert. Qed.

Lemma set_byte_lookup i v data (j : nat) :
  set_byte i v data !! j =
  if decide (Z.of_nat j = i /\ (j < length data)%nat) then Some v else data !! j.
Proof.
  unfold set_byte. destruct (Z.ltb_spec i 0).
  - destruct (decide _) as [[E _]|_]; [lia|reflexivity].
  - destruct (decide (Z.to_nat i = j)) as [<-|NE].
    + destruct (decide (Z.to_nat i < length data)%nat) as [Hlt|Hge].
      * rewrite list_lookup_insert_eq by exact Hlt.
        destruct (decide _) as [_|N]; [reflexivity|]. exfalso. apply N. split; [lia|exact Hlt].
      * rewrite list_insert_ge by lia.
        destruct (decide _) as [[_ Hlt]|_]; [lia|reflexivity].
    + rewrite list_lookup_insert_ne by exact NE.
      destruct (decide _) as [[E _]|_]; [lia|reflexivity].
Qed.

(** A loop whose iteration [i] rewrites the bytes [4i .. 4i+3] from what
    it finds there. *)
Lemma block_loop (N : Z) (body : Z -> list Z -> list Z) (data : list Z) :
  0 <= N ->
  (forall i d, 0 <= i < N -> length (body i d) = length d) ->
  (forall i d (j : nat), 0 <= i < N ->
     Z.of_nat j < 4 * i \/ 4 * i + 4 <= Z.of_nat j -> body i d !! j = d !! j) ->
  (forall i d d' (j : nat), 0 <= i < N -> length d = length d' ->
     (forall k : nat, 4 * i <= Z.of_nat k < 4 * i + 4 -> d !! k = d' !! k) ->
     4 * i <= Z.of_nat j < 4 * i + 4 -> body i d !! j = body i d' !! j) ->
  let r := for_range 0 N body data in
  length r = length data /\
  (forall i (j : nat), 0 <= i < N -> 4 * i <= Z.of_nat j < 4 * i + 4 ->
     r !! j = body i data !! j) /\
  (forall j : nat, 4 * N <= Z.of_nat j -> r !! j = data !! j).
Proof.
  intros HN Hlen Hout Hloc r. subst r.
  apply (for_range_ind (fun k s =>
    length s = length data /\
    (forall i (j : nat), 0 <= i < k -> 4 * i <= Z.of_nat j < 4 * i + 4 ->
       s !! j = body i data !! j) /\
    (forall j : nat, 4 * k <= Z.of_nat j -> s !! j = data !! j))); [exact HN| |].
  - split; [reflexivity|]. split; [intros; lia|reflexivity].
  - intros k s Hk (L & Hdone & Hrest).
    split; [rewrite Hlen by exact Hk; exact L|]. split.
    + intros i j Hi Hj. destruct (Z.eq_dec i k) as [->|NE].
      * apply Hloc; [exact Hk|exact L| |exact Hj].
        intros m Hm. apply Hrest. lia.
      * rewrite Hout by (try exact Hk; lia). apply Hdone; [lia|exact Hj].
    + intros j Hj. rewrite Hout by (try exact Hk; lia). apply Hrest. lia.
Qed.

(** Two nested loops over the rows and columns are one loop over the
    flat index. *)
Lemma for_range_nested {St : Type} (H W : Z) (body : Z -> Z -> St -> St) (s : St) :
  0 <= H -> 0 < W ->
  for_range 0 H (fun y s => for_range 0 W (fun x s => body y x s) s) s =
  for_range 0 (H * W) (fun i s => body (i / W) (i mod W) s) s.
Proof.
  intros HH HW.
  apply (for_range_ind (fun y t =>
    t = for_range 0 (y * W) (fun i s => body (i / W) (i mod W) s) s)); [exact HH| |].
  - rewrite Z.mul_0_l. rewrite for_range_empty by lia. reflexivity.
  - intros y t Hy ->.
    replace ((y + 1) * W) with (y * W + W) by ring.
    apply (for_range_ind (fun x t =>
      t = for_range 0 (y * W + x) (fun i s => body (i / W) (i mod W) s) s)); [lia| |].
    + rewrite Z.add_0_r. reflexivity.
    + intros x t Hx ->.
      replace (y * W + (x + 1)) with (y * W + x + 1) by ring.
      rewrite for_range_last by nia.
      replace ((y * W + x) / W) with y by (apply Z.div_unique with x; lia).
      replace ((y * W + x) mod W) with x by (apply Z.mod_unique with y; lia).
      reflexivity.
Qed.

Ltac bytes :=
  rewrite ?set_byte_lookup, ?set_byte_length;
  repeat match goal with
         | |- context [decide ?P] => destruct (decide P) as [[? ?]|?]
         end;
  try lia;
  try match goal with |- ?x = ?x => reflexivity end.

Lemma pixel_lookup data i r g b a :
  0 <= i ->
  pixel data i = Some (r, g, b, a) <->
  data !! Z.to_nat (4 * i) = Some r /\ data !! Z.to_nat (4 * i + 1) = Some g /\
  data !! Z.to_nat (4 * i + 2) = Some b /\ data !! Z.to_nat (4 * i + 3) = Some a.
Proof.
  intros Hi. unfold pixel.
  destruct (data !! Z.to_nat (4 * i)), (data !! Z.to_nat (4 * i + 1)),
    (data !! Z.to_nat (4 * i + 2)), (data !! Z.to_nat (4 * i + 3));
    split; try (intros [= -> -> -> ->]; done); try (intros (? & ? & ? & ?); congruence);
    try discriminate.
Qed.

(** ** [displayIntensity] *)

Lemma displayIntensity_spec p intensity :
  M.rawIntensityData p = Some intensity ->
  exists data,
    M.displayIntensity p = Some data /\
    Z.of_nat (length data) = 4194304 /\
    forall i, 0 <= i < 1048576 ->
      let g := gray_level (M.intensityMin p) (M.intensityMax p) (read intensity i) in
      pixel data i = Some (g, g, g, 255).
Proof.
  intros Hraw. unfold M.displayIntensity. rewrite Hraw.
  eexists. split; [reflexivity|].
  change (1024 * 1024 * 4) with 4194304. change (1024 * 1024) with 1048576.
  set (body := fun (i : Z) (data : list Z) => _).
  destruct (block_loop 1048576 body (replicate (Z.to_nat 4194304) 0)) as (L & Hp & _).
  - lia.
  - intros i d Hi; unfold body; cbv zeta; by rewrite !set_byte_length.
  - intros i d j Hi Hj; unfold body; cbv zeta; bytes.
  - intros i d d' j Hi Hl Hd Hj. unfold body. cbv zeta.
    rewrite !set_byte_lookup, !set_byte_length, Hl. bytes. apply Hd. exact Hj.
  - rewrite length_replicate in L. split; [rewrite L; lia|].
    intros i Hi. cbv zeta. apply pixel_lookup; [lia|].
    assert (length (replicate (Z.to_nat 4194304) 0) = Z.to_nat 4194304) as Lr
      by apply length_replicate.
    split; [|split; [|split]].
    all: rewrite (Hp i _ Hi) by lia.
    all: unfold body; cbv zeta.
    all: rewrite !set_byte_lookup, !set_byte_length, Lr.
    all: bytes.
    all: unfold gray_level; cbv zeta; reflexivity.
Qed.

(** ** Grey levels *)

Lemma of_Z_1 : of_Z 1 = Fin U.
Proof. rewrite of_Z_exact by lia. rewrite Z.mul_1_l. reflexivity. Qed.

Lemma Math_max_Fin a b : Math_max (Fin a) (Fin b) = Fin (Z.max a b).
Proof.
  unfold Math_max, flt. destruct (Z.ltb_spec a b); f_equal; lia.
Qed.

Lemma round64_exact m e :
  0 <= m < 2 ^ 53 -> 0 <= e -> m * 2 ^ e < 2 ^ 2098 ->
  round binary64 (m * 2 ^ e) 1 = Fin (m * 2 ^ e).
Proof.
  intros Hm He Hlt. unfold round. rewrite round_mag64_exact by lia.
  assert (0 < 2 ^ e) by (apply Z.pow_pos_nonneg; lia).
  destruct (Z.leb_spec 0 (m * 2 ^ e)); [|nia].
  change (maxbits binary64) with 2098.
  destruct (Z.ltb_spec (m * 2 ^ e) (2 ^ 2098)); [reflexivity|lia].
Qed.

Lemma toUint8Clamp_int n : 0 <= n <= 255 -> toUint8Clamp (Fin (n * U)) = n.
Proof.
  intros Hn. unfold toUint8Clamp. rewrite rne_exact by apply U_pos. lia.
Qed.

Lemma gray_of_ratio_Fin y :
  exists k, round binary64 (Z.max 0 (Z.min U y) * 255) 1 = Fin k /\
            0 <= k <= 255 * U /\ gray_of_ratio (Fin y) = k / U.
Proof.
  pose proof U_pos as HU.
  set (c := Z.max 0 (Z.min U y)).
  assert (0 <= c <= U) as Hc by (unfold c; lia).
  assert (255 < 2 ^ 53) as H53 by reflexivity.
  destruct (round64_between 0 255 (c * 255) 1) as (k & Ek & Hk); [lia|lia|lia|lia|].
  exists k. split; [exact Ek|]. split; [lia|].
  unfold gray_of_ratio. rewrite of_Z_1, Math_min_Fin, Math_max_Fin. fold c.
  rewrite (of_Z_exact 255) by lia. unfold fmul.
  replace (c * (255 * U)) with (c * 255 * U) by ring.
  rewrite <- (Z.mul_1_l U) at 2. rewrite round_scale by lia. rewrite Ek.
  unfold Math_floor.
  assert (0 <= k / U <= 255) as Hq.
  { split; [apply Z.div_pos; lia|]. apply Z.div_le_upper_bound; lia. }
  by apply toUint8Clamp_int.
Qed.

Lemma Math_min_NaN a : Math_min (Fin a) NaN = NaN.
Proof. reflexivity. Qed.

Lemma Math_min_NegInf a : Math_min (Fin a) NegInf = NegInf.
Proof. reflexivity. Qed.

Lemma Math_min_PosInf a : Math_min (Fin a) PosInf = Fin a.
Proof. reflexivity. Qed.

Lemma Math_max_NaN a : Math_max (Fin a) NaN = NaN.
Proof. reflexivity. Qed.

Lemma Math_max_NegInf a : Math_max (Fin a) NegInf = Fin a.
Proof. reflexivity. Qed.

Lemma fmul_NaN_l b : fmul NaN b = NaN.
Proof. reflexivity. Qed.

Lemma gray_of_zero : toUint8Clamp (Math_floor (fmul (Fin 0) (of_Z 255))) = 0.
Proof.
  rewrite (of_Z_exact 255) by lia. unfold fmul. rewrite Z.mul_0_l.
  rewrite round64_zero by apply U_pos. unfold Math_floor. rewrite Z.div_0_l by (pose proof U_pos; lia).
  rewrite Z.mul_0_l. unfold toUint8Clamp.
  pose proof (rne_exact 0 U U_pos) as E. rewrite Z.mul_0_l in E. rewrite E. reflexivity.
Qed.

Lemma gray_of_ratio_NaN : gray_of_ratio NaN = 0.
Proof.
  unfold gray_of_ratio. rewrite of_Z_1, Math_min_NaN, Math_max_NaN, fmul_NaN_l. reflexivity.
Qed.

Lemma gray_of_ratio_NegInf : gray_of_ratio NegInf = 0.
Proof.
  unfold gray_of_ratio. rewrite of_Z_1, Math_min_NegInf, Math_max_NegInf.
  apply gray_of_zero.
Qed.

Lemma gray_of_ratio_zero : gray_of_ratio (Fin 0) = 0.
Proof.
  unfold gray_of_ratio. rewrite of_Z_1, Math_min_Fin, Math_max_Fin.
  pose proof U_pos. replace (Z.max 0 (Z.min U 0)) with 0 by lia.
  apply gray_of_zero.
Qed.

Lemma round64_255 : round binary64 (U * 255) 1 = Fin (255 * U).
Proof.
  replace (U * 255) with (255 * 2 ^ 1074) by (unfold U; ring).
  rewrite round64_exact; [reflexivity|lia|lia|].
  change (2 ^ 2098) with (2 ^ 1024 * 2 ^ 1074).
  assert (0 < 2 ^ 1074) by (apply Z.pow_pos_nonneg; lia).
  assert (2 ^ 8 <= 2 ^ 1024) by (apply Z.pow_le_mono_r; lia).
  change (2 ^ 8) with 256 in *. nia.
Qed.

Lemma gray_of_ratio_one y : U <= y -> gray_of_ratio (Fin y) = 255.
Proof.
  intros Hy. destruct (gray_of_ratio_Fin y) as (k & Ek & _ & E). rewrite E.
  pose proof U_pos.
  replace (Z.max 0 (Z.min U y)) with U in Ek by lia.
  rewrite round64_255 in Ek. injection Ek as <-.
  apply Z.div_mul. lia.
Qed.

Lemma gray_of_ratio_PosInf : gray_of_ratio PosInf = 255.
Proof.
  rewrite <- (gray_of_ratio_one U) by lia.
  unfold gray_of_ratio. rewrite of_Z_1, Math_min_PosInf, Math_min_Fin, Z.min_id. reflexivity.
Qed.

Lemma gray_of_ratio_range q : 0 <= gray_of_ratio q <= 255.
Proof.
  unfold gray_of_ratio, toUint8Clamp.
  destruct (Math_floor _); lia.
Qed.

Lemma gray_of_ratio_mono q1 q2 :
  fle q1 q2 = true -> gray_of_ratio q1 <= gray_of_ratio q2.
Proof.
  intros Hle. pose proof U_pos as HU.
  destruct q1 as [| | |y1]; try discriminate Hle.
  - destruct q2; try discriminate Hle. lia.
  - rewrite gray_of_ratio_NegInf. pose proof (gray_of_ratio_range q2). lia.
  - destruct q2 as [| | |y2]; try discriminate Hle.
    + rewrite gray_of_ratio_PosInf. pose proof (gray_of_ratio_range (Fin y1)). lia.
    + apply leN_Fin in Hle.
      destruct (gray_of_ratio_Fin y1) as (k1 & E1 & _ & ->).
      destruct (gray_of_ratio_Fin y2) as (k2 & E2 & _ & ->).
      apply Z.div_le_mono; [lia|].
      assert (fle (round binary64 (Z.max 0 (Z.min U y1) * 255) 1)
                  (round binary64 (Z.max 0 (Z.min U y2) * 255) 1) = true) as Hm.
      { apply round_mono; [apply binary64_good|apply binary64_good|lia|]. lia. }
      rewrite E1, E2 in Hm. by apply leN_Fin in Hm.
Qed.

Lemma gray_level_finite mn mx x :
  gray_level mn mx (Fin x) = gray_of_ratio (fdiv (fsub (Fin x) mn) (fsub mx mn)).
Proof.
  unfold gray_level, gray_of_ratio. cbv zeta.
  change (isFinite (Fin x)) with true. cbv iota. reflexivity.
Qed.

Lemma gray_level_nonfinite mn mx v : isFinite v = false -> gray_level mn mx v = 0.
Proof.
  intros H. unfold gray_level. rewrite H. cbv zeta. apply gray_of_zero.
Qed.

Lemma gray_level_range mn mx v : 0 <= gray_level mn mx v <= 255.
Proof. unfold gray_level, toUint8Clamp. cbv zeta. destruct (Math_floor _); lia. Qed.

Lemma fsub_Fin x a : fsub (Fin x) (Fin a) = round binary64 (x - a) 1.
Proof. reflexivity. Qed.

Lemma round_cases f n d :
  round f n d = PosInf \/ round f n d = NegInf \/ exists k, round f n d = Fin k.
Proof.
  unfold round. destruct (0 <=? n).
  - destruct (_ <? _); eauto.
  - destruct (_ <? _); eauto.
Qed.

Lemma fdiv_Fin_pos x k : 0 < k -> fdiv (Fin x) (Fin k) = round binary64 (x * U) k.
Proof. intros Hk. unfold fdiv. destruct (Z.compare_spec k 0); [lia|lia|reflexivity]. Qed.

Lemma fdiv_Fin_zero x : fdiv (Fin x) (Fin 0) = sign_mul x PosInf.
Proof. reflexivity. Qed.

Lemma fdiv_PosInf_Fin k : 0 <= k -> fdiv PosInf (Fin k) = PosInf.
Proof. intros Hk. unfold fdiv. destruct (Z.leb_spec 0 k); [reflexivity|lia]. Qed.

Lemma fdiv_NegInf_Fin k : 0 <= k -> fdiv NegInf (Fin k) = NegInf.
Proof. intros Hk. unfold fdiv. destruct (Z.leb_spec 0 k); [reflexivity|lia]. Qed.

Lemma gray_sign_mul x :
  gray_of_ratio (sign_mul x PosInf) = if 0 <? x then 255 else 0.
Proof.
  unfold sign_mul. destruct (Z.compare_spec x 0), (Z.ltb_spec 0 x); try lia.
  - apply gray_of_ratio_NaN.
  - apply gray_of_ratio_NegInf.
  - apply gray_of_ratio_PosInf.
Qed.

(** For a fixed range that is not negative, the grey level does not
    decrease with the difference [v - min]. *)
Lemma gray_ratio_mono d1 d2 r :
  fle d1 d2 = true -> (r = PosInf \/ exists k, r = Fin k /\ 0 <= k) ->
  gray_of_ratio (fdiv d1 r) <= gray_of_ratio (fdiv d2 r).
Proof.
  intros Hle Hr. pose proof U_pos as HU.
  destruct Hr as [->|(k & -> & Hk)].
  - assert (forall d, d <> NaN -> gray_of_ratio (fdiv d PosInf) = 0) as H0.
    { intros d Hd. destruct d as [| | |x]; [exfalso; apply Hd; reflexivity| | |].
      - apply gray_of_ratio_NaN.
      - apply gray_of_ratio_NaN.
      - apply gray_of_ratio_zero. }
    rewrite !H0; [lia| |]; intros ->; [destruct d1|]; discriminate Hle.
  - destruct d1 as [| | |x1]; try discriminate Hle.
    + destruct d2; try discriminate Hle. lia.
    + rewrite fdiv_NegInf_Fin by exact Hk. rewrite gray_of_ratio_NegInf.
      pose proof (gray_of_ratio_range (fdiv d2 (Fin k))). lia.
    + destruct d2 as [| | |x2]; try discriminate Hle.
      * rewrite fdiv_PosInf_Fin by exact Hk. rewrite gray_of_ratio_PosInf.
        pose proof (gray_of_ratio_range (fdiv (Fin x1) (Fin k))). lia.
      * apply leN_Fin in Hle. destruct (Z.eq_dec k 0) as [->|Hne].
        -- rewrite !fdiv_Fin_zero, !gray_sign_mul.
           destruct (Z.ltb_spec 0 x1), (Z.ltb_spec 0 x2); lia.
        -- rewrite !fdiv_Fin_pos by lia. apply gray_of_ratio_mono.
           apply round_mono; [apply binary64_good|apply binary64_good|lia|].
           apply Z.mul_le_mono_nonneg_r; lia.
Qed.

Lemma gray_level_mono a b x1 x2 :
  a <= b -> x1 <= x2 ->
  gray_level (Fin a) (Fin b) (Fin x1) <= gray_level (Fin a) (Fin b) (Fin x2).
Proof.
  intros Hab Hx. rewrite !gray_level_finite, !fsub_Fin.
  apply gray_ratio_mono.
  - apply round_mono; [apply binary64_good|apply binary64_good|lia|lia].
  - destruct (round_mag_pos_or_inf binary64 (b - a)) as [E|(k & E & Hk)]; [lia| |].
    + left. exact E.
    + right. exists k. split; [exact E|exact Hk].
Qed.

Lemma gray_level_min a mx : gray_level (Fin a) mx (Fin a) = 0.
Proof.
  rewrite gray_level_finite, fsub_Fin, Z.sub_diag.
  rewrite round64_zero by lia.
  destruct (fsub mx (Fin a)) as [| | |k].
  - apply gray_of_ratio_NaN.
  - apply gray_of_ratio_zero.
  - apply gray_of_ratio_zero.
  - unfold fdiv. destruct (Z.compare_spec k 0).
    + apply gray_of_ratio_NaN.
    + rewrite Z.mul_0_l. change (- 0) with 0. rewrite round64_zero by lia.
      apply gray_of_ratio_zero.
    + rewrite Z.mul_0_l. rewrite round64_zero by lia. apply gray_of_ratio_zero.
Qed.

Lemma round64_one : round binary64 1 1 = Fin 1.
Proof. apply (round64_exact 1 0); [lia|lia|reflexivity]. Qed.

Lemma round64_U : round binary64 U 1 = Fin U.
Proof.
  unfold U. rewrite <- (Z.mul_1_l (2 ^ 1074)).
  apply round64_exact; [lia|lia|].
  rewrite Z.mul_1_l. apply Z.pow_lt_mono_r; lia.
Qed.

Lemma fdiv_self k : 0 < k -> fdiv (Fin k) (Fin k) = Fin U.
Proof.
  intros Hk. rewrite fdiv_Fin_pos by exact Hk.
  rewrite (Z.mul_comm k U). rewrite <- (Z.mul_1_l k) at 2.
  rewrite round_scale by lia. apply round64_U.
Qed.

Lemma gray_level_max a b :
  a < b -> isFinite (fsub (Fin b) (Fin a)) = true ->
  gray_level (Fin a) (Fin b) (Fin b) = 255.
Proof.
  intros Hab Hfin. rewrite gray_level_finite.
  destruct (fsub (Fin b) (Fin a)) as [| | |k] eqn:E; try discriminate Hfin.
  assert (1 <= k) as Hk.
  { rewrite fsub_Fin in E.
    assert (fle (round binary64 1 1) (round binary64 (b - a) 1) = true) as Hm.
    { apply round_mono; [apply binary64_good|apply binary64_good|lia|lia]. }
    rewrite round64_one, E in Hm. by apply leN_Fin in Hm. }
  rewrite fdiv_self by lia. apply gray_of_ratio_one. lia.
Qed.

(** ** The overlay *)

(** The three stores of [updateIntensityOverlay] on a marked pixel. *)
Lemma overlay_stores (i : Z) (d : list Z) (j : nat) :
  0 <= i ->
  let idx := i * 4 in
  let d1 := set_byte idx (Z.min 255 (default 0 (d !! Z.to_nat idx) + 100)) d in
  let d2 := set_byte (idx + 1) (Z.max 0 (default 0 (d1 !! Z.to_nat (idx + 1)) - 50)) d1 in
  let d3 := set_byte (idx + 2) (Z.max 0 (default 0 (d2 !! Z.to_nat (idx + 2)) - 50)) d2 in
  length d3 = length d /\
  d3 !! j =
    if decide (j < length d)%nat then
      if decide (Z.of_nat j = 4 * i) then Some (Z.min 255 (default 0 (d !! j) + 100))
      else if decide (Z.of_nat j = 4 * i + 1) then Some (Z.max 0 (default 0 (d !! j) - 50))
      else if decide (Z.of_nat j = 4 * i + 2) then Some (Z.max 0 (default 0 (d !! j) - 50))
      else d !! j
    else d !! j.
Proof.
  intros Hi idx d1 d2 d3.
  assert (length d1 = length d) as L1 by apply set_byte_length.
  assert (length d2 = length d) as L2 by (unfold d2; rewrite set_byte_length; exact L1).
  assert (length d3 = length d) as L3 by (unfold d3; rewrite set_byte_length; exact L2).
  split; [exact L3|].
  assert (d1 !! Z.to_nat (idx + 1) = d !! Z.to_nat (idx + 1)) as E1.
  { unfold d1. rewrite set_byte_lookup. destruct (decide _) as [[? ?]|?]; [lia|reflexivity]. }
  assert (d2 !! Z.to_nat (idx + 2) = d !! Z.to_nat (idx + 2)) as E2.
  { unfold d2. rewrite set_byte_lookup. destruct (decide _) as [[? ?]|?]; [lia|].
    unfold d1. rewrite set_byte_lookup. destruct (decide _) as [[? ?]|?]; [lia|reflexivity]. }
  unfold d3. rewrite set_byte_lookup, L2, E2.
  unfold d2. rewrite set_byte_lookup, L1, E1.
  unfold d1. rewrite set_byte_lookup.
  unfold idx.
  repeat match goal with
         | |- context [decide ?P] => destruct (decide P) as [?|?]
         end; try lia;
  try match goal with |- ?x = ?x => reflexivity end.
  all: match goal with
       | |- context [_ !! Z.to_nat ?k] => replace (Z.to_nat k) with j by lia; reflexivity
       end.
Qed.

Lemma pixel_ext d d' i :
  0 <= i ->
  (forall j : nat, 4 * i <= Z.of_nat j < 4 * i + 4 -> d !! j = d' !! j) ->
  pixel d i = pixel d' i.
Proof.
  intros Hi H. unfold pixel. rewrite !H by lia. reflexivity.
Qed.

Lemma overlay_pixel (i : Z) (d : list Z) r g b a :
  0 <= i -> pixel d i = Some (r, g, b, a) ->
  let idx := i * 4 in
  let d1 := set_byte idx (Z.min 255 (default 0 (d !! Z.to_nat idx) + 100)) d in
  let d2 := set_byte (idx + 1) (Z.max 0 (default 0 (d1 !! Z.to_nat (idx + 1)) - 50)) d1 in
  let d3 := set_byte (idx + 2) (Z.max 0 (default 0 (d2 !! Z.to_nat (idx + 2)) - 50)) d2 in
  pixel d3 i = Some (Z.min 255 (r + 100), Z.max 0 (g - 50), Z.max 0 (b - 50), a).
Proof.
  intros Hi Hp. cbv zeta.
  apply pixel_lookup in Hp as (H0 & H1 & H2 & H3); [|exact Hi].
  apply pixel_lookup; [exact Hi|].
  pose proof (lookup_lt_Some _ _ _ H0). pose proof (lookup_lt_Some _ _ _ H1).
  pose proof (lookup_lt_Some _ _ _ H2). pose proof (lookup_lt_Some _ _ _ H3).
  split; [|split; [|split]].
  all: rewrite (proj2 (overlay_stores i d _ Hi)).
  all: repeat match goal with
         | |- context [decide ?P] => destruct (decide P) as [?|?]
         end; try lia.
  - rewrite H0. reflexivity.
  - rewrite H1. reflexivity.
  - rewrite H2. reflexivity.
  - exact H3.
Qed.

Lemma highlighted_outside diffs threshold i :
  Z.of_nat (length diffs) <= i -> M.highlighted diffs threshold i = false.
Proof.
  intros Hi. unfold M.highlighted, read.
  destruct (Z.ltb_spec i 0); [reflexivity|].
  rewrite lookup_ge_None_2 by lia. reflexivity.
Qed.

(** [updateIntensityOverlay]: the bytes of every pixel of the canvas. *)
Lemma updateIntensityOverlay_spec h a intensity d threshold :
  M.rawIntensityData (M.imageProcessor a) = Some intensity ->
  M.differenceData a = Some d ->
  exists data,
    M.updateIntensityOverlay threshold (h, a) =
      (M.Normal, (h, M.set_intensityCanvas data a)) /\
    Z.of_nat (length data) = 4194304 /\
    forall i, 0 <= i < 1048576 ->
      let g := gray_level (M.intensityMin (M.imageProcessor a))
                 (M.intensityMax (M.imageProcessor a)) (read intensity i) in
      pixel data i =
        Some (if M.highlighted (deref h d) threshold i
              then (Z.min 255 (g + 100), Z.max 0 (g - 50), Z.max 0 (g - 50), 255)
              else (g, g, g, 255)).
Proof.
  intros Hraw Hd.
  destruct (displayIntensity_spec _ _ Hraw) as (pixels & Ed & Lp & Hp).
  unfold M.updateIntensityOverlay. rewrite Ed.
  change (M.differenceData (M.set_intensityCanvas pixels a)) with (M.differenceData a).
  rewrite Hd.
  set (diffs := deref h d). set (N := Z.of_nat (length diffs)).
  set (body := fun (i : Z) (data : list Z) => _).
  destruct (block_loop N body pixels) as (L & Hin & Hout).
  - lia.
  - intros i dd Hi. unfold body. destruct (M.highlighted diffs threshold i); [|reflexivity].
    apply (overlay_stores i dd 0%nat). lia.
  - intros i dd j Hi Hj. unfold body.
    destruct (M.highlighted diffs threshold i); [|reflexivity].
    rewrite (proj2 (overlay_stores i dd j ltac:(lia))).
    repeat match goal with
           | |- context [decide ?P] => destruct (decide P) as [?|?]
           end; try lia; reflexivity.
  - intros i dd dd' j Hi Hl Hdd Hj. unfold body.
    destruct (M.highlighted diffs threshold i); [|apply Hdd; exact Hj].
    rewrite (proj2 (overlay_stores i dd j ltac:(lia))).
    rewrite (proj2 (overlay_stores i dd' j ltac:(lia))).
    rewrite Hl, (Hdd j Hj). reflexivity.
  - exists (for_range 0 N body pixels). split; [reflexivity|].
    split; [rewrite L; exact Lp|].
    intros i Hi. cbv zeta. specialize (Hp i Hi). cbv zeta in Hp.
    destruct (Z.lt_ge_cases i N) as [Hlt|Hge].
    + rewrite (pixel_ext _ (body i pixels) i); [|lia|].
      2:{ intros j Hj. apply Hin; [lia|exact Hj]. }
      unfold body. destruct (M.highlighted diffs threshold i); [|exact Hp].
      apply (overlay_pixel i pixels _ _ _ _ ltac:(lia) Hp).
    + rewrite (pixel_ext _ pixels i); [|lia|].
      2:{ intros j Hj. apply Hout. lia. }
      rewrite highlighted_outside by exact Hge. exact Hp.
Qed.

(** ** The highlight on the canvas *)

(** C10: a threshold that [updateHighlighting] computes for a percentile
    in [0, 100] is one of the strictly positive finite values of the
    difference buffer; the pixel that holds it passes the inclusive test
    of [updateIntensityOverlay], and [updateHighlighting] leaves it
    tinted on the intensity canvas (red raised by 100, green and blue
    lowered by 50, so no longer grey) whenever it lies inside the
    1024 x 1024 image, as every entry of a difference buffer of the
    scan's size does: the highlight is never empty. *)
Theorem threshold_highlights_a_pixel h a d intensity x t :
  M.differenceData a = Some d -> M.points a = true ->
  M.rawIntensityData (M.imageProcessor a) = Some intensity ->
  M.currentPercentile a = Fin x -> 0 <= x <= 100 * U ->
  Z.of_nat (length (deref h d)) < 2 ^ 53 ->
  M.percentileThreshold (deref h d) (Fin x) = Some t ->
  (exists k, t = Fin k /\ 0 < k) /\
  exists (i : nat) data,
    deref h d !! i = Some t /\
    M.highlighted (deref h d) t (Z.of_nat i) = true /\
    M.updateHighlighting (h, a) =
      (M.Normal, (h, M.set_intensityCanvas data (M.updatePointCloud t a))) /\
    (Z.of_nat (length (deref h d)) <= 1048576 -> Z.of_nat i < 1048576) /\
    (Z.of_nat i < 1048576 ->
     let g := gray_level (M.intensityMin (M.imageProcessor a))
                (M.intensityMax (M.imageProcessor a)) (read intensity (Z.of_nat i)) in
     pixel data (Z.of_nat i) =
       Some (Z.min 255 (g + 100), Z.max 0 (g - 50), Z.max 0 (g - 50), 255) /\
     pixel data (Z.of_nat i) <> Some (g, g, g, 255)).
Proof.
  intros Hd Hpts Hraw Hp Hx Hlen Ht.
  assert (List.filter M.validDiff (deref h d) <> []) as Hne.
  { intros He. rewrite percentileThreshold_pick, He in Ht. discriminate Ht. }
  pose proof (filter_length_bound M.validDiff (deref h d) _ Hlen) as Hfl.
  destruct (percentile_pick_value (List.filter M.validDiff (deref h d)) x
              Hx Hfl (validDiff_finite (deref h d)) Hne) as (t' & E & N).
  pose proof Ht as Ht'.
  rewrite percentileThreshold_pick in Ht'. rewrite E in Ht'. injection Ht' as ->.
  apply nearest_rank_elem, filter_validDiff_elem in N as [Hin (k & -> & Hk)].
  split; [exists k; split; [reflexivity|exact Hk]|].
  apply list_elem_of_lookup_1 in Hin as [i Hi].
  assert (M.highlighted (deref h d) (Fin k) (Z.of_nat i) = true) as Hhi.
  { unfold M.highlighted. rewrite (read_lookup (deref h d) i _ Hi).
    unfold fge, fle, isFinite. apply andb_true_iff. split; [reflexivity|]. apply Z.leb_refl. }
  assert (M.imageProcessor (M.updatePointCloud (Fin k) a) = M.imageProcessor a /\
          M.differenceData (M.updatePointCloud (Fin k) a) = M.differenceData a) as [Eip Edd].
  { unfold M.updatePointCloud. destruct (M.pointsMaterial a); split; reflexivity. }
  destruct (updateIntensityOverlay_spec h (M.updatePointCloud (Fin k) a) intensity d (Fin k))
    as (data & Eo & _ & Hpix).
  { rewrite Eip. exact Hraw. }
  { rewrite Edd. exact Hd. }
  exists i, data. split; [exact Hi|]. split; [exact Hhi|].
  split.
  { unfold M.updateHighlighting. rewrite Hd, Hpts. cbn [negb]. rewrite Hp, Ht. exact Eo. }
  split.
  { intros Hfit. pose proof (lookup_lt_Some _ _ _ Hi). lia. }
  intros Hi'. cbv zeta.
  specialize (Hpix (Z.of_nat i) ltac:(lia)). cbv zeta in Hpix.
  rewrite Eip, Hhi in Hpix. rewrite Hpix.
  split; [reflexivity|].
  intros Heq. injection Heq as E1 E2 _. lia.
Qed.

(** ** The grid loop of [runInference] *)

Lemma grid_loop_state m a : grid_state m a 16 (M.grid_loop m a).
Proof.
  unfold M.grid_loop.
  apply (for_return_ind (fun gridY fl => grid_state m a (gridY * 4) fl)); [lia| | |].
  - split; [reflexivity|]. split; [reflexivity|]. intros; lia.
  - intros gridY st HY HP.
    replace ((gridY + 1) * 4) with (gridY * 4 + 4) by ring.
    apply (for_return_ind (fun gridX fl => grid_state m a (gridY * 4 + gridX) fl)); [lia| | |].
    + by rewrite Z.add_0_r.
    + intros gridX [a1 outs] HX (Ea & Hn & Hout).
      unfold M.grid_cell. cbv zeta.
      assert (M.imageProcessor (M.updateProgress (gridY * 4 + gridX + 1) 16 a1) =
              M.imageProcessor a) as Eip.
      { rewrite Ea. destruct (_ =? 0); reflexivity. }
      assert (M.updateProgress (gridY * 4 + gridX + 1) 16 a1 =
              M.updateProgress (gridY * 4 + gridX + 1) 16 a) as Eup.
      { rewrite Ea. destruct (_ =? 0); reflexivity. }
      rewrite Eip. rewrite Eup.
      destruct (M.processCrop (M.imageProcessor a) gridX gridY) as [tile|] eqn:Et.
      * destruct (M.inference m tile) as [out|] eqn:Eo.
        -- split.
           { destruct (Z.eqb_spec (gridY * 4 + (gridX + 1)) 0); [lia|].
             f_equal. ring. }
           split; [rewrite length_app; simpl; lia|].
           intros gx gy Hgx Hgy Hlt.
           destruct (Z.eq_dec (gy * 4 + gx) (gridY * 4 + gridX)) as [E|NE].
           ++ assert (gy = gridY /\ gx = gridX) as [-> ->] by lia.
              exists tile, out. split; [exact Et|]. split; [exact Eo|].
              rewrite lookup_app_r by lia.
              replace (Z.to_nat (gridY * 4 + gridX) - length outs)%nat with 0%nat by lia.
              reflexivity.
           ++ destruct (Hout gx gy Hgx Hgy ltac:(lia)) as (t' & o' & E1 & E2 & E3).
              exists t', o'. split; [exact E1|]. split; [exact E2|].
              rewrite lookup_app_l by lia. exact E3.
        -- exists gridX, gridY. split; [lia|]. split; [lia|]. split; [lia|].
           split; [reflexivity|]. split.
           ++ right. exists tile. split; [exact Et|exact Eo].
           ++ intros gx gy Hgx Hgy Hlt.
              destruct (Hout gx gy Hgx Hgy Hlt) as (t' & o' & E1 & E2 & _).
              exists t', o'. split; [exact E1|exact E2].
      * exists gridX, gridY. split; [lia|]. split; [lia|]. split; [lia|].
        split; [reflexivity|]. split; [left; exact Et|].
        intros gx gy Hgx Hgy Hlt.
        destruct (Hout gx gy Hgx Hgy Hlt) as (t' & o' & E1 & E2 & _).
        exists t', o'. split; [exact E1|exact E2].
    + intros gridX r [a1 outs] HX (gx & gy & H1 & H2 & H3 & H4 & H5).
      exists gx, gy. split; [exact H1|]. split; [exact H2|]. split; [lia|].
      split; [exact H4|exact H5].
  - intros gridY r [a1 outs] HY (gx & gy & H1 & H2 & H3 & H4 & H5).
    exists gx, gy. split; [exact H1|]. split; [exact H2|]. split; [lia|].
    split; [exact H4|exact H5].
Qed.

Lemma same_but_display_refl a : same_but_display a a.
Proof. repeat split. Qed.

Lemma updatePointCloud_frame t a : same_but_display a (M.updatePointCloud t a).
Proof. unfold M.updatePointCloud. destruct (M.pointsMaterial a); repeat split. Qed.

Lemma updateIntensityOverlay_frame t h a :
  exists c a', M.updateIntensityOverlay t (h, a) = (c, (h, a')) /\ same_but_display a a'.
Proof.
  unfold M.updateIntensityOverlay.
  destruct (M.displayIntensity (M.imageProcessor a)) as [pixels|].
  - destruct (M.differenceData (M.set_intensityCanvas pixels a)).
    + eexists _, _. split; [reflexivity|]. repeat split.
    + eexists _, _. split; [reflexivity|]. repeat split.
  - eexists _, _. split; [reflexivity|]. repeat split.
Qed.

Lemma updateHighlighting_frame h a :
  exists c a', M.updateHighlighting (h, a) = (c, (h, a')) /\ same_but_display a a'.
Proof.
  unfold M.updateHighlighting.
  destruct (M.differenceData a) as [d|].
  2:{ eexists _, _. split; [reflexivity|]. apply same_but_display_refl. }
  destruct (negb (M.points a)).
  { eexists _, _. split; [reflexivity|]. apply same_but_display_refl. }
  destruct (M.percentileThreshold _ _) as [t|].
  2:{ eexists _, _. split; [reflexivity|]. apply same_but_display_refl. }
  destruct (updateIntensityOverlay_frame t h (M.updatePointCloud t a)) as (c & a' & E & F).
  exists c, a'. split; [exact E|].
  pose proof (updatePointCloud_frame t a) as G.
  unfold same_but_display in *. intuition congruence.
Qed.

Lemma runInference_unfold h a m :
  M.isRunning a = false -> M.model a = Some m -> M.imageLoaded a = true ->
  M.runInference (h, a) =
    let '(h, a) :=
      match M.grid_loop m (M.run_begin a) with
      | Return _ (a, _) => (h, a)
      | Next (a, outputs) =>
          let '(ok, (h, p)) := M.combineOutputs outputs (h, M.imageProcessor a) in
          let a := M.set_imageProcessor p a in
          if ok then
            match M.createDifferenceData (h, a) with
            | (M.Thrown, ha) => ha
            | (M.Normal, (h, a)) =>
                let a := M.set_percentileControls_shown true a in
                snd (M.updateHighlighting (h, a))
            end
          else (h, a)
      end in
    (h, M.set_runBtn_disabled false (M.set_isRunning false a)).
Proof.
  intros H1 H2 H3. unfold M.runInference. rewrite H1, H2, H3. reflexivity.
Qed.

Lemma processCrop_loaded p gridX gridY tile :
  M.processCrop p gridX gridY = Some tile ->
  exists intensity, M.rawIntensityData p = Some intensity.
Proof.
  unfold M.processCrop. destruct (M.rawIntensityData p) as [i|].
  - intros _. exists i. reflexivity.
  - intros H. discriminate H.
Qed.

(** A run whose backend throws stops at the first cell that fails. *)
Lemma runInference_failure h a m gridX gridY tile :
  M.isRunning a = false -> M.model a = Some m -> M.imageLoaded a = true ->
  0 <= gridX < 4 -> 0 <= gridY < 4 ->
  M.processCrop (M.imageProcessor a) gridX gridY = Some tile ->
  M.inference m tile = None ->
  exists gx gy,
    0 <= gx < 4 /\ 0 <= gy < 4 /\ gy * 4 + gx <= gridY * 4 + gridX /\
    (M.processCrop (M.imageProcessor a) gx gy = None \/
     exists tile', M.processCrop (M.imageProcessor a) gx gy = Some tile' /\
                   M.inference m tile' = None) /\
    (forall gx' gy', 0 <= gx' < 4 -> 0 <= gy' -> gy' * 4 + gx' < gy * 4 + gx ->
       exists tile' out,
         M.processCrop (M.imageProcessor a) gx' gy' = Some tile' /\
         M.inference m tile' = Some out) /\
    M.runInference (h, a) =
      (h, M.set_runBtn_disabled false
            (M.set_isRunning false
               (M.updateProgress (gy * 4 + gx + 1) 16 (M.run_begin a)))).
Proof.
  intros H1 H2 H3 HX HY Ht Hf. rewrite (runInference_unfold h a m H1 H2 H3).
  pose proof (grid_loop_state m (M.run_begin a)) as G. unfold grid_state in G.
  change (M.imageProcessor (M.run_begin a)) with (M.imageProcessor a) in G.
  destruct (M.grid_loop m (M.run_begin a)) as [[a' outs]|r [a' outs]].
  - destruct G as (_ & _ & Hout).
    destruct (Hout gridX gridY ltac:(lia) ltac:(lia) ltac:(lia)) as (t' & o' & E1 & E2 & _).
    rewrite Ht in E1. injection E1 as <-. rewrite Hf in E2. discriminate E2.
  - destruct G as (gx & gy & Hgx & Hgy & Hlt & Ea & Hwhy & Hbefore).
    exists gx, gy. split; [exact Hgx|]. split; [lia|].
    split.
    { destruct (Z.le_gt_cases (gy * 4 + gx) (gridY * 4 + gridX)) as [Hle|Hgt]; [exact Hle|].
      destruct (Hbefore gridX gridY ltac:(lia) ltac:(lia) ltac:(lia)) as (t' & o' & E1 & E2).
      rewrite Ht in E1. injection E1 as <-. rewrite Hf in E2. discriminate E2. }
    split; [exact Hwhy|]. split; [exact Hbefore|].
    rewrite Ea. reflexivity.
Qed.

(** The statements of [runInference] after its loop, for 16 outputs. *)
Lemma after_grid h a1 outs intensity :
  Z.of_nat (length outs) = 16 ->
  M.rawIntensityData (M.imageProcessor a1) = Some intensity ->
  let p2 := M.set_lastReconstructed (Some (length h)) (M.imageProcessor a1) in
  let R :=
    let '(ok, (h, p)) := M.combineOutputs outs (h, M.imageProcessor a1) in
    let a := M.set_imageProcessor p a1 in
    if ok then
      match M.createDifferenceData (h, a) with
      | (M.Thrown, ha) => ha
      | (M.Normal, (h, a)) =>
          let a := M.set_percentileControls_shown true a in
          snd (M.updateHighlighting (h, a))
      end
    else (h, a) in
  (Forall (fun out => Z.of_nat (length out) = 65536) outs ->
   exists b diff a4,
     R = (h ++ [b; diff], a4) /\
     length b = Z.to_nat (M.width (M.imageProcessor a1) * M.height (M.imageProcessor a1)) /\
     written outs 1048576 b /\
     length diff = length intensity /\
     (forall i : nat, (i < length intensity)%nat ->
        diff !! i = Some (difference_at (read intensity (Z.of_nat i)) (read b (Z.of_nat i)))) /\
     same_but_display
       (M.set_percentileControls_shown true
          (M.set_differenceData (Some (S (length h))) (M.set_imageProcessor p2 a1))) a4) /\
  (~ Forall (fun out => Z.of_nat (length out) = 65536) outs ->
   exists b, R = (h ++ [b], M.set_imageProcessor p2 a1) /\
     length b = Z.to_nat (M.width (M.imageProcessor a1) * M.height (M.imageProcessor a1))).
Proof.
  intros Hn Hraw p2 R. split.
  - intros Hall.
    destruct (combineOutputs_ok outs h (M.imageProcessor a1) Hn Hall) as (b & Ec & Lb & Wb).
    unfold R. rewrite Ec. cbv beta iota zeta. fold p2.
    set (a2 := M.set_imageProcessor p2 a1).
    destruct (createDifferenceData_spec (h ++ [b]) a2 intensity (length h) b)
      as (diff & Ed & Ld & Wd).
    { exact Hraw. }
    { reflexivity. }
    { rewrite lookup_app_r by lia. rewrite Nat.sub_diag. reflexivity. }
    rewrite Ed. cbv beta iota zeta.
    set (a3 := M.set_percentileControls_shown true _).
    destruct (updateHighlighting_frame ((h ++ [b]) ++ [diff]) a3)
      as (c & a4 & Eh & F).
    rewrite Eh. cbn [snd].
    exists b, diff, a4. split.
    { rewrite <- app_assoc. reflexivity. }
    split; [exact Lb|]. split; [exact Wb|]. split; [exact Ld|]. split; [exact Wd|].
    replace (S (length h)) with (length (h ++ [b])); [exact F|].
    rewrite length_app. cbn. lia.
  - intros Hnot.
    destruct (combineOutputs_wrong_length outs h (M.imageProcessor a1) Hn Hnot)
      as (b & Ec & Lb).
    unfold R. rewrite Ec. cbv beta iota zeta. exists b. split; [reflexivity|exact Lb].
Qed.

(** ** [createDifferenceData] without a reconstruction *)

Lemma write_zero_id n i : write (new_Float32Array n) i (Fin 0) = new_Float32Array n.
Proof.
  unfold write. destruct (i <? 0); [reflexivity|]. rewrite fround_zero.
  unfold new_Float32Array.
  destruct (decide (Z.to_nat i < Z.to_nat n)%nat) as [Hlt|Hge].
  - apply list_insert_id. apply lookup_replicate_2. exact Hlt.
  - apply list_insert_ge. rewrite length_replicate. lia.
Qed.

(** ** The two boundary percentiles *)

Lemma thresholdIdx_zero n : 0 <= n < 2 ^ 53 -> thresholdIdx (Fin 0) n = Fin 0.
Proof.
  intros Hn. unfold thresholdIdx. rewrite (of_Z_exact 100) by lia.
  pose proof U_pos as HU.
  rewrite fdiv_Fin_pos by lia. rewrite Z.mul_0_l, round64_zero by lia.
  rewrite (of_Z_exact n) by lia. unfold fmul. rewrite Z.mul_0_l, round64_zero by lia.
  unfold Math_floor. rewrite Z.div_0_l by lia. reflexivity.
Qed.

Lemma thresholdIdx_hundred n :
  0 <= n < 2 ^ 53 -> thresholdIdx (Fin (100 * U)) n = Fin (n * U).
Proof.
  intros Hn. unfold thresholdIdx. rewrite (of_Z_exact 100) by lia.
  pose proof U_pos as HU.
  rewrite fdiv_self by lia.
  rewrite (of_Z_exact n) by lia. unfold fmul.
  replace (U * (n * U)) with (n * U * U) by ring.
  rewrite <- (Z.mul_1_l U) at 3. rewrite round_scale by lia.
  rewrite round64_int by lia. unfold Math_floor.
  rewrite Z.div_mul by lia. reflexivity.
Qed.

Lemma StronglySorted_head_le (l : list number) i a b :
  StronglySorted leN l -> l !! 0%nat = Some a -> l !! i = Some b -> b <> NaN -> leN a b.
Proof.
  intros Hs Ha Hb Hn. destruct i as [|i].
  - rewrite Ha in Hb. injection Hb as ->. by apply leN_refl.
  - eapply (StronglySorted_lookup_le leN l 0 (S i)); [exact Hs|lia|exact Ha|exact Hb].
Qed.

Lemma percentile_pick_extremes valid :
  Z.of_nat (length valid) < 2 ^ 53 ->
  Forall (fun d => isFinite d = true) valid ->
  valid <> [] ->
  exists lo hi,
    percentile_pick valid (Fin 0) = Some lo /\
    percentile_pick valid (Fin (100 * U)) = Some hi /\
    lo ∈ valid /\ hi ∈ valid /\
    forall d, d ∈ valid -> fle lo d = true /\ fle d hi = true.
Proof.
  intros Hlen Hfin Hne. pose proof U_pos as HU.
  destruct (percentile_pick_value valid 0 ltac:(lia) Hlen Hfin Hne) as (lo & E0 & N0).
  destruct (percentile_pick_value valid (100 * U) ltac:(lia) Hlen Hfin Hne) as (hi & E1 & N1).
  exists lo, hi. split; [exact E0|]. split; [exact E1|].
  split; [by eapply nearest_rank_elem|]. split; [by eapply nearest_rank_elem|].
  intros d Hd.
  assert (1 <= Z.of_nat (length valid)) as Hn1.
  { destruct valid; [done|]. simpl length. lia. }
  assert (forall x, x ∈ valid -> x <> NaN) as Hnn.
  { intros x Hx ->. rewrite Forall_forall in Hfin. specialize (Hfin _ Hx). discriminate Hfin. }
  destruct N0 as (s0 & I0 & P0 & S0 & EI0 & B0 & L0).
  destruct N1 as (s1 & I1 & P1 & S1 & EI1 & B1 & L1).
  rewrite thresholdIdx_zero in EI0 by lia. rewrite thresholdIdx_hundred in EI1 by lia.
  assert (I0 = 0) as -> by (injection EI0 as E; nia).
  assert (I1 = Z.of_nat (length valid)) as ->.
  { injection EI1 as E. apply (Z.mul_cancel_r _ _ U); [lia|]. symmetry. exact E. }
  replace (Z.to_nat (Z.min 0 (Z.of_nat (length valid) - 1))) with 0%nat in L0 by lia.
  replace (Z.to_nat (Z.min (Z.of_nat (length valid)) (Z.of_nat (length valid) - 1)))
    with (length valid - 1)%nat in L1 by lia.
  split.
  - assert (d ∈ s0) as Hds by (rewrite P0; exact Hd).
    apply list_elem_of_lookup_1 in Hds as [i Hi].
    apply (StronglySorted_head_le s0 i lo d S0 L0 Hi). by apply Hnn.
  - assert (d ∈ s1) as Hds by (rewrite P1; exact Hd).
    apply list_elem_of_lookup_1 in Hds as [i Hi].
    pose proof (lookup_lt_Some _ _ _ Hi) as Hlt.
    pose proof (Permutation_length P1) as Hpl.
    destruct (decide (i = length valid - 1)%nat) as [->|NE].
    + rewrite L1 in Hi. injection Hi as ->. apply leN_refl. by apply Hnn.
    + eapply (StronglySorted_lookup_le leN s1 i (length valid - 1)); [exact S1|lia|exact Hi|exact L1].
Qed.

(** ** The coordinates of the thumbnail *)

Lemma U_128 : U = 2 ^ 1067 * 128.
Proof. unfold U. change 128 with (2 ^ 7). rewrite <- Z.pow_add_r by lia. reflexivity. Qed.

Lemma pow2_1067_pos : 0 < 2 ^ 1067.
Proof. apply Z.pow_pos_nonneg; lia. Qed.

Lemma lt_2098 m e : 0 <= m < 2 ^ 53 -> 0 <= e <= 1074 -> m * 2 ^ e < 2 ^ 2098.
Proof.
  intros Hm He.
  assert (0 < 2 ^ e) by (apply Z.pow_pos_nonneg; lia).
  assert (2 ^ e <= 2 ^ 1074) by (apply Z.pow_le_mono_r; lia).
  assert (2 ^ 53 * 2 ^ 1074 <= 2 ^ 2098).
  { rewrite <- Z.pow_add_r by lia. apply Z.pow_le_mono_r; lia. }
  nia.
Qed.

(** [x / 128] is exact. *)
Lemma fdiv_128 x : 0 <= x < 2 ^ 53 -> fdiv (of_Z x) (of_Z 128) = Fin (x * 2 ^ 1067).
Proof.
  intros Hx. pose proof U_pos as HU. pose proof pow2_1067_pos as HP.
  rewrite (of_Z_exact x) by lia. rewrite (of_Z_exact 128) by lia.
  rewrite fdiv_Fin_pos by lia.
  assert (x * U * U = x * 2 ^ 1067 * (128 * U)) as ->.
  { transitivity (x * (2 ^ 1067 * 128) * U); [rewrite <- U_128; ring|ring]. }
  rewrite <- (Z.mul_1_l (128 * U)) at 2. rewrite round_scale by lia.
  apply round64_exact; [lia|lia|]. apply lt_2098; lia.
Qed.

(** [Math.floor((x / 128) * w)] is the integer quotient of [x * w] by 128. *)
Lemma thumbnail_coordinate x w :
  0 <= x < 128 -> 0 <= w < 2 ^ 46 ->
  Math_floor (fmul (fdiv (of_Z x) (of_Z 128)) (of_Z w)) = Fin (x * w / 128 * U).
Proof.
  intros Hx Hw. pose proof U_pos as HU. pose proof pow2_1067_pos as HP.
  assert (2 ^ 46 < 2 ^ 53) as H46 by reflexivity.
  assert (128 * 2 ^ 46 = 2 ^ 53) as H53 by reflexivity.
  rewrite fdiv_128 by lia. rewrite (of_Z_exact w) by lia. unfold fmul.
  replace (x * 2 ^ 1067 * (w * U)) with (x * w * 2 ^ 1067 * U) by ring.
  rewrite <- (Z.mul_1_l U) at 2. rewrite round_scale by lia.
  rewrite round64_exact; [|nia|lia|apply lt_2098; nia].
  unfold Math_floor. f_equal. f_equal.
  rewrite U_128, (Z.mul_comm (2 ^ 1067) 128). apply Z.div_mul_cancel_r; lia.
Qed.

Lemma fmul_int a b :
  - 2 ^ 53 <= a * b <= 2 ^ 53 -> fmul (Fin (a * U)) (Fin (b * U)) = Fin (a * b * U).
Proof.
  intros H. pose proof U_pos as HU. unfold fmul.
  replace (a * U * (b * U)) with (a * b * U * U) by ring.
  rewrite <- (Z.mul_1_l U) at 3. rewrite round_scale by lia.
  apply round64_int. exact H.
Qed.

Lemma fadd_int a b :
  - 2 ^ 53 <= a + b <= 2 ^ 53 -> fadd (Fin (a * U)) (Fin (b * U)) = Fin ((a + b) * U).
Proof.
  intros H. unfold fadd. rewrite <- Z.mul_add_distr_r. apply round64_int. exact H.
Qed.

Lemma read_at_int (l : list number) k : 0 <= k -> read_at l (Fin (k * U)) = read l k.
Proof.
  intros Hk. unfold read_at, read. rewrite index_of_int by exact Hk.
  destruct (Z.ltb_spec k 0); [lia|reflexivity].
Qed.

(** The index of [processCrop] in double arithmetic is the integer index
    for the coordinates of the grid. *)
Lemma crop_index_exact (intensity : list number) gridX gridY x y :
  in_grid gridX gridY x y ->
  crop_index gridX gridY x y = Fin (fullIdx gridX gridY x y * U) /\
  read_at intensity (crop_index gridX gridY x y) =
    read intensity (fullIdx gridX gridY x y).
Proof.
  intros (HX & HY & Hx & Hy).
  assert (2 ^ 53 = 9007199254740992) as P53 by reflexivity.
  assert (crop_index gridX gridY x y = Fin (fullIdx gridX gridY x y * U)) as E.
  { unfold crop_index, fullIdx. cbv zeta.
    rewrite (of_Z_exact gridX), (of_Z_exact gridY), (of_Z_exact x), (of_Z_exact y),
      (of_Z_exact 256), (of_Z_exact 1024) by lia.
    rewrite !fmul_int by nia.
    rewrite (fadd_int (gridY * 256) y) by nia.
    rewrite (fmul_int (gridY * 256 + y) 1024) by nia.
    rewrite (fadd_int ((gridY * 256 + y) * 1024) (gridX * 256)) by nia.
    rewrite (fadd_int ((gridY * 256 + y) * 1024 + gridX * 256) x) by nia.
    reflexivity. }
  split; [exact E|]. rewrite E. apply read_at_int. unfold fullIdx. nia.
Qed.

Lemma flat_index W x y :
  0 <= x < W -> (y * W + x) / W = y /\ (y * W + x) mod W = x.
Proof.
  intros Hx. split.
  - symmetry. apply Z.div_unique with x; lia.
  - symmetry. apply Z.mod_unique with y; lia.
Qed.

Lemma split_index W i :
  0 < W -> 0 <= i -> 0 <= i / W /\ 0 <= i mod W < W /\ i / W * W + i mod W = i.
Proof.
  intros HW Hi. split; [apply Z.div_pos; lia|].
  split; [apply Z.mod_pos_bound; lia|].
  rewrite (Z.div_mod i W) at 3 by lia. ring.
Qed.

Lemma generateThumbnail_spec p intensity :
  M.rawIntensityData p = Some intensity ->
  0 < M.width p < 2 ^ 26 -> 0 < M.height p < 2 ^ 26 ->
  exists data,
    G.generateThumbnail p = Some data /\
    Z.of_nat (length data) = 65536 /\
    forall x y, 0 <= x < 128 -> 0 <= y < 128 ->
      let srcX := x * M.width p / 128 in
      let srcY := y * M.height p / 128 in
      let g := gray_level (M.intensityMin p) (M.intensityMax p)
                 (read intensity (srcY * M.width p + srcX)) in
      0 <= srcX < M.width p /\ 0 <= srcY < M.height p /\
      pixel data (y * 128 + x) = Some (g, g, g, 255).
Proof.
  intros Hraw HW HH. unfold G.generateThumbnail. rewrite Hraw. cbv zeta.
  change (128 * 128 * 4) with 65536.
  assert (2 ^ 26 < 2 ^ 46) as H26 by reflexivity.
  assert (2 ^ 26 * 2 ^ 26 < 2 ^ 53) as H52 by reflexivity.
  set (W := M.width p) in *. set (H := M.height p) in *.
  assert (forall x w, 0 <= x < 128 -> 0 < w -> 0 <= x * w / 128 < w) as Hq.
  { intros x w Hx Hw. split; [apply Z.div_pos; nia|].
    apply Z.div_lt_upper_bound; nia. }
  set (paint := fun (i : Z) (data : list Z) =>
    let g := gray_level (M.intensityMin p) (M.intensityMax p)
               (read intensity ((i / 128 * H / 128) * W + (i mod 128) * W / 128)) in
    set_byte (i * 4 + 3) 255
      (set_byte (i * 4) g (set_byte (i * 4 + 1) g (set_byte (i * 4 + 2) g data)))).
  match goal with
  | |- context [for_range 0 128 ?f ?s] =>
      assert (for_range 0 128 f s = for_range 0 16384 paint s) as ->
  end.
  { rewrite (for_range_nested 128 128) by lia. change (128 * 128) with 16384.
    apply (for_range_ind (fun k s => s = for_range 0 k paint (replicate (Z.to_nat 65536) 0)));
      [lia|by rewrite for_range_empty by lia|].
    intros i s Hi ->. rewrite for_range_last by lia. unfold paint. cbv zeta.
    destruct (split_index 128 i ltac:(lia) ltac:(lia)) as (Hy0 & Hx & Ei).
    assert (i / 128 < 128) as Hy1 by (apply Z.div_lt_upper_bound; lia).
    assert (0 <= i / 128 < 128) as Hy by lia.
    rewrite Ei.
    rewrite (thumbnail_coordinate (i mod 128) W) by lia.
    rewrite (thumbnail_coordinate (i / 128) H) by lia.
    pose proof (Hq (i mod 128) W Hx ltac:(lia)) as HsX.
    pose proof (Hq (i / 128) H Hy ltac:(lia)) as HsY.
    rewrite (of_Z_exact W) by lia.
    rewrite fmul_int by nia. rewrite fadd_int by nia. rewrite read_at_int by nia.
    reflexivity. }
  destruct (block_loop 16384 paint (replicate (Z.to_nat 65536) 0)) as (L & Hp & _).
  - lia.
  - intros i d Hi. unfold paint. cbv zeta. by rewrite !set_byte_length.
  - intros i d j Hi Hj. unfold paint. cbv zeta. bytes.
  - intros i d d' j Hi Hl Hd Hj. unfold paint. cbv zeta.
    rewrite !set_byte_lookup, !set_byte_length, Hl. bytes. apply Hd. exact Hj.
  - eexists. split; [reflexivity|].
    rewrite length_replicate in L. split; [rewrite L; lia|].
    intros x y Hx Hy. cbv zeta.
    split; [apply Hq; lia|]. split; [apply Hq; lia|].
    destruct (flat_index 128 x y Hx) as [Ey Ex].
    apply pixel_lookup; [lia|].
    assert (length (replicate (Z.to_nat 65536) 0) = Z.to_nat 65536) as Lr
      by apply length_replicate.
    split; [|split; [|split]].
    all: rewrite (Hp (y * 128 + x)) by lia.
    all: unfold paint; cbv zeta; rewrite Ey, Ex.
    all: rewrite !set_byte_lookup, !set_byte_length, Lr; bytes.
Qed.

(** ** The loops of the point cloud *)

Lemma flat_map_if {A B} (c : A -> bool) (f : A -> list B) (l : list A) :
  flat_map (fun i => if c i then f i else []) l = flat_map f (List.filter c l).
Proof.
  induction l as [|x l IH]; [reflexivity|]. cbn. destruct (c x); cbn; by rewrite IH.
Qed.

Lemma flat_map_length_const {A B} (f : A -> list B) (n : nat) (l : list A) :
  (forall x, length (f x) = n) -> length (flat_map f l) = (n * length l)%nat.
Proof.
  intros H. induction l as [|x l IH]; cbn; [lia|]. rewrite length_app, H, IH. lia.
Qed.

Lemma seqZ_snoc k : 0 <= k -> seqZ 0 (k + 1) = seqZ 0 k ++ [k].
Proof.
  intros Hk. rewrite (seqZ_app 0 k 1) by lia. rewrite Z.add_0_l.
  rewrite (seqZ_cons k 1) by lia. rewrite (seqZ_nil (Z.succ k)) by lia. reflexivity.
Qed.

(** A loop that appends [f i] at iteration [i] builds [flat_map f]. *)
Lemma for_range_collect {A} (N : Z) (f : Z -> list A) :
  0 <= N ->
  for_range 0 N (fun i acc => acc ++ f i) [] = flat_map f (seqZ 0 N).
Proof.
  intros HN.
  apply (for_range_ind (fun k acc => acc = flat_map f (seqZ 0 k))); [exact HN|reflexivity|].
  intros k acc Hk ->. rewrite seqZ_snoc by lia.
  rewrite flat_map_app. cbn. by rewrite app_nil_r.
Qed.

Lemma for_range_ext {St} lo hi (f g : Z -> St -> St) s :
  (forall i s, lo <= i < hi -> f i s = g i s) ->
  for_range lo hi f s = for_range lo hi g s.
Proof.
  intros H. destruct (Z.le_gt_cases lo hi) as [Hle|Hgt].
  - apply (for_range_ind (fun k t => t = for_range lo k g s)); [exact Hle| |].
    + by rewrite for_range_empty by lia.
    + intros i t Hi ->. rewrite for_range_last by lia. apply H. exact Hi.
  - rewrite !for_range_empty by lia. reflexivity.
Qed.

Lemma round_mag_exact f m e :
  1 <= prec f -> 0 <= shift0 f <= e -> 0 <= m < 2 ^ prec f ->
  round_mag f (m * 2 ^ e) 1 = m * 2 ^ e.
Proof.
  intros Hp Hs [H0 Hm]. unfold round_mag. rewrite Z.div_1_r.
  destruct (Z.eq_dec m 0) as [->|Hn].
  - rewrite Z.mul_0_l.
    set (s := Z.max (shift0 f) (Z.log2 0 + 1 - prec f)).
    assert (0 < 2 ^ s) by (apply Z.pow_pos_nonneg; lia).
    pose proof (rne_exact 0 (1 * 2 ^ s) ltac:(lia)) as E. rewrite Z.mul_0_l in E.
    rewrite E. reflexivity.
  - rewrite Z.log2_mul_pow2 by lia.
    assert (Z.log2 m < prec f) by (apply Z.log2_lt_pow2; lia).
    pose proof (Z.log2_nonneg m).
    set (s := Z.max (shift0 f) (e + Z.log2 m + 1 - prec f)).
    assert (0 <= s <= e) as Hse by lia.
    assert (0 < 2 ^ s) by (apply Z.pow_pos_nonneg; lia).
    replace (m * 2 ^ e) with (m * 2 ^ (e - s) * (1 * 2 ^ s)).
    + rewrite rne_exact by lia. ring.
    + replace e with ((e - s) + s) at 2 by lia.
      rewrite (Z.pow_add_r 2 (e - s) s) by lia. ring.
Qed.

Lemma fround_20 : fround (Fin (20 * U)) = Fin (20 * U).
Proof.
  unfold fround, round, U.
  assert (0 < 2 ^ 1074) by (apply Z.pow_pos_nonneg; lia).
  destruct (Z.leb_spec 0 (20 * 2 ^ 1074)); [|lia].
  rewrite (round_mag_exact binary32 20 1074); [|cbn; lia|cbn; lia|cbn; lia].
  change (maxbits binary32) with 1202.
  assert (20 * 2 ^ 1074 < 2 ^ 1202) as Hlt.
  { change (2 ^ 1202) with (2 ^ 128 * 2 ^ 1074).
    assert (20 < 2 ^ 128) by reflexivity. nia. }
  destruct (Z.ltb_spec (20 * 2 ^ 1074) (2 ^ 1202)); [reflexivity|lia].
Qed.

Lemma fround_mono x y : x <= y -> fle (fround (Fin x)) (fround (Fin y)) = true.
Proof.
  intros H. unfold fround. apply round_mono; [cbn; lia|cbn; lia|lia|exact H].
Qed.

Lemma fmul_of_Z q n : 0 <= n < 2 ^ 53 -> fmul (Fin q) (of_Z n) = round binary64 (q * n) 1.
Proof.
  intros Hn. rewrite (of_Z_exact n) by lia. unfold fmul.
  replace (q * (n * U)) with (q * n * U) by ring.
  rewrite <- (round_scale binary64 (q * n) 1 U); [|lia|apply U_pos].
  rewrite Z.mul_1_l. reflexivity.
Qed.

(** A plotted height, as computed and as stored, lies between 0 and 20. *)
Lemma scaled_height_range mn mx z :
  mn <= z <= mx -> fle (fsub (Fin mx) (Fin mn)) (Fin 0) = false ->
  isFinite (fsub (Fin mx) (Fin mn)) = true ->
  exists v,
    fround (fmul (fdiv (fsub (Fin z) (Fin mn)) (fsub (Fin mx) (Fin mn))) (of_Z 20)) = Fin v /\
    0 <= v <= 20 * U.
Proof.
  intros Hz Hpos Hfin. pose proof U_pos as HU.
  destruct (fsub (Fin mx) (Fin mn)) as [| | |k] eqn:Er; try discriminate Hfin.
  assert (0 < k) as Hk.
  { unfold fle in Hpos. destruct (Z.leb_spec k 0); [discriminate Hpos|lia]. }
  rewrite fsub_Fin in Er.
  assert (exists d, fsub (Fin z) (Fin mn) = Fin d /\ 0 <= d <= k) as (d & -> & Hd).
  { rewrite fsub_Fin. apply fle_Fin_between.
    - rewrite <- (round64_zero 1) by lia.
      apply round_mono; [apply binary64_good|apply binary64_good|lia|lia].
    - rewrite <- Er. apply round_mono; [apply binary64_good|apply binary64_good|lia|lia]. }
  rewrite fdiv_Fin_pos by exact Hk.
  assert (1 < 2 ^ 53) as H1 by reflexivity.
  destruct (round64_between 0 1 (d * U) k) as (q & -> & Hq); [lia|lia|lia|nia|].
  rewrite fmul_of_Z by lia.
  destruct (round64_between 0 20 (q * 20) 1) as (v & -> & Hv); [lia|lia|lia|lia|].
  apply fle_Fin_between.
  - rewrite <- fround_zero. apply fround_mono. lia.
  - rewrite <- fround_20. apply fround_mono. lia.
Qed.

(** The two loops of [createSurfaceVisualization]. *)
Lemma surface_loops (p : D.ImageProcessor) (surface : list number) :
  0 < D.width p -> 0 <= D.height p ->
  for_range 0 (D.height p) (fun y acc =>
    for_range 0 (D.width p) (fun x '(positions, colors) =>
      let i := y * D.width p + x in
      let z := read surface i in
      if D.usable z then
        let scaledX := fmul (fsub (of_Z x) (fdiv (of_Z (D.width p)) (of_Z 2))) (literal 1 10) in
        let scaledY := fmul (fsub (of_Z y) (fdiv (of_Z (D.height p)) (of_Z 2))) (literal 1 10) in
        let scaledZ := fmul (fdiv (fsub z (D.surfaceMin p))
                               (fsub (D.surfaceMax p) (D.surfaceMin p))) (of_Z 20) in
        (positions ++ [scaledX; scaledZ; scaledY],
         colors ++ [literal 1 2; literal 1 2; literal 1 2])
      else (positions, colors))
      acc)
    ([], []) =
  (flat_map (point_at p surface) (plotted surface (D.width p) (D.height p)),
   flat_map (fun _ => [literal 1 2; literal 1 2; literal 1 2])
     (plotted surface (D.width p) (D.height p))).
Proof.
  intros HW HH. rewrite (for_range_nested (D.height p) (D.width p)) by lia.
  unfold plotted. rewrite <- !flat_map_if.
  apply (for_range_ind (fun k acc =>
    acc = (flat_map (fun i => if D.usable (read surface i) then point_at p surface i else [])
             (seqZ 0 k),
           flat_map (fun i => if D.usable (read surface i)
                              then [literal 1 2; literal 1 2; literal 1 2] else [])
             (seqZ 0 k)))); [nia|reflexivity|].
  intros i acc Hi ->. rewrite seqZ_snoc by lia. rewrite !flat_map_app. cbn [flat_map].
  rewrite !app_nil_r.
  destruct (split_index (D.width p) i HW ltac:(lia)) as (_ & _ & Ei).
  cbv zeta. rewrite Ei.
  destruct (D.usable (read surface i)); [reflexivity|].
  by rewrite !app_nil_r.
Qed.

Lemma color_loops (width height : Z) (surface diffs : list number) threshold :
  0 < width -> 0 <= height ->
  for_range 0 height (fun y colors =>
    for_range 0 width (fun x colors =>
      let diffIndex := y * width + x in
      let diff := read diffs diffIndex in
      let z := read surface diffIndex in
      if D.usable z then
        if fge diff threshold
        then colors ++ [of_Z 1; of_Z 0; of_Z 0]
        else colors ++ [literal 1 2; literal 1 2; literal 1 2]
      else colors)
      colors)
    [] =
  flat_map (color_at diffs threshold) (plotted surface width height).
Proof.
  intros HW HH. rewrite (for_range_nested height width) by lia.
  unfold plotted. rewrite <- flat_map_if.
  rewrite <- for_range_collect by nia.
  apply for_range_ext. intros i colors Hi.
  destruct (split_index width i HW ltac:(lia)) as (_ & _ & Ei).
  cbv zeta. rewrite Ei. unfold color_at.
  destruct (D.usable (read surface i)); [|by rewrite app_nil_r].
  destruct (fge (read diffs i) threshold); reflexivity.
Qed.

Lemma point_at_length p surface i : length (point_at p surface i) = 3%nat.
Proof. reflexivity. Qed.

Lemma color_at_length diffs t i : length (color_at diffs t i) = 3%nat.
Proof. unfold color_at. destruct (fge _ _); reflexivity. Qed.

Lemma createSurfaceVisualization_spec a surface :
  D.rawSurfaceData (C.imageProcessor a) = Some surface ->
  0 < D.width (C.imageProcessor a) -> 0 <= D.height (C.imageProcessor a) ->
  let p := C.imageProcessor a in
  let idx := plotted surface (D.width p) (D.height p) in
  let a' := C.createSurfaceVisualization a in
  C.imageProcessor a' = p /\ C.differenceData a' = C.differenceData a /\
  C.diffMin a' = C.diffMin a /\ C.diffMax a' = C.diffMax a /\
  C.points a' =
    if fle (fsub (D.surfaceMax p) (D.surfaceMin p)) (Fin 0) || bool_decide (idx = [])
    then None
    else Some (C.Float32Array_from (flat_map (point_at p surface) idx),
               C.Float32Array_from (flat_map (fun _ => [literal 1 2; literal 1 2; literal 1 2]) idx)).
Proof.
  intros Hs HW HH p idx a'. subst a'. unfold C.createSurfaceVisualization.
  set (a0 := match C.points a with Some _ => C.set_points None a | None => a end).
  assert (C.imageProcessor a0 = p /\ C.differenceData a0 = C.differenceData a /\
          C.diffMin a0 = C.diffMin a /\ C.diffMax a0 = C.diffMax a /\ C.points a0 = None)
    as (E1 & E2 & E3 & E4 & E5).
  { unfold a0. destruct (C.points a) eqn:Ep; repeat split; exact Ep. }
  cbv zeta. rewrite E1. fold p in Hs. rewrite Hs.
  destruct (fle (fsub (D.surfaceMax p) (D.surfaceMin p)) (Fin 0)).
  { cbn [orb]. repeat split; assumption. }
  pose proof (surface_loops p surface HW HH) as EL. cbv zeta in EL. rewrite EL. clear EL.
  fold idx. cbv beta iota.
  rewrite (flat_map_length_const _ 3) by apply point_at_length.
  cbn [orb].
  destruct idx as [|i0 rest] eqn:Ei.
  - rewrite bool_decide_eq_true_2 by reflexivity. cbn. repeat split; assumption.
  - rewrite bool_decide_eq_false_2 by discriminate.
    destruct (Z.eqb_spec (Z.of_nat (3 * length (i0 :: rest))) 0) as [E0|_].
    { cbn [length] in E0. lia. }
    cbn. repeat split; assumption.
Qed.

(** The scan of the differences touches only [diffMin] and [diffMax]. *)
Lemma diff_scan_frame (diffs : list number) (a : C.App) :
  let a' :=
    if C.falsy (C.diffMin a) || C.falsy (C.diffMax a) then
      let a := C.set_diffMax (Some NegInf) (C.set_diffMin (Some PosInf) a) in
      for_range 0 (Z.of_nat (length diffs)) (fun i a =>
        let d := read diffs i in
        if D.usable d then
          let a := if flt d (default NaN (C.diffMin a))
                   then C.set_diffMin (Some d) a else a in
          if fgt d (default NaN (C.diffMax a)) then C.set_diffMax (Some d) a else a
        else a) a
    else a in
  C.imageProcessor a' = C.imageProcessor a /\ C.points a' = C.points a /\
  C.differenceData a' = C.differenceData a.
Proof.
  cbv zeta. destruct (C.falsy (C.diffMin a) || C.falsy (C.diffMax a)); [|by repeat split].
  apply (for_range_ind (fun _ a' =>
    C.imageProcessor a' = C.imageProcessor a /\ C.points a' = C.points a /\
    C.differenceData a' = C.differenceData a)); [lia|by repeat split|].
  intros i s _ (H1 & H2 & H3).
  destruct (D.usable (read diffs i)); [|by repeat split].
  destruct (flt _ _), (fgt _ _); cbn; by repeat split.
Qed.

Lemma map_lookup {A B} (f : A -> B) (l : list A) (i : nat) :
  map f l !! i = f <$> l !! i.
Proof.
  revert i. induction l as [|x l IH]; intros [|i]; try reflexivity. apply IH.
Qed.

(** Entry [j] of the [k]-th block of a [flat_map] with blocks of [n]
    elements. *)
Lemma flat_map_lookup_const {A B} (f : A -> list B) (n : nat) (l : list A)
    (k j : nat) (x : A) :
  (forall x, length (f x) = n) -> l !! k = Some x -> (j < n)%nat ->
  flat_map f l !! (n * k + j)%nat = f x !! j.
Proof.
  intros Hn. revert k. induction l as [|y l IH]; intros k Hk Hj; [discriminate Hk|].
  cbn [flat_map]. destruct k as [|k].
  - injection Hk as ->. rewrite Nat.mul_0_r, Nat.add_0_l.
    apply lookup_app_l. rewrite Hn. exact Hj.
  - rewrite lookup_app_r by (rewrite Hn; lia). rewrite Hn.
    replace (n * S k + j - n)%nat with (n * k + j)%nat by lia.
    apply IH; [exact Hk|exact Hj].
Qed.

(** A plotted index holds a finite sample of the buffer. *)
Lemma plotted_elem surface width height i :
  i ∈ plotted surface width height ->
  exists z, read surface i = Fin z /\ Fin z ∈ surface.
Proof.
  intros Hi. apply list_elem_of_In, filter_In in Hi as [_ Hu].
  rewrite usable_isFinite in Hu. unfold read in *.
  destruct (i <? 0); [discriminate Hu|].
  destruct (surface !! Z.to_nat i) as [v|] eqn:Ev; [|discriminate Hu].
  destruct v as [| | |z]; try discriminate Hu.
  exists z. split; [reflexivity|]. eapply list_elem_of_lookup_2. exact Ev.
Qed.

(** ** The loops of the canvases *)

(** Two loops over the pixels that write the same bytes give the same
    image. *)
Lemma block_loop_eq (N : Z) (body1 body2 : Z -> list Z -> list Z) (data : list Z) :
  0 <= N ->
  (forall i d, 0 <= i < N -> length (body1 i d) = length d) ->
  (forall i d, 0 <= i < N -> length (body2 i d) = length d) ->
  (forall i d (j : nat), 0 <= i < N ->
     Z.of_nat j < 4 * i \/ 4 * i + 4 <= Z.of_nat j -> body1 i d !! j = d !! j) ->
  (forall i d (j : nat), 0 <= i < N ->
     Z.of_nat j < 4 * i \/ 4 * i + 4 <= Z.of_nat j -> body2 i d !! j = d !! j) ->
  (forall i d d' (j : nat), 0 <= i < N -> length d = length d' ->
     (forall k : nat, 4 * i <= Z.of_nat k < 4 * i + 4 -> d !! k = d' !! k) ->
     4 * i <= Z.of_nat j < 4 * i + 4 -> body1 i d !! j = body1 i d' !! j) ->
  (forall i d d' (j : nat), 0 <= i < N -> length d = length d' ->
     (forall k : nat, 4 * i <= Z.of_nat k < 4 * i + 4 -> d !! k = d' !! k) ->
     4 * i <= Z.of_nat j < 4 * i + 4 -> body2 i d !! j = body2 i d' !! j) ->
  (forall i (j : nat), 0 <= i < N -> 4 * i <= Z.of_nat j < 4 * i + 4 ->
     body1 i data !! j = body2 i data !! j) ->
  for_range 0 N body1 data = for_range 0 N body2 data.
Proof.
  intros HN L1 L2 O1 O2 C1 C2 Hsame.
  destruct (block_loop N body1 data HN L1 O1 C1) as (_ & In1 & Out1).
  destruct (block_loop N body2 data HN L2 O2 C2) as (_ & In2 & Out2).
  apply list_eq. intros j.
  destruct (Z.lt_ge_cases (Z.of_nat j) (4 * N)) as [Hlt|Hge].
  - assert (0 <= Z.of_nat j / 4 < N /\
            4 * (Z.of_nat j / 4) <= Z.of_nat j < 4 * (Z.of_nat j / 4) + 4) as [Hi Hj].
    { pose proof (Z.div_mod (Z.of_nat j) 4 ltac:(lia)) as E.
      pose proof (Z.mod_pos_bound (Z.of_nat j) 4 ltac:(lia)) as B.
      split; [|lia]. split; [apply Z.div_pos; lia|apply Z.div_lt_upper_bound; lia]. }
    rewrite (In1 _ _ Hi Hj), (In2 _ _ Hi Hj). apply Hsame; assumption.
  - rewrite Out1, Out2 by exact Hge. reflexivity.
Qed.

Lemma pair_scan (buf : list number) :
  exists mn mx,
    for_range 0 (Z.of_nat (length buf)) (fun i '(min, max) =>
      if D.usable (read buf i) then
        let min := if flt (read buf i) min then read buf i else min in
        let max := if fgt (read buf i) max then read buf i else max in
        (min, max)
      else (min, max)) (PosInf, NegInf) = (mn, mx) /\
    scanned buf mn mx.
Proof.
  set (body := fun (i : Z) (r : number * number) => _).
  assert (scanned (take (Z.to_nat (Z.of_nat (length buf))) buf)
            (fst (for_range 0 (Z.of_nat (length buf)) body (PosInf, NegInf)))
            (snd (for_range 0 (Z.of_nat (length buf)) body (PosInf, NegInf)))) as H.
  { apply (for_range_ind (fun i r => scanned (take (Z.to_nat i) buf) (fst r) (snd r)));
      [lia|apply scanned_nil|].
    intros i [mn mx] Hi Hs. cbn [fst snd] in Hs.
    replace (Z.to_nat (i + 1)) with (S (Z.to_nat i)) by lia.
    pose proof (scanned_take_step_Z buf i _ _ ltac:(lia) Hs) as Hstep.
    unfold body. rewrite usable_isFinite. unfold scan_step in Hstep.
    cbn [fst snd] in Hstep. destruct (isFinite (read buf i)); exact Hstep. }
  rewrite Nat2Z.id, take_ge in H by lia.
  destruct (for_range 0 (Z.of_nat (length buf)) body (PosInf, NegInf)) as [mn mx].
  exists mn, mx. split; [reflexivity|exact H].
Qed.

Lemma red_level_range mn mx v : 0 <= red_level mn mx v <= 255.
Proof. unfold red_level, toUint8Clamp. destruct (Math_floor _); lia. Qed.

Lemma red_of_one : toUint8Clamp (Math_floor (fmul (Fin U) (of_Z 255))) = 255.
Proof.
  rewrite fmul_of_Z by lia. rewrite round64_255. unfold Math_floor.
  rewrite Z.div_mul by (pose proof U_pos; lia). by apply toUint8Clamp_int.
Qed.

Lemma fdiv_zero_l r : r <> NaN -> r <> Fin 0 -> fdiv (Fin 0) r = Fin 0.
Proof.
  intros H1 H2. destruct r as [| | |k]; [done|reflexivity|reflexivity|].
  unfold fdiv. destruct (Z.compare_spec k 0).
  - subst. done.
  - rewrite Z.mul_0_l. change (- 0) with 0. apply round64_zero. lia.
  - rewrite Z.mul_0_l. apply round64_zero. lia.
Qed.

Lemma or_else_one r : V.or_else r (of_Z 1) <> NaN /\ V.or_else r (of_Z 1) <> Fin 0.
Proof.
  rewrite of_Z_1. pose proof U_pos. unfold V.or_else.
  destruct r as [| | |k]; [split; intros [=]; lia|split; intros [=]..|].
  destruct (Z.eqb_spec k 0); split; intros [=]; lia.
Qed.

Lemma red_level_nonfinite mn mx v : isFinite v = false -> red_level mn mx v = 0.
Proof.
  intros H. unfold red_level. rewrite usable_isFinite, H. apply gray_of_zero.
Qed.

Lemma red_level_min mn mx k : mn = Fin k -> red_level mn mx mn = 0.
Proof.
  intros ->. unfold red_level. rewrite usable_isFinite. cbn [isFinite].
  rewrite fsub_Fin, Z.sub_diag, round64_zero by lia.
  rewrite fdiv_zero_l by apply or_else_one. apply gray_of_zero.
Qed.

Lemma red_level_max a b :
  a < b -> isFinite (fsub (Fin b) (Fin a)) = true -> red_level (Fin a) (Fin b) (Fin b) = 255.
Proof.
  intros Hab Hfin. unfold red_level. rewrite usable_isFinite. cbn [isFinite].
  destruct (fsub (Fin b) (Fin a)) as [| | |k] eqn:E; try discriminate Hfin.
  assert (1 <= k) as Hk.
  { rewrite fsub_Fin in E.
    assert (fle (round binary64 1 1) (round binary64 (b - a) 1) = true) as Hm.
    { apply round_mono; [apply binary64_good|apply binary64_good|lia|lia]. }
    rewrite round64_one, E in Hm. by apply leN_Fin in Hm. }
  unfold V.or_else. destruct (Z.eqb_spec k 0); [lia|].
  rewrite fdiv_self by lia. apply red_of_one.
Qed.

Lemma displayDifferenceImage_spec diffs :
  (finite_entries diffs = [] ->
     V.displayDifferenceImage (Some diffs) = V.NoValidData) /\
  (finite_entries diffs <> [] ->
     exists image mn mx,
       V.displayDifferenceImage (Some diffs) = V.Drawn image mn mx /\
       scanned diffs mn mx /\
       Z.of_nat (length image) = 4194304 /\
       forall i, 0 <= i < 1048576 ->
         pixel image i = Some (red_level mn mx (read diffs i), 0, 0, 255)).
Proof.
  unfold V.displayDifferenceImage.
  destruct (pair_scan diffs) as (mn & mx & E & Hs).
  cbv zeta in E. cbv zeta. rewrite E. clear E. cbv beta iota.
  assert (finite_entries diffs = [] \/ finite_entries diffs <> []) as [Ef|Ef].
  { destruct (finite_entries diffs); [by left|by right]. }
  - unfold scanned in Hs. rewrite Ef in Hs. destruct Hs as [-> ->].
    split; [reflexivity|]. intros H. by destruct H.
  - split; [intros H; by destruct Ef|]. intros _.
    assert (exists a b, mn = Fin a /\ mx = Fin b) as (a & b & -> & ->).
    { unfold scanned in Hs. destruct (finite_entries diffs) as [|w ws] eqn:Ew; [done|].
      destruct Hs as (H1 & H2 & _). rewrite <- Ew in H1, H2.
      apply finite_entries_finite in H1 as [a ->].
      apply finite_entries_finite in H2 as [b ->]. eauto. }
    cbn [feq orb].
    change (1024 * 1024 * 4) with 4194304.
    rewrite (for_range_nested 1024 1024) by lia. change (1024 * 1024) with 1048576.
    set (body := fun (i : Z) (image : list Z) => _).
    eexists _, (Fin a), (Fin b). split; [reflexivity|]. split; [exact Hs|].
    destruct (block_loop 1048576 body (replicate (Z.to_nat 4194304) 0)) as (L & Hp & _).
    + lia.
    + intros i d Hi. unfold body. by rewrite !set_byte_length.
    + intros i d j Hi Hj. unfold body.
      destruct (split_index 1024 i ltac:(lia) ltac:(lia)) as (_ & _ & Ei). rewrite Ei. bytes.
    + intros i d d' j Hi Hl Hd Hj. unfold body.
      destruct (split_index 1024 i ltac:(lia) ltac:(lia)) as (_ & _ & Ei). rewrite Ei.
      rewrite !set_byte_lookup, !set_byte_length, Hl. bytes. apply Hd. exact Hj.
    + rewrite length_replicate in L. split; [rewrite L; lia|].
      intros i Hi. apply pixel_lookup; [lia|].
      assert (length (replicate (Z.to_nat 4194304) 0) = Z.to_nat 4194304) as Lr
        by apply length_replicate.
      destruct (split_index 1024 i ltac:(lia) ltac:(lia)) as (_ & _ & Ei).
      assert ((if i <? Z.of_nat (length diffs)
               then if D.usable (read diffs i)
                    then fdiv (fsub (read diffs i) (Fin a))
                           (V.or_else (fsub (Fin b) (Fin a)) (of_Z 1))
                    else Fin 0
               else Fin 0) =
              (if D.usable (read diffs i)
               then fdiv (fsub (read diffs i) (Fin a))
                      (V.or_else (fsub (Fin b) (Fin a)) (of_Z 1))
               else Fin 0)) as Eguard.
      { destruct (Z.ltb_spec i (Z.of_nat (length diffs))); [reflexivity|].
        unfold read. destruct (Z.ltb_spec i 0); [reflexivity|].
        rewrite lookup_ge_None_2 by lia. reflexivity. }
      split; [|split; [|split]].
      all: rewrite (Hp i _ Hi) by lia.
      all: unfold body; rewrite Ei, Eguard.
      all: rewrite !set_byte_lookup, !set_byte_length, Lr; bytes.
      all: reflexivity.
Qed.

(** ** The search for the datasets *)

Lemma last_filter_snoc {A} (f : A -> bool) (l : list A) (x : A) :
  last (List.filter f (l ++ [x])) = if f x then Some x else last (List.filter f l).
Proof.
  rewrite List.filter_app. cbn. destruct (f x).
  - apply last_snoc.
  - by rewrite app_nil_r.
Qed.

Lemma search_loop (entries : list (string * DS.Dataset)) :
  foldl (fun '(surface, intensity) '(path, dataset) =>
           let surface :=
             if DS.includes (DS.toLowerCase path) "surface" then Some dataset else surface in
           let intensity :=
             if DS.includes (DS.toLowerCase path) "intensity" then Some dataset else intensity in
           (surface, intensity))
    (None, None) entries =
  (last_named "surface" entries, last_named "intensity" entries).
Proof.
  induction entries as [|[path d] l IH] using rev_ind; [reflexivity|].
  rewrite foldl_app, IH. cbn [foldl]. unfold last_named.
  rewrite !last_filter_snoc. cbn [fst].
  destruct (DS.includes (DS.toLowerCase path) "surface"),
    (DS.includes (DS.toLowerCase path) "intensity"); reflexivity.
Qed.

(** * Further properties of the code *)

(** ** The intensity image *)

(** X1: [displayIntensity] fills a 1024 x 1024 RGBA image: pixel [i] is
    opaque grey, its three colour bytes being the level computed from
    [rawIntensityData[i]] and the stored range, between 0 and 255; a
    sample that is not finite, or missing because the buffer is shorter
    than the image, is drawn black. *)
Theorem displayIntensity_pixels p intensity :
  M.rawIntensityData p = Some intensity ->
  exists data,
    M.displayIntensity p = Some data /\
    Z.of_nat (length data) = 4194304 /\
    forall i, 0 <= i < 1048576 ->
      let g := gray_level (M.intensityMin p) (M.intensityMax p) (read intensity i) in
      pixel data i = Some (g, g, g, 255) /\ 0 <= g <= 255 /\
      (isFinite (read intensity i) = false -> g = 0) /\
      (Z.of_nat (length intensity) <= i -> g = 0).
Proof.
  intros Hraw. destruct (displayIntensity_spec p intensity Hraw) as (data & E & L & H).
  exists data. split; [exact E|]. split; [exact L|].
  intros i Hi. cbv zeta. split; [apply H; exact Hi|].
  split; [apply gray_level_range|]. split; [apply gray_level_nonfinite|].
  intros Hout. apply gray_level_nonfinite. unfold read.
  destruct (Z.ltb_spec i 0); [reflexivity|].
  rewrite lookup_ge_None_2 by lia. reflexivity.
Qed.

(** X2: when the stored minimum is not above the stored maximum, the
    grey level of [displayIntensity] does not decrease with the sample:
    of two pixels with finite samples, the one with the larger sample is
    at least as bright. *)
Theorem displayIntensity_monotone p intensity a b (i j : nat) xi xj :
  M.rawIntensityData p = Some intensity ->
  M.intensityMin p = Fin a -> M.intensityMax p = Fin b -> a <= b ->
  Z.of_nat i < 1048576 -> Z.of_nat j < 1048576 ->
  intensity !! i = Some (Fin xi) -> intensity !! j = Some (Fin xj) -> xi <= xj ->
  exists data gi gj,
    M.displayIntensity p = Some data /\
    pixel data (Z.of_nat i) = Some (gi, gi, gi, 255) /\
    pixel data (Z.of_nat j) = Some (gj, gj, gj, 255) /\
    gi <= gj.
Proof.
  intros Hraw Hmin Hmax Hab Hi Hj Ei Ej Hx.
  destruct (displayIntensity_spec p intensity Hraw) as (data & E & L & H).
  exists data. eexists _, _. split; [exact E|].
  split; [apply H; lia|]. split; [apply H; lia|].
  rewrite (read_lookup _ _ _ Ei), (read_lookup _ _ _ Ej), Hmin, Hmax.
  by apply gray_level_mono.
Qed.

(** X3: a pixel whose sample equals the stored minimum is drawn black,
    and, when the stored maximum is larger and the range [max - min] is
    finite, a pixel whose sample equals the maximum is drawn white. *)
Theorem displayIntensity_extremes p intensity a b (i : nat) :
  M.rawIntensityData p = Some intensity ->
  M.intensityMin p = Fin a -> M.intensityMax p = Fin b ->
  Z.of_nat i < 1048576 ->
  exists data,
    M.displayIntensity p = Some data /\
    (intensity !! i = Some (Fin a) -> pixel data (Z.of_nat i) = Some (0, 0, 0, 255)) /\
    (intensity !! i = Some (Fin b) -> a < b ->
     isFinite (fsub (Fin b) (Fin a)) = true ->
     pixel data (Z.of_nat i) = Some (255, 255, 255, 255)).
Proof.
  intros Hraw Hmin Hmax Hi.
  destruct (displayIntensity_spec p intensity Hraw) as (data & E & L & H).
  exists data. split; [exact E|]. split.
  - intros Ei. rewrite (H (Z.of_nat i)) by lia. cbv zeta.
    rewrite (read_lookup _ _ _ Ei), Hmin, gray_level_min. reflexivity.
  - intros Ei Hab Hfin. rewrite (H (Z.of_nat i)) by lia. cbv zeta.
    rewrite (read_lookup _ _ _ Ei), Hmin, Hmax, gray_level_max by assumption. reflexivity.
Qed.

(** X4: [updateIntensityOverlay] redraws the intensity image and then
    tints exactly the pixels whose difference is finite and at least the
    threshold: red is raised by 100 (at most 255), green and blue are
    lowered by 50 (at least 0), alpha stays 255; every other pixel keeps
    its grey level. *)
Theorem updateIntensityOverlay_pixels h a intensity d threshold :
  M.rawIntensityData (M.imageProcessor a) = Some intensity ->
  M.differenceData a = Some d ->
  exists data,
    M.updateIntensityOverlay threshold (h, a) =
      (M.Normal, (h, M.set_intensityCanvas data a)) /\
    Z.of_nat (length data) = 4194304 /\
    forall i, 0 <= i < 1048576 ->
      let g := gray_level (M.intensityMin (M.imageProcessor a))
                 (M.intensityMax (M.imageProcessor a)) (read intensity i) in
      pixel data i =
        Some (if M.highlighted (deref h d) threshold i
              then (Z.min 255 (g + 100), Z.max 0 (g - 50), Z.max 0 (g - 50), 255)
              else (g, g, g, 255)).
Proof. apply updateIntensityOverlay_spec. Qed.

(** ** A run of the inference *)

(** X5: whatever the backend does (throw, or return outputs of any
    shape), a run that passes the guard ends with [isRunning] false and
    the run button enabled; it only appends buffers to the heap, at most
    two, and leaves the model, the percentile, the scan and its
    normalization range as they were. *)
Theorem runInference_always_releases h a m :
  M.isRunning a = false -> M.model a = Some m -> M.imageLoaded a = true ->
  exists ext a',
    M.runInference (h, a) = (h ++ ext, a') /\
    (length ext <= 2)%nat /\
    M.isRunning a' = false /\ M.runBtn_disabled a' = false /\
    M.model a' = M.model a /\ M.imageLoaded a' = M.imageLoaded a /\
    M.currentPercentile a' = M.currentPercentile a /\
    same_data (M.imageProcessor a) (M.imageProcessor a').
Proof.
  intros H1 H2 H3. rewrite (runInference_unfold h a m H1 H2 H3).
  pose proof (grid_loop_state m (M.run_begin a)) as G.
  destruct (M.grid_loop m (M.run_begin a)) as [[a1 outs]|r [a1 outs]].
  - destruct G as (Ea & Hn & Hout).
    change (16 =? 0) with false in Ea. cbv iota in Ea.
    destruct (Hout 0 0 ltac:(lia) ltac:(lia) ltac:(lia)) as (t0 & _ & Et0 & _).
    destruct (processCrop_loaded _ _ _ _ Et0) as (intensity & Hraw).
    change (M.imageProcessor (M.run_begin a)) with (M.imageProcessor a) in Hraw.
    assert (M.imageProcessor a1 = M.imageProcessor a) as Eip by (rewrite Ea; reflexivity).
    destruct (after_grid h a1 outs intensity Hn ltac:(rewrite Eip; exact Hraw)) as [Hok Hbad].
    destruct (decide (Forall (fun out => Z.of_nat (length out) = 65536) outs)) as [Hall|Hnot].
    + destruct (Hok Hall) as (b & diff & a4 & ER & _ & _ & _ & _ & F).
      cbv zeta in ER. cbv zeta. rewrite ER.
      destruct F as (F1 & F2 & F3 & F4 & F5 & F6 & F7 & F8 & F9 & F10 & F11).
      eexists _, _. split; [reflexivity|]. split; [cbn; lia|].
      split; [reflexivity|]. split; [reflexivity|].
      split. { cbn. rewrite F2. cbn. rewrite Ea. reflexivity. }
      split. { cbn. rewrite F4. cbn. rewrite Ea. reflexivity. }
      split. { cbn. rewrite F5. cbn. rewrite Ea. reflexivity. }
      cbn. rewrite F1. cbn. rewrite Eip. repeat split.
    + destruct (Hbad Hnot) as (b & ER & _). cbv zeta in ER. cbv zeta. rewrite ER.
      eexists _, _. split; [reflexivity|]. split; [cbn; lia|].
      split; [reflexivity|]. split; [reflexivity|].
      split. { cbn. rewrite Ea. reflexivity. }
      split. { cbn. rewrite Ea. reflexivity. }
      split. { cbn. rewrite Ea. reflexivity. }
      cbn. rewrite Eip. repeat split.
  - destruct G as (gx & gy & _ & _ & _ & Ea & _).
    exists [], (M.set_runBtn_disabled false (M.set_isRunning false a1)).
    split; [rewrite app_nil_r; reflexivity|]. split; [cbn; lia|].
    split; [reflexivity|]. split; [reflexivity|].
    rewrite Ea. repeat split.
Qed.

(** X6: when the backend throws on one of the 16 tiles, the run stops at
    the first tile that fails, in the row-major order of the grid: the
    backend answered every tile before it, the heap is unchanged, no
    reconstruction or difference buffer is created, and the application
    is left as the opening statements and the progress update of that
    tile made it, with [isRunning] false and the run button enabled. *)
Theorem runInference_backend_failure h a m intensity gridX gridY :
  M.isRunning a = false -> M.model a = Some m -> M.imageLoaded a = true ->
  M.rawIntensityData (M.imageProcessor a) = Some intensity ->
  0 <= gridX < 4 -> 0 <= gridY < 4 ->
  (forall tile, M.processCrop (M.imageProcessor a) gridX gridY = Some tile ->
                M.inference m tile = None) ->
  exists gx gy tile,
    0 <= gx < 4 /\ 0 <= gy < 4 /\ gy * 4 + gx <= gridY * 4 + gridX /\
    M.processCrop (M.imageProcessor a) gx gy = Some tile /\
    M.inference m tile = None /\
    (forall gx' gy', 0 <= gx' < 4 -> 0 <= gy' < 4 -> gy' * 4 + gx' < gy * 4 + gx ->
       exists tile' out,
         M.processCrop (M.imageProcessor a) gx' gy' = Some tile' /\
         M.inference m tile' = Some out) /\
    M.runInference (h, a) =
      (h, M.set_runBtn_disabled false
            (M.set_isRunning false
               (M.updateProgress (gy * 4 + gx + 1) 16 (M.run_begin a)))).
Proof.
  intros H1 H2 H3 Hraw HX HY Hf.
  destruct (processCrop_spec _ _ gridX gridY Hraw) as (tile & Et & _).
  destruct (runInference_failure h a m gridX gridY tile H1 H2 H3 HX HY Et (Hf tile Et))
    as (gx & gy & Hgx & Hgy & Hle & Hwhy & Hbefore & E).
  destruct Hwhy as [En|(tile' & Et' & Ef')].
  { destruct (processCrop_spec _ _ gx gy Hraw) as (t0 & E0 & _). congruence. }
  exists gx, gy, tile'. split; [exact Hgx|]. split; [exact Hgy|]. split; [exact Hle|].
  split; [exact Et'|]. split; [exact Ef'|]. split; [|exact E].
  intros gx' gy' Hgx' Hgy' Hlt. apply Hbefore; [exact Hgx'|lia|exact Hlt].
Qed.

(** X7: when the backend returns 65536 values for each of the 16 tiles,
    the run appends two buffers to the heap: the reconstruction, placed
    from the 16 outputs collected in row-major order, and the difference
    buffer computed from the scan and that reconstruction; the processor
    and the application refer to them, the percentile controls are shown,
    the progress stands at 16 of 16 and the run flag is released. *)
Theorem runInference_pipeline h a m intensity :
  M.isRunning a = false -> M.model a = Some m -> M.imageLoaded a = true ->
  M.rawIntensityData (M.imageProcessor a) = Some intensity ->
  (forall gridX gridY tile, 0 <= gridX < 4 -> 0 <= gridY < 4 ->
     M.processCrop (M.imageProcessor a) gridX gridY = Some tile ->
     exists out, M.inference m tile = Some out /\ Z.of_nat (length out) = 65536) ->
  exists outputs recon diff a',
    M.runInference (h, a) = (h ++ [recon; diff], a') /\
    Z.of_nat (length outputs) = 16 /\
    (forall gridX gridY, 0 <= gridX < 4 -> 0 <= gridY < 4 ->
       exists tile out,
         M.processCrop (M.imageProcessor a) gridX gridY = Some tile /\
         M.inference m tile = Some out /\
         outputs !! Z.to_nat (gridY * 4 + gridX) = Some out) /\
    length recon = Z.to_nat (M.width (M.imageProcessor a) * M.height (M.imageProcessor a)) /\
    written outputs 1048576 recon /\
    length diff = length intensity /\
    (forall i : nat, (i < length intensity)%nat ->
       diff !! i = Some (difference_at (read intensity (Z.of_nat i)) (read recon (Z.of_nat i)))) /\
    M.imageProcessor a' =
      M.set_lastReconstructed (Some (length h)) (M.imageProcessor a) /\
    M.differenceData a' = Some (S (length h)) /\
    M.percentileControls_shown a' = true /\
    M.isRunning a' = false /\ M.runBtn_disabled a' = false /\
    M.progress a' = (16, 16).
Proof.
  intros H1 H2 H3 Hraw Hm. rewrite (runInference_unfold h a m H1 H2 H3).
  pose proof (grid_loop_state m (M.run_begin a)) as G.
  destruct (M.grid_loop m (M.run_begin a)) as [[a1 outs]|r [a1 outs]].
  2:{ exfalso. destruct G as (gx & gy & Hgx & Hgy & Hlt & _ & Hwhy & _).
      change (M.imageProcessor (M.run_begin a)) with (M.imageProcessor a) in Hwhy.
      destruct (processCrop_spec _ _ gx gy Hraw) as (t & Et & _).
      destruct Hwhy as [E|(tile & E1 & E2)]; [congruence|].
      destruct (Hm gx gy tile ltac:(lia) ltac:(lia) E1) as (out & Eo & _). congruence. }
  destruct G as (Ea & Hn & Hout).
  change (16 =? 0) with false in Ea. cbv iota in Ea.
  change (M.imageProcessor (M.run_begin a)) with (M.imageProcessor a) in Hout.
  assert (Forall (fun out => Z.of_nat (length out) = 65536) outs) as Hall.
  { apply Forall_lookup_2. intros k out Hk.
    pose proof (lookup_lt_Some _ _ _ Hk) as Hlt.
    destruct (Hout (Z.of_nat k mod 4) (Z.of_nat k / 4)
                ltac:(Z.div_mod_to_equations; lia) ltac:(Z.div_mod_to_equations; lia)
                ltac:(Z.div_mod_to_equations; lia)) as (t & o & E1 & E2 & E3).
    replace (Z.to_nat (Z.of_nat k / 4 * 4 + Z.of_nat k mod 4)) with k in E3
      by (Z.div_mod_to_equations; lia).
    rewrite Hk in E3. injection E3 as ->.
    destruct (Hm (Z.of_nat k mod 4) (Z.of_nat k / 4) t
                ltac:(Z.div_mod_to_equations; lia) ltac:(Z.div_mod_to_equations; lia) E1)
      as (o' & Eo & Lo). congruence. }
  assert (M.imageProcessor a1 = M.imageProcessor a) as Eip by (rewrite Ea; reflexivity).
  destruct (after_grid h a1 outs intensity Hn ltac:(rewrite Eip; exact Hraw)) as [Hok _].
  destruct (Hok Hall) as (b & diff & a4 & ER & Lb & Wb & Ld & Wd & F).
  cbv zeta in ER. cbv zeta. rewrite ER.
  exists outs, b, diff. eexists. split; [reflexivity|].
  destruct F as (F1 & F2 & F3 & F4 & F5 & F6 & F7 & F8 & F9 & F10 & F11).
  split; [exact Hn|]. split.
  { intros gx gy Hgx Hgy. apply Hout; lia. }
  split; [rewrite Lb, Eip; reflexivity|]. split; [exact Wb|].
  split; [exact Ld|]. split; [exact Wd|].
  split. { cbn. rewrite F1. cbn. rewrite Eip. reflexivity. }
  split. { cbn. rewrite F6. reflexivity. }
  split. { cbn. rewrite F11. reflexivity. }
  split; [reflexivity|]. split; [reflexivity|].
  cbn. rewrite F10. cbn. rewrite Ea. reflexivity.
Qed.


(** ** Edge cases of the difference and of the shape check *)

(** X9: [createDifferenceData] on a scan that has no reconstruction
    replaces [differenceData] by a new buffer of zeros of the length of
    the scan, and then throws exactly when the scan has a finite sample
    (the reconstruction is only read for those). *)
Theorem createDifferenceData_without_reconstruction h a intensity :
  M.rawIntensityData (M.imageProcessor a) = Some intensity ->
  M.lastReconstructed (M.imageProcessor a) = None ->
  exists c,
    M.createDifferenceData (h, a) =
      (c, (h ++ [new_Float32Array (Z.of_nat (length intensity))],
           M.set_differenceData (Some (length h)) a)) /\
    (c = M.Thrown <-> exists v, v ∈ intensity /\ isFinite v = true).
Proof.
  intros Hraw Hlast. unfold M.createDifferenceData. rewrite Hraw, Hlast.
  unfold alloc. cbv beta iota zeta.
  set (n := Z.of_nat (length intensity)).
  set (h1 := h ++ [new_Float32Array n]).
  set (body := fun (i : Z) (h : list (list number)) => _).
  assert (match for_return 0 n body h1 with
          | Next h' => h' = h1 /\ forall k : nat, Z.of_nat k < n ->
                         isFinite (read intensity (Z.of_nat k)) = false
          | Return c h' => c = M.Thrown /\ h' = h1 /\
                         exists k : nat, Z.of_nat k < n /\
                           isFinite (read intensity (Z.of_nat k)) = true
          end) as Hloop.
  { apply (for_return_ind (fun i fl =>
      match fl with
      | Next h' => h' = h1 /\ forall k : nat, Z.of_nat k < i ->
                     isFinite (read intensity (Z.of_nat k)) = false
      | Return c h' => c = M.Thrown /\ h' = h1 /\
                     exists k : nat, Z.of_nat k < n /\
                       isFinite (read intensity (Z.of_nat k)) = true
      end)); [lia| | |].
    - split; [reflexivity|]. intros; lia.
    - intros i s Hi [-> Hprev]. unfold body.
      destruct (isFinite (read intensity i)) eqn:Ef.
      + split; [reflexivity|]. split; [reflexivity|].
        exists (Z.to_nat i). split; [lia|]. rewrite Z2Nat.id by lia. exact Ef.
      + split.
        * unfold h1. rewrite store_last, write_zero_id. reflexivity.
        * intros k Hk. destruct (Z.eq_dec (Z.of_nat k) i) as [<-|NE]; [exact Ef|].
          apply Hprev. lia.
    - intros i c s Hi H. exact H. }
  destruct (for_return 0 n body h1) as [h'|c h'].
  - destruct Hloop as [-> Hnone]. exists M.Normal. split; [reflexivity|].
    split; [intros H; discriminate H|].
    intros (v & Hin & Hv). exfalso.
    apply list_elem_of_lookup_1 in Hin as [k Hk].
    pose proof (lookup_lt_Some _ _ _ Hk).
    rewrite <- (read_lookup _ _ _ Hk) in Hv.
    rewrite Hnone in Hv by (unfold n; lia). discriminate Hv.
  - destruct Hloop as (-> & -> & k & Hk & Hf). exists M.Thrown. split; [reflexivity|].
    split; [|reflexivity]. intros _.
    destruct (intensity !! k) as [v|] eqn:Ev.
    + exists v. split; [eapply list_elem_of_lookup_2; exact Ev|].
      rewrite (read_lookup _ _ _ Ev) in Hf. exact Hf.
    + apply lookup_ge_None_1 in Ev. unfold n in Hk. lia.
Qed.

(** X10: for a processor whose [width * height] is not negative (so
    that the allocation of the reconstruction does not throw),
    [combineOutputs] returns [true] exactly when it is given 16 outputs
    of 65536 elements each; the scan and whether anything is loaded play
    no part in the answer. *)
Theorem combineOutputs_accepts_iff outputs h p :
  0 <= M.width p * M.height p ->
  fst (M.combineOutputs outputs (h, p)) = true <->
  Z.of_nat (length outputs) = 16 /\
  Forall (fun out => Z.of_nat (length out) = 65536) outputs.
Proof.
  intros _.
  destruct (Z.eq_dec (Z.of_nat (length outputs)) 16) as [Hn|Hn].
  - destruct (decide (Forall (fun out => Z.of_nat (length out) = 65536) outputs)) as [Hall|Hnot].
    + destruct (combineOutputs_ok outputs h p Hn Hall) as (b & -> & _). cbn [fst].
      split; [intros _; by split|reflexivity].
    + destruct (combineOutputs_wrong_length outputs h p Hn Hnot) as (b & -> & _). cbn [fst].
      split; [intros H; discriminate H|]. intros [_ H]. by destruct Hnot.
  - rewrite combineOutputs_wrong_count by exact Hn. cbn [fst].
    split; [intros H; discriminate H|]. intros [H _]. by destruct Hn.
Qed.

(** X11: at percentile 0 the threshold of [updateHighlighting] is the
    least strictly positive finite difference and at percentile 100 (the
    index [n], clamped to [n - 1]) it is the greatest: both are among
    the values that pass the filter [isFinite(d) && d > 0], and bound
    every such value; so at 0 every pixel with a positive finite
    difference is marked. *)
Theorem percentileThreshold_extremes diffs :
  Z.of_nat (length diffs) < 2 ^ 53 ->
  List.filter M.validDiff diffs <> [] ->
  exists lo hi,
    M.percentileThreshold diffs (Fin 0) = Some lo /\
    M.percentileThreshold diffs (Fin (100 * U)) = Some hi /\
    lo ∈ List.filter M.validDiff diffs /\ hi ∈ List.filter M.validDiff diffs /\
    (forall d, d ∈ diffs -> M.validDiff d = true ->
       fle lo d = true /\ fle d hi = true) /\
    (forall i : nat, 
       M.validDiff (read diffs (Z.of_nat i)) = true ->
       M.highlighted diffs lo (Z.of_nat i) = true).
Proof.
  intros Hlen Hne.
  destruct (percentile_pick_extremes (List.filter M.validDiff diffs))
    as (lo & hi & E0 & E1 & Hlo & Hhi & Hall).
  - by apply filter_length_bound.
  - apply validDiff_finite.
  - exact Hne.
  - exists lo, hi. rewrite !percentileThreshold_pick.
    split; [exact E0|]. split; [exact E1|].
    split; [exact Hlo|]. split; [exact Hhi|].
    assert (forall d, d ∈ diffs -> M.validDiff d = true ->
              fle lo d = true /\ fle d hi = true) as Hd.
    { intros d Hin Hv. apply Hall. apply filter_validDiff_elem.
      split; [exact Hin|]. by apply validDiff_spec. }
    split; [exact Hd|].
    intros i Hv. unfold M.highlighted.
    assert (exists v, diffs !! i = Some v) as [v Ev].
    { destruct (diffs !! i) as [v|] eqn:Ev; [eauto|].
      unfold read in Hv. rewrite Nat2Z.id, Ev in Hv.
      destruct (Z.of_nat i <? 0); discriminate Hv. }
    rewrite (read_lookup _ _ _ Ev) in *.
    destruct (Hd v (list_elem_of_lookup_2 _ _ _ Ev) Hv) as [Hle _].
    apply andb_true_iff. split; [|exact Hle].
    apply validDiff_spec in Hv as (x & -> & _). reflexivity.
Qed.

(** X12: [calculateNormalization] runs one loop over the length of the
    intensity buffer, so the surface range it stores ignores every
    surface sample at an index beyond the intensity buffer;
    [calculateNormalizationParams] scans each buffer over its own
    length. *)
Theorem calculateNormalization_surface_prefix intensity surface :
  (forall p,
     M.rawIntensityData p = Some intensity -> M.rawSurfaceData p = Some surface ->
     exists p',
       M.calculateNormalization p = Some p' /\
       normalization_range intensity (M.intensityMin p') (M.intensityMax p') /\
       normalization_range (take (length intensity) surface)
         (M.surfaceMin p') (M.surfaceMax p')) /\
  (forall p,
     D.rawIntensityData p = Some intensity -> D.rawSurfaceData p = Some surface ->
     exists p',
       D.calculateNormalizationParams p = Some p' /\
       normalization_range intensity (D.intensityMin p') (D.intensityMax p') /\
       normalization_range surface (D.surfaceMin p') (D.surfaceMax p')).
Proof.
  split.
  - intros p HI HS.
    destruct (calculateNormalization_spec p intensity surface HI HS)
      as (p' & imax & smax & E & _ & S1 & W1 & S2 & W2).
    exists p'. split; [exact E|]. rewrite W1, W2.
    split; by apply scanned_normalization_range.
  - intros p HI HS.
    destruct (Demo_calculateNormalizationParams_spec p intensity surface HI HS)
      as (p' & imax & smax & E & _ & S1 & W1 & S2 & W2).
    exists p'. split; [exact E|]. rewrite W1, W2.
    split; by apply scanned_normalization_range.
Qed.

(** ** The thumbnail *)

(** X13: for a scan of [width x height] samples (each below 2^26),
    pixel [(x, y)] of the 128 x 128 thumbnail is the grey level of the
    sample at column [floor(x * width / 128)] and row
    [floor(y * height / 128)], computed exactly by the double arithmetic
    of [generateThumbnail]; that sample always lies inside the scan. *)
Theorem generateThumbnail_samples p intensity :
  M.rawIntensityData p = Some intensity ->
  0 < M.width p < 2 ^ 26 -> 0 < M.height p < 2 ^ 26 ->
  exists data,
    G.generateThumbnail p = Some data /\
    Z.of_nat (length data) = 65536 /\
    forall x y, 0 <= x < 128 -> 0 <= y < 128 ->
      let srcX := x * M.width p / 128 in
      let srcY := y * M.height p / 128 in
      let g := gray_level (M.intensityMin p) (M.intensityMax p)
                 (read intensity (srcY * M.width p + srcX)) in
      0 <= srcX < M.width p /\ 0 <= srcY < M.height p /\
      0 <= srcY * M.width p + srcX < M.width p * M.height p /\
      pixel data (y * 128 + x) = Some (g, g, g, 255).
Proof.
  intros Hraw HW HH.
  destruct (generateThumbnail_spec p intensity Hraw HW HH) as (data & E & L & H).
  exists data. split; [exact E|]. split; [exact L|].
  intros x y Hx Hy. destruct (H x y Hx Hy) as (H1 & H2 & H3). cbv zeta.
  split; [exact H1|]. split; [exact H2|]. split; [nia|exact H3].
Qed.

(** X14: for a 1024 x 1024 scan the thumbnail is the intensity image
    sampled at every eighth pixel of every eighth row: pixel [(x, y)] of
    the thumbnail has the bytes of pixel [(8x, 8y)] of the image drawn by
    [displayIntensity]. *)
Theorem generateThumbnail_subsamples_display p intensity :
  M.rawIntensityData p = Some intensity ->
  M.width p = 1024 -> M.height p = 1024 ->
  exists thumb full,
    G.generateThumbnail p = Some thumb /\
    M.displayIntensity p = Some full /\
    forall x y, 0 <= x < 128 -> 0 <= y < 128 ->
      pixel thumb (y * 128 + x) = pixel full (8 * y * 1024 + 8 * x).
Proof.
  intros Hraw HW HH.
  destruct (generateThumbnail_spec p intensity Hraw) as (thumb & Et & _ & Ht).
  { rewrite HW. split; reflexivity. }
  { rewrite HH. split; reflexivity. }
  destruct (displayIntensity_spec p intensity Hraw) as (full & Ef & _ & Hf).
  exists thumb, full. split; [exact Et|]. split; [exact Ef|].
  intros x y Hx Hy. destruct (Ht x y Hx Hy) as (_ & _ & E). rewrite E.
  rewrite Hf by lia. cbv zeta. rewrite HW, HH.
  replace (x * 1024 / 128) with (8 * x).
  2:{ apply Z.div_unique with 0; lia. }
  replace (y * 1024 / 128) with (8 * y).
  2:{ apply Z.div_unique with 0; lia. }
  reflexivity.
Qed.

(** ** The point cloud *)

(** X15: [createSurfaceVisualization] of the [ModelInferenceApp] front
    end draws one point for each finite sample of the surface window, in
    scan order, and one grey colour for each point; it draws nothing
    (and leaves [points] null) when the surface range is not positive or
    when no sample is finite.  The position and colour arrays have the
    same length, three values per point. *)
Theorem createSurfaceVisualization_points a surface :
  D.rawSurfaceData (C.imageProcessor a) = Some surface ->
  0 < D.width (C.imageProcessor a) -> 0 <= D.height (C.imageProcessor a) ->
  let p := C.imageProcessor a in
  let idx := plotted surface (D.width p) (D.height p) in
  let a' := C.createSurfaceVisualization a in
  C.points a' =
    (if fle (fsub (D.surfaceMax p) (D.surfaceMin p)) (Fin 0) || bool_decide (idx = [])
     then None
     else Some (C.Float32Array_from (flat_map (point_at p surface) idx),
                C.Float32Array_from
                  (flat_map (fun _ => [literal 1 2; literal 1 2; literal 1 2]) idx))) /\
  (forall positions colors, C.points a' = Some (positions, colors) ->
     length positions = (3 * length idx)%nat /\ length colors = length positions) /\
  C.imageProcessor a' = p /\ C.differenceData a' = C.differenceData a.
Proof.
  intros Hs HW HH p idx a'.
  destruct (createSurfaceVisualization_spec a surface Hs HW HH) as (E1 & E2 & _ & _ & E5).
  fold p idx a' in E1, E2, E5.
  split; [exact E5|]. split; [|split; [exact E1|exact E2]].
  intros positions colors Hp. rewrite E5 in Hp.
  destruct (fle _ _ || bool_decide (idx = [])); [discriminate Hp|].
  injection Hp as <- <-. unfold C.Float32Array_from. rewrite !length_map.
  rewrite (flat_map_length_const (point_at p surface) 3) by apply point_at_length.
  rewrite (flat_map_length_const (fun _ => [literal 1 2; literal 1 2; literal 1 2]) 3)
    by (intros; apply eq_refl).
  split; reflexivity.
Qed.

(** X16: when the surface range is finite and every finite sample of
    the surface buffer lies between [surfaceMin] and [surfaceMax] (as
    after [calculateNormalizationParams]), every point that
    [createSurfaceVisualization] draws has a height between 0 and 20: the
    second of the three coordinates of each point, as stored in the
    position array, is a finite value in that interval. *)
Theorem createSurfaceVisualization_heights_in_range a surface mn mx positions colors :
  D.rawSurfaceData (C.imageProcessor a) = Some surface ->
  0 < D.width (C.imageProcessor a) -> 0 <= D.height (C.imageProcessor a) ->
  D.surfaceMin (C.imageProcessor a) = Fin mn ->
  D.surfaceMax (C.imageProcessor a) = Fin mx ->
  isFinite (fsub (Fin mx) (Fin mn)) = true ->
  (forall z, Fin z ∈ surface -> mn <= z <= mx) ->
  C.points (C.createSurfaceVisualization a) = Some (positions, colors) ->
  forall k : nat, (3 * k + 1 < length positions)%nat ->
    exists v, positions !! (3 * k + 1)%nat = Some (Fin v) /\ 0 <= v <= 20 * U.
Proof.
  intros Hs HW HH Hmn Hmx Hfin Hall Hp k Hk.
  destruct (createSurfaceVisualization_spec a surface Hs HW HH) as (_ & _ & _ & _ & E).
  cbv zeta in E. rewrite E, Hmn, Hmx in Hp. clear E.
  destruct (fle (fsub (Fin mx) (Fin mn)) (Fin 0)) eqn:Hpos; [discriminate Hp|].
  cbn [orb] in Hp. destruct (bool_decide _); [discriminate Hp|].
  injection Hp as <- _. unfold C.Float32Array_from in *.
  rewrite length_map, (flat_map_length_const _ 3) in Hk by apply point_at_length.
  destruct (lookup_lt_is_Some_2
              (plotted surface (D.width (C.imageProcessor a)) (D.height (C.imageProcessor a)))
              k ltac:(lia)) as [i Ei].
  destruct (plotted_elem _ _ _ _ (list_elem_of_lookup_2 _ _ _ Ei)) as (z & Ez & Hin).
  destruct (scaled_height_range mn mx z (Hall z Hin) Hpos Hfin) as (v & Ev & Hv).
  exists v. split; [|exact Hv].
  rewrite map_lookup.
  rewrite (flat_map_lookup_const _ 3 _ k 1 i (point_at_length _ _) Ei) by lia.
  unfold point_at. cbv zeta. cbn [lookup list_lookup fmap option_fmap option_map].
  rewrite Ez, Hmn, Hmx, Ev. reflexivity.
Qed.

(** X17: [updatePointCloudHighlighting] called on the point cloud that
    [createSurfaceVisualization] has drawn never finds a length mismatch:
    it replaces the colour array by one colour per point, red for a point
    whose difference is at least the threshold and grey otherwise (a
    missing difference counts as below the threshold), and leaves the
    positions as they are.  When nothing was drawn it does nothing. *)
Theorem updatePointCloudHighlighting_recolours a surface diffs threshold :
  D.rawSurfaceData (C.imageProcessor a) = Some surface ->
  0 < D.width (C.imageProcessor a) -> 0 <= D.height (C.imageProcessor a) ->
  C.differenceData a = Some diffs ->
  let p := C.imageProcessor a in
  let idx := plotted surface (D.width p) (D.height p) in
  let a1 := C.createSurfaceVisualization a in
  match C.points a1 with
  | None => C.updatePointCloudHighlighting threshold a1 = Some a1
  | Some (positions, colors) =>
      exists a2,
        C.updatePointCloudHighlighting threshold a1 = Some a2 /\
        C.points a2 =
          Some (positions, C.Float32Array_from (flat_map (color_at diffs threshold) idx)) /\
        length (flat_map (color_at diffs threshold) idx) = length colors /\
        length colors = length positions /\
        C.imageProcessor a2 = p /\ C.differenceData a2 = Some diffs
  end.
Proof.
  intros Hs HW HH Hd p idx a1.
  destruct (createSurfaceVisualization_spec a surface Hs HW HH) as (E1 & E2 & E3 & E4 & E5).
  fold p idx a1 in E1, E2, E3, E4, E5.
  unfold C.updatePointCloudHighlighting.
  destruct (C.points a1) as [[positions colors]|] eqn:Ep; [|reflexivity].
  rewrite E2, Hd.
  destruct (fle _ _ || bool_decide (idx = [])) eqn:Eg; [discriminate E5|].
  injection E5 as -> ->.
  apply orb_false_elim in Eg as [_ Hne]. apply bool_decide_eq_false_1 in Hne.
  pose proof (diff_scan_frame diffs a1) as F. cbv zeta in F. cbv zeta.
  set (a1' := if C.falsy (C.diffMin a1) || C.falsy (C.diffMax a1) then _ else a1) in *.
  destruct F as (F1 & F2 & F3).
  rewrite F1, E1. fold p in Hs. rewrite Hs.
  pose proof (color_loops (D.width p) (D.height p) surface diffs threshold HW HH) as EL.
  cbv zeta in EL. rewrite EL. clear EL. fold idx.
  unfold C.Float32Array_from. rewrite !length_map.
  rewrite (flat_map_length_const (color_at diffs threshold) 3) by apply color_at_length.
  rewrite (flat_map_length_const (point_at p surface) 3) by apply point_at_length.
  rewrite (flat_map_length_const (fun _ => [literal 1 2; literal 1 2; literal 1 2]) 3)
    by (intros; apply eq_refl).
  assert (0 < length idx)%nat as Hpos by (destruct idx; [done|cbn; lia]).
  destruct (Z.ltb_spec 0 (Z.of_nat (3 * length idx))); [|lia].
  rewrite Z.eqb_refl.
  eexists. split; [reflexivity|]. split; [reflexivity|].
  split; [reflexivity|]. split; [reflexivity|].
  split; [cbn; rewrite F1; exact E1|]. cbn. rewrite F3, E2. exact Hd.
Qed.

(** ** The canvases of the second front end *)

(** X18: for the same intensity buffer and the same stored range,
    [displayDataOnCanvas] with type ['intensity'] puts on the canvas
    exactly the bytes that [displayIntensity] of the first front end
    puts, although it tests [!isNaN && isFinite] and stores the four
    bytes in another order. *)
Theorem displayDataOnCanvas_same_as_displayIntensity p q intensity :
  D.rawIntensityData p = Some intensity ->
  M.rawIntensityData q = Some intensity ->
  D.intensityMin p = M.intensityMin q -> D.intensityMax p = M.intensityMax q ->
  V.displayDataOnCanvas p (D.rawIntensityData p) false = M.displayIntensity q.
Proof.
  intros Hp Hq Emin Emax. unfold V.displayDataOnCanvas, M.displayIntensity.
  rewrite Hp, Hq. cbv zeta. rewrite Emin, Emax. apply (f_equal Some).
  rewrite (for_range_nested 1024 1024) by lia.
  change (1024 * 1024 * 4) with 4194304. change (1024 * 1024) with 1048576.
  apply block_loop_eq.
  - lia.
  - intros i d Hi. by rewrite !set_byte_length.
  - intros i d Hi. by rewrite !set_byte_length.
  - intros i d j Hi Hj. destruct (split_index 1024 i ltac:(lia) ltac:(lia)) as (_ & _ & Ei).
    rewrite Ei. bytes.
  - intros i d j Hi Hj. bytes.
  - intros i d d' j Hi Hl Hd Hj.
    destruct (split_index 1024 i ltac:(lia) ltac:(lia)) as (_ & _ & Ei). rewrite Ei.
    rewrite !set_byte_lookup, !set_byte_length, Hl. bytes. apply Hd. exact Hj.
  - intros i d d' j Hi Hl Hd Hj.
    rewrite !set_byte_lookup, !set_byte_length, Hl. bytes. apply Hd. exact Hj.
  - intros i j Hi Hj.
    destruct (split_index 1024 i ltac:(lia) ltac:(lia)) as (_ & _ & Ei). rewrite Ei.
    rewrite usable_isFinite.
    rewrite !set_byte_lookup, !set_byte_length. bytes.
Qed.

(** X19: [displayDifferenceImage] reports an error and draws nothing when
    the difference buffer has no finite value; otherwise it scans the
    least and the greatest finite difference and draws a 1024 x 1024
    image in the red channel only: green and blue are 0, alpha is 255,
    and the red byte of pixel [i] is the level of [differenceData[i]]
    between the two. *)
Theorem displayDifferenceImage_pixels diffs :
  (finite_entries diffs = [] ->
     V.displayDifferenceImage (Some diffs) = V.NoValidData) /\
  (finite_entries diffs <> [] ->
     exists image mn mx,
       V.displayDifferenceImage (Some diffs) = V.Drawn image mn mx /\
       scanned diffs mn mx /\
       Z.of_nat (length image) = 4194304 /\
       forall i, 0 <= i < 1048576 ->
         pixel image i = Some (red_level mn mx (read diffs i), 0, 0, 255) /\
         0 <= red_level mn mx (read diffs i) <= 255).
Proof.
  destruct (displayDifferenceImage_spec diffs) as [H1 H2]. split; [exact H1|].
  intros Hne. destruct (H2 Hne) as (image & mn & mx & E & Hs & L & Hp).
  exists image, mn, mx. split; [exact E|]. split; [exact Hs|]. split; [exact L|].
  intros i Hi. split; [by apply Hp|apply red_level_range].
Qed.

(** X20: in the difference image a pixel without a finite difference
    (also one beyond the end of the buffer) is black, a pixel at the
    least finite difference is black, and a pixel at the greatest one is
    full red whenever it differs from the least and their distance is
    finite; when all finite differences are equal the divisor
    [max - min || 1] is 1 and the whole image is black. *)
Theorem displayDifferenceImage_levels diffs :
  finite_entries diffs <> [] ->
  exists image mn mx,
    V.displayDifferenceImage (Some diffs) = V.Drawn image mn mx /\
    forall i, 0 <= i < 1048576 ->
      (isFinite (read diffs i) = false -> pixel image i = Some (0, 0, 0, 255)) /\
      (read diffs i = mn -> pixel image i = Some (0, 0, 0, 255)) /\
      (read diffs i = mx -> mn <> mx -> isFinite (fsub mx mn) = true ->
       pixel image i = Some (255, 0, 0, 255)) /\
      (mn = mx -> pixel image i = Some (0, 0, 0, 255)).
Proof.
  intros Hne.
  destruct (displayDifferenceImage_spec diffs) as [_ H2].
  destruct (H2 Hne) as (image & mn & mx & E & Hs & _ & Hp).
  exists image, mn, mx. split; [exact E|].
  assert (exists a b, mn = Fin a /\ mx = Fin b /\ a <= b /\
            forall v, v ∈ finite_entries diffs -> exists y, v = Fin y /\ a <= y <= b)
    as (a & b & -> & -> & Hab & Hall).
  { unfold scanned in Hs. destruct (finite_entries diffs) as [|w ws] eqn:Ew; [done|].
    rewrite <- Ew in Hs |- *.
    destruct Hs as (H1 & H3 & H4). rewrite Forall_forall in H4.
    destruct (finite_entries_finite _ _ H1) as [a ->].
    destruct (finite_entries_finite _ _ H3) as [b ->].
    exists a, b. split; [reflexivity|]. split; [reflexivity|].
    split.
    - destruct (H4 _ H1) as [_ Hle]. simpl in Hle. by apply Z.leb_le.
    - intros v Hv. destruct (H4 _ Hv) as [Hlo Hhi]. by apply fle_Fin_between. }
  intros i Hi. rewrite (Hp i Hi).
  split; [intros Hf; by rewrite red_level_nonfinite|].
  split; [intros ->; by rewrite (red_level_min _ _ a)|].
  split.
  - intros -> Hd Hfin. rewrite red_level_max; [reflexivity| |exact Hfin].
    assert (a <> b) by congruence. lia.
  - intros [= <-].
    destruct (isFinite (read diffs i)) eqn:Ef; [|by rewrite red_level_nonfinite].
    assert (read diffs i ∈ finite_entries diffs) as Hin.
    { unfold finite_entries. apply list_elem_of_In, filter_In. split; [|exact Ef].
      apply list_elem_of_In. unfold read in *.
      destruct (Z.ltb_spec i 0); [discriminate Ef|].
      destruct (diffs !! Z.to_nat i) as [v|] eqn:Ev; [|discriminate Ef].
      eapply list_elem_of_lookup_2. exact Ev. }
    destruct (Hall _ Hin) as (y & Ey & Hy).
    assert (y = a) as -> by lia. rewrite Ey. by rewrite (red_level_min _ _ a).
Qed.

(** ** The choice of the datasets *)

(** X21: when some dataset path contains "surface" and some path
    contains "intensity", case-insensitively, [loadDATXFile] loads the
    last such dataset of each kind, takes the dimensions from the
    surface dataset and computes the normalization. *)
Theorem loadDATXFile_selects_by_name entries p surface intensity :
  last_named "surface" entries = Some surface ->
  last_named "intensity" entries = Some intensity ->
  DS.load_selected entries p = M.calculateNormalization (with_datasets surface intensity p).
Proof.
  intros Hs Hi. unfold DS.load_selected.
  pose proof (search_loop entries) as E. cbv zeta in E. cbv zeta. rewrite E, Hs, Hi.
  reflexivity.
Qed.

(** X22: when one of the two names is found in no path, a dataset found
    under the other name is not used as such: the first dataset of the
    file becomes the surface and the second the intensity, whatever
    their names; with fewer than two datasets the load fails. *)
Theorem loadDATXFile_fallback_ignores_names entries p :
  last_named "surface" entries = None \/ last_named "intensity" entries = None ->
  DS.load_selected entries p =
    match entries with
    | (_, first) :: (_, second) :: _ =>
        M.calculateNormalization (with_datasets first second p)
    | _ => None
    end.
Proof.
  intros Hn. unfold DS.load_selected.
  pose proof (search_loop entries) as E. cbv zeta in E. cbv zeta. rewrite E.
  assert (match last_named "surface" entries, last_named "intensity" entries with
          | Some s, Some i => False
          | _, _ => True
          end) as Hcase.
  { destruct Hn as [-> | ->]; [done|]. by destruct (last_named "surface" entries). }
  destruct (last_named "surface" entries), (last_named "intensity" entries); try done.
  all: destruct entries as [|[p0 d0] [|[p1 d1] rest]]; reflexivity.
Qed.

(** ** The further properties at concrete inputs *)

Lemma threshold_highlights_a_pixel_witness :
  exists (i : nat) data,
    [Fin 0; Fin (5 * U); Fin (2 * U)] !! i = Some (Fin (5 * U)) /\
    M.updateHighlighting ([[Fin 0; Fin (5 * U); Fin (2 * U)]], highlighting_app) =
      (M.Normal,
       ([[Fin 0; Fin (5 * U); Fin (2 * U)]],
        M.set_intensityCanvas data (M.updatePointCloud (Fin (5 * U)) highlighting_app))) /\
    pixel data (Z.of_nat i) <>
      Some (gray_level (Fin 0) (Fin (10 * U)) (read [Fin (2 * U); NaN; Fin (10 * U); Fin 0] (Z.of_nat i)),
            gray_level (Fin 0) (Fin (10 * U)) (read [Fin (2 * U); NaN; Fin (10 * U); Fin 0] (Z.of_nat i)),
            gray_level (Fin 0) (Fin (10 * U)) (read [Fin (2 * U); NaN; Fin (10 * U); Fin 0] (Z.of_nat i)),
            255).
Proof.
  destruct (threshold_highlights_a_pixel [[Fin 0; Fin (5 * U); Fin (2 * U)]] highlighting_app
              0%nat [Fin (2 * U); NaN; Fin (10 * U); Fin 0] (95 * U) (Fin (5 * U)))
    as (_ & i & data & Hi & _ & E & Hfit & Hpix).
  - reflexivity.
  - reflexivity.
  - reflexivity.
  - reflexivity.
  - split; apply Z.leb_le; vm_compute; reflexivity.
  - vm_compute. reflexivity.
  - vm_compute. reflexivity.
  - exists i, data. split; [exact Hi|]. split; [exact E|].
    apply Hpix. apply Hfit. vm_compute. intros H. discriminate H.
Defined.

Lemma displayIntensity_pixels_witness :
  exists data,
    M.displayIntensity small_scan = Some data /\
    pixel data 1 = Some (0, 0, 0, 255) /\ pixel data 7 = Some (0, 0, 0, 255).
Proof.
  destruct (displayIntensity_pixels small_scan [Fin (2 * U); NaN; Fin (10 * U); Fin 0] eq_refl)
    as (data & E & _ & H).
  exists data. split; [exact E|]. split.
  - destruct (H 1 ltac:(lia)) as (P & _ & Z0 & _). rewrite Z0 in P by reflexivity. exact P.
  - destruct (H 7 ltac:(lia)) as (P & _ & _ & Z0).
    rewrite Z0 in P by (cbn [length]; lia). exact P.
Defined.

Lemma displayIntensity_monotone_witness :
  exists data gi gj,
    M.displayIntensity small_scan = Some data /\
    pixel data (Z.of_nat 0) = Some (gi, gi, gi, 255) /\
    pixel data (Z.of_nat 2) = Some (gj, gj, gj, 255) /\
    gi <= gj.
Proof.
  pose proof U_pos as HU.
  apply (displayIntensity_monotone small_scan [Fin (2 * U); NaN; Fin (10 * U); Fin 0]
           0 (10 * U) 0 2 (2 * U) (10 * U)).
  - reflexivity.
  - reflexivity.
  - reflexivity.
  - lia.
  - lia.
  - lia.
  - reflexivity.
  - reflexivity.
  - lia.
Defined.

Lemma displayIntensity_extremes_witness :
  exists data,
    M.displayIntensity small_scan = Some data /\
    pixel data (Z.of_nat 3) = Some (0, 0, 0, 255) /\
    pixel data (Z.of_nat 2) = Some (255, 255, 255, 255).
Proof.
  pose proof U_pos as HU.
  destruct (displayIntensity_extremes small_scan [Fin (2 * U); NaN; Fin (10 * U); Fin 0]
              0 (10 * U) 3 eq_refl eq_refl eq_refl ltac:(lia)) as (data & E & Hmin & _).
  destruct (displayIntensity_extremes small_scan [Fin (2 * U); NaN; Fin (10 * U); Fin 0]
              0 (10 * U) 2 eq_refl eq_refl eq_refl ltac:(lia)) as (data' & E' & _ & Hmax).
  rewrite E in E'. injection E' as <-.
  exists data. split; [exact E|]. split.
  - apply Hmin. reflexivity.
  - apply Hmax; [reflexivity|lia|vm_compute; reflexivity].
Defined.

Lemma updateIntensityOverlay_pixels_witness :
  exists data,
    M.updateIntensityOverlay (Fin (2 * U))
      ([[Fin (3 * U); Fin 0]], M.set_differenceData (Some 0%nat) (sample_app small_scan false)) =
      (M.Normal,
       ([[Fin (3 * U); Fin 0]],
        M.set_intensityCanvas data
          (M.set_differenceData (Some 0%nat) (sample_app small_scan false)))) /\
    pixel data 1 = Some (0, 0, 0, 255).
Proof.
  destruct (updateIntensityOverlay_pixels [[Fin (3 * U); Fin 0]]
              (M.set_differenceData (Some 0%nat) (sample_app small_scan false))
              [Fin (2 * U); NaN; Fin (10 * U); Fin 0] 0%nat (Fin (2 * U)) eq_refl eq_refl)
    as (data & E & _ & H).
  exists data. split; [exact E|].
  rewrite (H 1 ltac:(lia)). cbv zeta.
  change (M.highlighted (deref [[Fin (3 * U); Fin 0]] 0) (Fin (2 * U)) 1)
    with (2 * U <=? 0).
  rewrite gray_level_nonfinite by reflexivity.
  pose proof U_pos. destruct (Z.leb_spec (2 * U) 0); [lia|reflexivity].
Defined.

Lemma runInference_always_releases_witness :
  exists ext a',
    M.runInference ([], sample_app scan_50000 false) = ([] ++ ext, a') /\
    (length ext <= 2)%nat /\ M.isRunning a' = false /\ M.runBtn_disabled a' = false.
Proof.
  destruct (runInference_always_releases [] (sample_app scan_50000 false) identity_model
              eq_refl eq_refl eq_refl) as (ext & a' & E & L & R1 & R2 & _).
  exists ext, a'. split; [exact E|]. split; [exact L|]. split; [exact R1|exact R2].
Defined.

Lemma runInference_backend_failure_witness :
  exists gx gy,
    gy * 4 + gx <= 0 * 4 + 0 /\
    M.runInference ([], M.mkApp scan_50000 (Some failing_model) false true (of_Z 95)
                          None false None [] false false (0, 0) false) =
      ([], M.set_runBtn_disabled false
             (M.set_isRunning false
                (M.updateProgress (gy * 4 + gx + 1) 16
                   (M.run_begin
                      (M.mkApp scan_50000 (Some failing_model) false true (of_Z 95)
                         None false None [] false false (0, 0) false))))).
Proof.
  destruct (runInference_backend_failure []
              (M.mkApp scan_50000 (Some failing_model) false true (of_Z 95)
                 None false None [] false false (0, 0) false)
              failing_model (constant_scan (of_Z 50000)) 0 0)
    as (gx & gy & tile & _ & _ & Hle & _ & _ & _ & E).
  - reflexivity.
  - reflexivity.
  - reflexivity.
  - reflexivity.
  - lia.
  - lia.
  - intros tile _. reflexivity.
  - exists gx, gy. split; [exact Hle|exact E].
Defined.

Lemma runInference_pipeline_witness :
  exists recon diff a',
    M.runInference ([], sample_app scan_50000 false) = ([] ++ [recon; diff], a') /\
    M.differenceData a' = Some 1%nat /\ M.isRunning a' = false /\
    M.progress a' = (16, 16).
Proof.
  destruct (runInference_pipeline [] (sample_app scan_50000 false) identity_model
              (constant_scan (of_Z 50000)) eq_refl eq_refl eq_refl eq_refl)
    as (outputs & recon & diff & a' & E & _ & _ & _ & _ & _ & _ & _ & Ed & _ & Er & _ & Ep).
  - intros gridX gridY tile _ _ Ht. exists tile. split; [reflexivity|].
    destruct (processCrop_spec scan_50000 (constant_scan (of_Z 50000)) gridX gridY eq_refl)
      as (t & Et & Lt & _).
    change (M.imageProcessor (sample_app scan_50000 false)) with scan_50000 in Ht.
    rewrite Ht in Et. injection Et as <-. exact Lt.
  - exists recon, diff, a'. split; [exact E|]. split; [exact Ed|]. split; [exact Er|exact Ep].
Defined.


Lemma createDifferenceData_without_reconstruction_witness :
  exists c,
    M.createDifferenceData ([], sample_app small_scan false) =
      (c, ([] ++ [new_Float32Array (Z.of_nat 4)],
           M.set_differenceData (Some 0%nat) (sample_app small_scan false))) /\
    (c = M.Thrown <->
     exists v, v ∈ [Fin (2 * U); NaN; Fin (10 * U); Fin 0] /\ isFinite v = true).
Proof.
  apply (createDifferenceData_without_reconstruction [] (sample_app small_scan false)
           [Fin (2 * U); NaN; Fin (10 * U); Fin 0]); reflexivity.
Defined.

Lemma combineOutputs_accepts_iff_witness :
  fst (M.combineOutputs short_first_output (previous_heap, processor_with_reconstruction))
    = true <->
  Z.of_nat (length short_first_output) = 16 /\
  Forall (fun out => Z.of_nat (length out) = 65536) short_first_output.
Proof.
  apply (combineOutputs_accepts_iff short_first_output previous_heap
           processor_with_reconstruction).
  change (0 <= 1024 * 1024). lia.
Defined.

Lemma percentileThreshold_extremes_witness :
  exists lo hi,
    M.percentileThreshold [Fin (3 * U); Fin 0; Fin (1 * U); NaN; Fin (2 * U)] (Fin 0) = Some lo /\
    M.percentileThreshold [Fin (3 * U); Fin 0; Fin (1 * U); NaN; Fin (2 * U)] (Fin (100 * U))
      = Some hi /\
    fle lo (Fin (2 * U)) = true /\ fle (Fin (2 * U)) hi = true.
Proof.
  destruct (percentileThreshold_extremes [Fin (3 * U); Fin 0; Fin (1 * U); NaN; Fin (2 * U)])
    as (lo & hi & E0 & E1 & _ & _ & H & _).
  - vm_compute. reflexivity.
  - vm_compute. intros E. discriminate E.
  - exists lo, hi. split; [exact E0|]. split; [exact E1|].
    apply H.
    + apply list_elem_of_In. cbn. tauto.
    + vm_compute. reflexivity.
Defined.

Lemma generateThumbnail_samples_witness :
  exists data,
    G.generateThumbnail small_scan = Some data /\
    pixel data (0 * 128 + 127) =
      Some (gray_level (Fin 0) (Fin (10 * U)) (read [Fin (2 * U); NaN; Fin (10 * U); Fin 0] 1),
            gray_level (Fin 0) (Fin (10 * U)) (read [Fin (2 * U); NaN; Fin (10 * U); Fin 0] 1),
            gray_level (Fin 0) (Fin (10 * U)) (read [Fin (2 * U); NaN; Fin (10 * U); Fin 0] 1),
            255).
Proof.
  destruct (generateThumbnail_samples small_scan [Fin (2 * U); NaN; Fin (10 * U); Fin 0] eq_refl)
    as (data & E & _ & H).
  - split; reflexivity.
  - split; reflexivity.
  - exists data. split; [exact E|].
    destruct (H 127 0 ltac:(lia) ltac:(lia)) as (_ & _ & _ & P). exact P.
Defined.

Lemma generateThumbnail_subsamples_display_witness :
  exists thumb full,
    G.generateThumbnail scan_50000 = Some thumb /\
    M.displayIntensity scan_50000 = Some full /\
    pixel thumb (5 * 128 + 3) = pixel full (8 * 5 * 1024 + 8 * 3).
Proof.
  destruct (generateThumbnail_subsamples_display scan_50000 (constant_scan (of_Z 50000))
              eq_refl eq_refl eq_refl) as (thumb & full & E1 & E2 & H).
  exists thumb, full. split; [exact E1|]. split; [exact E2|]. apply H; lia.
Defined.

Lemma createSurfaceVisualization_points_witness :
  C.points (C.createSurfaceVisualization small_cloud) =
    (if fle (fsub (Fin (2 * U)) (Fin 0)) (Fin 0) ||
        bool_decide (plotted [Fin 0; Fin U; NaN; Fin (2 * U)] 2 2 = [])
     then None
     else Some (C.Float32Array_from
                  (flat_map (point_at Demo_small_scan [Fin 0; Fin U; NaN; Fin (2 * U)])
                     (plotted [Fin 0; Fin U; NaN; Fin (2 * U)] 2 2)),
                C.Float32Array_from
                  (flat_map (fun _ => [literal 1 2; literal 1 2; literal 1 2])
                     (plotted [Fin 0; Fin U; NaN; Fin (2 * U)] 2 2)))) /\
  plotted [Fin 0; Fin U; NaN; Fin (2 * U)] 2 2 = [0; 1; 3].
Proof.
  split; [|reflexivity].
  apply (createSurfaceVisualization_points small_cloud [Fin 0; Fin U; NaN; Fin (2 * U)]).
  - reflexivity.
  - reflexivity.
  - discriminate.
Defined.

Lemma createSurfaceVisualization_heights_in_range_witness :
  exists positions colors,
    C.points (C.createSurfaceVisualization small_cloud) = Some (positions, colors) /\
    length positions = 9%nat /\
    forall k : nat, (3 * k + 1 < length positions)%nat ->
      exists v, positions !! (3 * k + 1)%nat = Some (Fin v) /\ 0 <= v <= 20 * U.
Proof.
  pose proof U_pos as HU.
  eexists _, _. split; [vm_compute; reflexivity|]. split; [reflexivity|].
  eapply (createSurfaceVisualization_heights_in_range small_cloud
            [Fin 0; Fin U; NaN; Fin (2 * U)] 0 (2 * U)).
  - reflexivity.
  - reflexivity.
  - discriminate.
  - reflexivity.
  - reflexivity.
  - vm_compute. reflexivity.
  - intros z Hz. apply list_elem_of_In in Hz. cbn [In] in Hz.
    destruct Hz as [Hz|[Hz|[Hz|[Hz|[]]]]]; try discriminate Hz; injection Hz as <-; lia.
  - vm_compute. reflexivity.
Defined.

Lemma updatePointCloudHighlighting_recolours_witness :
  match C.points (C.createSurfaceVisualization small_cloud) with
  | None =>
      C.updatePointCloudHighlighting (Fin U) (C.createSurfaceVisualization small_cloud) =
        Some (C.createSurfaceVisualization small_cloud)
  | Some (positions, colors) =>
      exists a2,
        C.updatePointCloudHighlighting (Fin U) (C.createSurfaceVisualization small_cloud) =
          Some a2 /\
        C.points a2 =
          Some (positions,
                C.Float32Array_from
                  (flat_map (color_at [Fin (3 * U); Fin 0; Fin 0; Fin U] (Fin U))
                     (plotted [Fin 0; Fin U; NaN; Fin (2 * U)] 2 2))) /\
        length (flat_map (color_at [Fin (3 * U); Fin 0; Fin 0; Fin U] (Fin U))
                  (plotted [Fin 0; Fin U; NaN; Fin (2 * U)] 2 2)) = length colors /\
        length colors = length positions /\
        C.imageProcessor a2 = Demo_small_scan /\
        C.differenceData a2 = Some [Fin (3 * U); Fin 0; Fin 0; Fin U]
  end.
Proof.
  apply (updatePointCloudHighlighting_recolours small_cloud
           [Fin 0; Fin U; NaN; Fin (2 * U)] [Fin (3 * U); Fin 0; Fin 0; Fin U] (Fin U)).
  - reflexivity.
  - reflexivity.
  - discriminate.
  - reflexivity.
Defined.

Lemma displayDataOnCanvas_same_as_displayIntensity_witness :
  V.displayDataOnCanvas Demo_small_scan (D.rawIntensityData Demo_small_scan) false =
  M.displayIntensity small_scan.
Proof.
  apply (displayDataOnCanvas_same_as_displayIntensity Demo_small_scan small_scan
           [Fin (2 * U); NaN; Fin (10 * U); Fin 0]); reflexivity.
Defined.

Lemma displayDifferenceImage_levels_witness :
  exists image mn mx,
    V.displayDifferenceImage (Some [Fin U; NaN; Fin (3 * U)]) = V.Drawn image mn mx /\
    pixel image 1 = Some (0, 0, 0, 255).
Proof.
  destruct (displayDifferenceImage_levels [Fin U; NaN; Fin (3 * U)])
    as (image & mn & mx & E & H).
  - vm_compute. intros E. discriminate E.
  - exists image, mn, mx. split; [exact E|].
    destruct (H 1 ltac:(lia)) as (H1 & _). apply H1. reflexivity.
Defined.

Lemma loadDATXFile_selects_by_name_witness :
  DS.load_selected named_entries small_scan =
  M.calculateNormalization
    (with_datasets
       (DS.mkDataset [Fin 0; Fin U] 2 1 "Surface" "Measurement/Surface")
       (DS.mkDataset [Fin (5 * U); NaN] 2 1 "INTENSITY" "Measurement/INTENSITY")
       small_scan).
Proof.
  apply (loadDATXFile_selects_by_name named_entries small_scan); reflexivity.
Defined.

Lemma loadDATXFile_fallback_ignores_names_witness :
  DS.load_selected half_named_entries small_scan =
  M.calculateNormalization
    (with_datasets
       (DS.mkDataset [Fin (5 * U); NaN] 2 1 "Intensity" "Data/Intensity")
       (DS.mkDataset [Fin 0; Fin U] 2 1 "Height" "Data/Height")
       small_scan).
Proof.
  apply (loadDATXFile_fallback_ignores_names half_named_entries small_scan).
  left. reflexivity.
Defined.
